(** * Sleep Art Gallery: the generative art engine (js/art-generator.js)

    A shallow embedding of [SleepArtGenerator] and the properties of its
    seeded random source, colour utilities, palette selector, metric
    calculator and layer pipeline; and of the code around it: the storage
    layer [SleepStorage] (js/storage.js) and the parts of the application
    (app.js) that compute something: the achievement table and
    [checkAchievements], the texts of the clocks and the calendar ids.

    Modelling conventions.
    - 32-bit integers are [Z] with the wrap-around of the ECMAScript
      conversions [ToInt32] and [ToUint32] written out.
    - Finite JavaScript Numbers (durations, coordinates, random draws) are
      rationals [Q].  The rounding of binary64 arithmetic is written out
      ([JS.round64]: the nearest Number, ties to the even significand)
      where it decides what is drawn: in the quality and complexity that
      [generate] computes and in the products that are floored to a
      number of orbs, spokes and stars.  Elsewhere (coordinates, sizes,
      opacities, the storage layer and the application) arithmetic is
      exact.  A result beyond the largest Number, where the source gets
      [Infinity], is outside the model.  Every constant of the source is
      a short decimal and is written as the same decimal here.
    - A Number that can be NaN and is otherwise an integer (a colour
      channel read by [parseInt], an hour read by [getHours]) is an
      [option Z], [None] standing for NaN.
    - Division is that of [Q], which gives 0 for a zero divisor; the
      source divides by a variable only in [x / w] (aurora) and
      [(Math.PI * 2) / symmetry], so only a canvas of width 0 is outside
      the model ([symmetry] is at least 4).
    - Strings are [string] (ASCII).
    - The 2D context is modelled by the sequence of calls made on it; a
      gradient object is the value it holds when it is assigned to
      [fillStyle].  What the calls paint is read off that sequence by
      [paint]: the path, styles and saved states of the context are
      followed call by call, and every [fill], [stroke] and [fillRect]
      gives the shape it puts on the surface.
    - Host built-ins that are not part of the repository ([Math.sin],
      [Math.PI], Number-to-string conversion of a fraction, and
      [new Date(s).getHours()], which depends on the host time zone) are
      variables of the section [Engine]; so are, for the storage layer,
      the other methods of [Date] and the success of
      [localStorage.setItem]. *)

From Stdlib Require Import ZArith NArith QArith Qabs Qround Qminmax Qpower.
From Stdlib Require Import List String Ascii Bool Lia Lqa.
Import ListNotations.

Local Open Scope Z_scope.

(* ================================================================== *)
(** ** ECMAScript integer conversions and operators *)

Module JS.

Definition two32 : Z := 4294967296.
Definition two31 : Z := 2147483648.

(** [ToUint32]: the value modulo 2^32. *)
Definition ToUint32 (x : Z) : Z := x mod two32.

(** [ToInt32]: the value modulo 2^32, read as a signed two's complement
    number. *)
Definition ToInt32 (x : Z) : Z :=
  let u := x mod two32 in
  if two31 <=? u then u - two32 else u.

(** [a | b] *)
Definition bor (a b : Z) : Z := ToInt32 (Z.lor (ToInt32 a) (ToInt32 b)).

(** [a ^ b] *)
Definition bxor (a b : Z) : Z := ToInt32 (Z.lxor (ToInt32 a) (ToInt32 b)).

(** [a >>> n]: the left operand as an unsigned 32-bit number, shifted by
    the low five bits of the right operand. *)
Definition ushr (a n : Z) : Z :=
  Z.shiftr (ToUint32 a) (Z.land (ToUint32 n) 31).

(** [Math.imul(a, b)] *)
Definition imul (a b : Z) : Z :=
  ToInt32 ((ToUint32 a * ToUint32 b) mod two32).

(** A Number that is NaN or an integer. *)
Definition jsint : Type := option Z.
Definition NaN : jsint := None.

(** Relational operators on such Numbers: any comparison with NaN is
    false. *)
Definition ge (a : jsint) (b : Z) : bool :=
  match a with Some x => b <=? x | None => false end.
Definition lt (a : jsint) (b : Z) : bool :=
  match a with Some x => x <? b | None => false end.

(** [Math.round] on a finite Number: the nearest integer, halves going
    up. *)
Definition round (x : Q) : Z := Qfloor (x + 0.5)%Q.

(** *** Arithmetic on Numbers (binary64)

    A finite Number is a rational [m * 2^q] with [|m| < 2^53] and
    [q >= -1074].  An arithmetic operation returns the Number nearest to
    the exact result, a tie going to the Number whose significand [m] is
    even. *)

(** The binary exponent of a positive rational: the [e] with
    [2^e <= x < 2^(e+1)]. *)
Definition exponent (x : Q) : Z :=
  let e := Z.log2 (Qnum x) - Z.log2 (Zpos (Qden x)) in
  if Qle_bool (2 ^ e) x then e else e - 1.

(** [k] is the integer nearest to [m], the even one of the two when [m]
    lies half way between them. *)
Definition nearest (m : Q) (k : Z) : Prop :=
  ((- (1 # 2) <= inject_Z k - m)%Q /\ (inject_Z k - m <= 1 # 2)%Q)
  /\ ((inject_Z k - m == 1 # 2)%Q \/ (inject_Z k - m == - (1 # 2))%Q ->
      Z.even k = true).

Definition nearestEven (m : Q) : Z :=
  let f := Qfloor m in
  match Qcompare (m - inject_Z f) (1 # 2) with
  | Lt => f
  | Gt => f + 1
  | Eq => if Z.even f then f else f + 1
  end.

(** The Numbers around [x] are the multiples of [2^q] for this [q]: 52
    places below the exponent of [x], and -1074 for the smallest
    Numbers. *)
Definition ulpExponent (x : Q) : Z :=
  Z.max (exponent (Qabs x) - 52) (-1074).

(** The Number nearest to a rational. *)
Definition round64 (x : Q) : Q :=
  let q := ulpExponent x in
  (inject_Z (nearestEven (x / 2 ^ q)) * 2 ^ q)%Q.

(** [a - b], [a * b] and [a / b]. *)
Definition minus (a b : Q) : Q := round64 (a - b).
Definition times (a b : Q) : Q := round64 (a * b).
Definition over (a b : Q) : Q := round64 (a / b).

(** [s.slice(a, b)] for non-negative indices: the characters from index
    [a] up to but not including index [b], both clamped to the length. *)
Definition slice (s : string) (a b : nat) : string :=
  substring a (b - a) s.

(** White space skipped by [parseInt] (the ASCII part of
    StrWhiteSpaceChar). *)
Definition isWhite (c : ascii) : bool :=
  let n := nat_of_ascii c in
  ((n =? 9) || (n =? 10) || (n =? 11) || (n =? 12) || (n =? 13)
    || (n =? 32))%nat.

Fixpoint trimStart (s : string) : string :=
  match s with
  | String c s' => if isWhite c then trimStart s' else s
  | EmptyString => s
  end.

(** The value of a hexadecimal digit. *)
Definition hexDigit (c : ascii) : option Z :=
  let n := Z.of_nat (nat_of_ascii c) in
  if (48 <=? n) && (n <=? 57) then Some (n - 48)
  else if (97 <=? n) && (n <=? 102) then Some (n - 87)
  else if (65 <=? n) && (n <=? 70) then Some (n - 55)
  else None.

(** The longest prefix of hexadecimal digits, read in base 16; [acc] is
    the value read so far, [None] when no digit has been read. *)
Fixpoint hexPrefix (acc : option Z) (s : string) : option Z :=
  match s with
  | String c s' =>
      match hexDigit c with
      | Some d =>
          hexPrefix (Some (16 * match acc with Some a => a | None => 0 end
                           + d)) s'
      | None => acc
      end
  | EmptyString => acc
  end.

Definition strip0x (s : string) : string :=
  match s with
  | String "0" (String "x" s') => s'
  | String "0" (String "X" s') => s'
  | _ => s
  end.

(** [parseInt(s, 16)]: leading white space, an optional sign and an
    optional [0x] are skipped, then the longest prefix of hexadecimal
    digits is read; the result is NaN when that prefix is empty. *)
Definition parseInt16 (s : string) : jsint :=
  let s1 := trimStart s in
  let '(sign, s2) :=
    match s1 with
    | String "-" s' => (-1, s')
    | String "+" s' => (1, s')
    | _ => (1, s1)
    end in
  match hexPrefix None (strip0x s2) with
  | Some v => Some (sign * v)
  | None => NaN
  end.

(** Decimal digits of a natural number, most significant first. *)
Fixpoint digitsFuel (fuel : nat) (n : N) (acc : string) : string :=
  match fuel with
  | O => acc
  | S fuel' =>
      let d := ascii_of_N (48 + N.modulo n 10) in
      let q := N.div n 10 in
      if N.eqb q 0 then String d acc
      else digitsFuel fuel' q (String d acc)
  end.

Definition showN (n : N) : string :=
  digitsFuel (S (N.to_nat (N.log2 n))) n EmptyString.

(** Number-to-string conversion of an integer or NaN (an integer below
    10^21 in absolute value is printed in plain decimal). *)
Definition showInt (a : jsint) : string :=
  match a with
  | None => "NaN"
  | Some (Zneg p) => String "-" (showN (Npos p))
  | Some z => showN (Z.to_N z)
  end.

End JS.

(* ================================================================== *)
(** ** Seeded random source: [createRandom] (Mulberry32) *)

Module Random.
Import JS.

(** [let s = seed | 0] *)
Definition createRandom (seed : Z) : Z := bor seed 0.

(** One call of the closure returned by [createRandom]: the new value of
    the captured variable [s] and the Number returned. *)
Definition advance (s : Z) : Z := bor (s + 1831565813) 0.

Definition output (s1 : Z) : Z :=
  let t := imul (bxor s1 (ushr s1 15)) (bor 1 s1) in
  let t := bxor (t + imul (bxor t (ushr t 7)) (bor 61 t)) t in
  ushr (bxor t (ushr t 14)) 0.

Definition next (s : Z) : Q * Z :=
  let s1 := advance s in
  ((inject_Z (output s1) / inject_Z two32)%Q, s1).

(** The captured variable after [n] calls. *)
Fixpoint stateAfter (n : nat) (seed : Z) : Z :=
  match n with
  | O => createRandom seed
  | S n' => snd (next (stateAfter n' seed))
  end.

(** The Number returned by call number [n] (counted from 0). *)
Definition draw (n : nat) (seed : Z) : Q := fst (next (stateAfter n seed)).

(** The algorithm in the words of the specification, on an unsigned
    32-bit state: every sum and product is taken modulo 2^32. *)
Definition specAdvance (u : Z) : Z := (u + 1831565813) mod two32.

Definition specOutput (u1 : Z) : Z :=
  let t := (Z.lxor u1 (Z.shiftr u1 15) * Z.lor u1 1) mod two32 in
  let t := Z.lxor
             ((t + (Z.lxor t (Z.shiftr t 7) * Z.lor t 61) mod two32)
                mod two32) t in
  Z.lxor t (Z.shiftr t 14).

Definition specNext (u : Z) : Q * Z :=
  let u1 := specAdvance u in
  ((inject_Z (specOutput u1) / inject_Z two32)%Q, u1).

End Random.

(* ================================================================== *)
(** ** The drawing surface *)

(** A colour stop list, as built by [addColorStop]. *)
Definition Stops : Type := list (Q * string).

(** What can be assigned to [fillStyle] or [strokeStyle]. *)
Inductive Style : Type :=
| Css (color : string)
| RadialGradient (x0 y0 r0 x1 y1 r1 : Q) (stops : Stops)
| LinearGradient (x0 y0 x1 y1 : Q) (stops : Stops).

(** The calls made on the 2D context. *)
Inductive DrawOp : Type :=
| SetFillStyle (s : Style)
| SetStrokeStyle (s : Style)
| SetLineWidth (w : Q)
| FillRect (x y w h : Q)
| BeginPath
| ClosePath
| MoveTo (x y : Q)
| LineTo (x y : Q)
| BezierCurveTo (cp1x cp1y cp2x cp2y x y : Q)
| Arc (x y radius startAngle endAngle : Q)
| Rect (x y w h : Q)
| Fill
| Stroke
| Save
| Restore
| Translate (x y : Q)
| Rotate (angle : Q).

(** *** What the calls put on the surface *)

(** The part of the drawing state that [save] keeps and [restore] brings
    back, as far as the engine uses it: the two styles and the line
    width. *)
Record Pen : Type := mkPen {
  fillStyle : Style;
  strokeStyle : Style;
  lineWidth : Q
}.

(** The context between two calls: the current path (the path calls made
    since the last [beginPath]), the pen and the stack of saved pens.  The
    current transformation is not tracked: a path is kept as the calls that
    built it, with the coordinates passed to them. *)
Record Context : Type := mkContext {
  path : list DrawOp;
  pen : Pen;
  saved : list Pen
}.

(** What a call paints on the surface: the current path filled or
    stroked with the style in force, or a rectangle filled directly. *)
Inductive Shape : Type :=
| Filled (outline : list DrawOp) (style : Style)
| Stroked (outline : list DrawOp) (style : Style) (thickness : Q)
| FilledRect (x y w h : Q) (style : Style).

(** One call on a context: the context afterwards and the shapes painted.
    Only [fill], [stroke] and [fillRect] paint; [restore] with nothing
    saved does nothing. *)
Definition step (c : Context) (op : DrawOp) : Context * list Shape :=
  match op with
  | SetFillStyle s =>
      (mkContext (path c)
         (mkPen s (strokeStyle (pen c)) (lineWidth (pen c))) (saved c), [])
  | SetStrokeStyle s =>
      (mkContext (path c)
         (mkPen (fillStyle (pen c)) s (lineWidth (pen c))) (saved c), [])
  | SetLineWidth w =>
      (mkContext (path c)
         (mkPen (fillStyle (pen c)) (strokeStyle (pen c)) w) (saved c), [])
  | FillRect x y w h => (c, [FilledRect x y w h (fillStyle (pen c))])
  | BeginPath => (mkContext [] (pen c) (saved c), [])
  | ClosePath | MoveTo _ _ | LineTo _ _ | BezierCurveTo _ _ _ _ _ _
  | Arc _ _ _ _ _ | Rect _ _ _ _ =>
      (mkContext (path c ++ [op]) (pen c) (saved c), [])
  | Fill => (c, [Filled (path c) (fillStyle (pen c))])
  | Stroke =>
      (c, [Stroked (path c) (strokeStyle (pen c)) (lineWidth (pen c))])
  | Save => (mkContext (path c) (pen c) (pen c :: saved c), [])
  | Restore =>
      match saved c with
      | [] => (c, [])
      | p :: rest => (mkContext (path c) p rest, [])
      end
  | Translate _ _ | Rotate _ => (c, [])
  end.

(** The shapes painted by a sequence of calls, in order, and the context
    it leaves. *)
Fixpoint paint (c : Context) (ops : list DrawOp) : list Shape :=
  match ops with
  | [] => []
  | op :: rest => snd (step c op) ++ paint (fst (step c op)) rest
  end.

Fixpoint contextAfter (c : Context) (ops : list DrawOp) : Context :=
  match ops with
  | [] => c
  | op :: rest => contextAfter (fst (step c op)) rest
  end.

Definition countShapes (p : Shape -> bool) (c : Context)
    (ops : list DrawOp) : nat :=
  List.length (List.filter p (paint c ops)).

(** A call that paints nothing. *)
Definition quiet (op : DrawOp) : bool :=
  match op with
  | Fill | Stroke | FillRect _ _ _ _ => false
  | _ => true
  end.

(** A path made of one [arc], and one made of one [rect]. *)
Definition isArcPath (outline : list DrawOp) : bool :=
  match outline with
  | [Arc _ _ _ _ _] => true
  | _ => false
  end.

Definition isRectPath (outline : list DrawOp) : bool :=
  match outline with
  | [Rect _ _ _ _] => true
  | _ => false
  end.

(** The canvas lent by the caller: its size and what has been drawn on it
    so far. *)
Record Canvas : Type := mkCanvas {
  width : Z;
  height : Z;
  surface : list DrawOp
}.

Record SleepRecord : Type := mkRecord {
  id : string;
  bedtime : string;
  wakeTime : string;
  duration : Q;
  artSeed : Z
}.

(** [options.streak] may be absent. *)
Record RenderOptions : Type := mkOptions {
  streak : option Z
}.

(** *** Drawing code: a state monad over the captured variable of the
    random source, which also collects the calls made on the context. *)

Definition Draw (A : Type) : Type := Z -> A * Z * list DrawOp.

Definition ret {A} (a : A) : Draw A := fun s => (a, s, []).

Definition bind {A B} (m : Draw A) (f : A -> Draw B) : Draw B :=
  fun s =>
    let '(a, s1, o1) := m s in
    let '(b, s2, o2) := f a s1 in
    (b, s2, o1 ++ o2).

(** [rand()] *)
Definition rand : Draw Q :=
  fun s => let '(v, s1) := Random.next s in (v, s1, []).

(** One call on the context. *)
Definition ctx (op : DrawOp) : Draw unit := fun s => (tt, s, [op]).

Declare Scope draw_scope.
Delimit Scope draw_scope with draw.
Notation "x <- m ;; k" := (bind m (fun x => k))
  (at level 61, m at next level, right associativity) : draw_scope.
Notation "m ;; k" := (bind m (fun _ => k))
  (at level 61, right associativity) : draw_scope.

(** [for (let i = 0; i < n; i++) body(i)], run for [n] rounds starting at
    index [i]. *)
Fixpoint forFrom (n : nat) (i : Z) (body : Z -> Draw unit) : Draw unit :=
  match n with
  | O => ret tt
  | S n' => bind (body i) (fun _ => forFrom n' (i + 1) body)
  end.

(** A loop [for (let i = 0; i < n; i++)] whose bound [n] is an integer:
    no round at all when [n <= 0]. *)
Definition forLoop (n : Z) (body : Z -> Draw unit) : Draw unit :=
  forFrom (Z.to_nat n) 0 body.

Definition drawnBy {A} (m : Draw A) (s : Z) : list DrawOp := snd (m s).
Definition stateAfterDraw {A} (m : Draw A) (s : Z) : Z := snd (fst (m s)).

(** *** Palettes *)

Definition Palette : Type := list string.

Module PALETTES.
Local Open Scope string_scope.
Definition serene : Palette :=
  ["#1a1a4e"; "#2d2b7f"; "#3f51b5"; "#7986cb"; "#c5cae9";
   "#4fc3f7"; "#81d4fa"; "#b3e5fc"].
Definition twilight : Palette :=
  ["#1a0a3e"; "#4a148c"; "#7b1fa2"; "#ab47bc"; "#ce93d8";
   "#00bcd4"; "#26c6da"; "#80deea"].
Definition midnight : Palette :=
  ["#1a0a2e"; "#880e4f"; "#c62828"; "#e91e63"; "#f06292";
   "#ff7043"; "#ffab91"; "#ffd54f"].
Definition latenight : Palette :=
  ["#1a0f05"; "#4e342e"; "#bf360c"; "#e65100"; "#ff8f00";
   "#ffc107"; "#ffecb3"; "#fff8e1"].
End PALETTES.

(** [palette[i]]: [None] is [undefined]. *)
Definition at_ (palette : Palette) (i : Z) : option string :=
  if i <? 0 then None else nth_error palette (Z.to_nat i).

(** [palette[i] || other]: the empty string and [undefined] are falsy. *)
Definition orElse (c : option string) (other : string) : string :=
  match c with
  | Some EmptyString => other
  | Some s => s
  | None => other
  end.

(** A palette entry passed on as it is.  The entry is always defined where
    the source does so (lemmas [any_entry_in] and [upper_entry_in]);
    [undefined] is kept as an empty entry. *)
Definition entry (c : option string) : string :=
  match c with Some s => s | None => EmptyString end.

(** [palette.length] *)
Definition len (palette : Palette) : Q :=
  inject_Z (Z.of_nat (List.length palette)).

(** [Math.floor] *)
Definition floor (x : Q) : Z := Qfloor x.

(** [a > b] on finite Numbers. *)
Definition gt (a b : Q) : bool := negb (Qle_bool a b).

(** *** Metric calculator (the two parameters computed by [generate]) *)

(** The quality, as [generate] computes it in Number arithmetic
    ([Math.abs] and [Math.max] are exact). *)
Definition quality (duration : Q) : Q :=
  let idealDiff := Qabs (JS.minus duration 7.5) in
  Qmax 0 (JS.minus 1 (JS.over idealDiff 5)).

(** The complexity as a rational: the exact value of
    [min(1, duration / 10)].  [generate] works with the Number nearest to
    it, [Qmin 1 (JS.over duration 10)] (lemma [complexity_as_Number]). *)
Definition complexity (duration : Q) : Q :=
  Qmin 1 (duration / 10).

(* ================================================================== *)
(** ** Stored data (js/storage.js) and shared helpers *)

(** The object kept under the storage key. *)
Record Data : Type := mkData {
  records : list SleepRecord;
  currentBedtime : option string;
  achievements : list string;
  alarmTime : option string
}.

(** What [localStorage] holds under the key: [None] when the item is
    absent, empty or not parsable, otherwise the data whose JSON text it
    is ([JSON.parse] gives back what [JSON.stringify] was given). *)
Definition LocalStorage : Type := option Data.

(** Truthiness of a string that may be [null]: [null] and the empty string
    are falsy. *)
Definition truthy (v : option string) : bool :=
  match v with
  | Some EmptyString => false
  | Some _ => true
  | None => false
  end.

(** [String(n)] and [`${n}`] for an integer. *)
Definition String_of (n : Z) : string := JS.showInt (Some n).

Fixpoint fill (n : nat) (c : ascii) (s : string) : string :=
  match n with
  | O => s
  | S n' => String c (fill n' c s)
  end.

(** [s.padStart(targetLength, c)] for a filler of one character. *)
Definition padStart (s : string) (targetLength : nat) (c : ascii) : string :=
  fill (targetLength - String.length s) c s.

(** [l.findIndex(p)]: the first index whose element satisfies [p],
    counted from [i]; -1 when there is none. *)
Fixpoint findIndexFrom {A} (p : A -> bool) (l : list A) (i : Z) : Z :=
  match l with
  | [] => -1
  | x :: l' => if p x then i else findIndexFrom p l' (i + 1)
  end.

Definition findIndex {A} (p : A -> bool) (l : list A) : Z :=
  findIndexFrom p l 0.

(** [l[i] = x] for an index inside the array (the only use, with an index
    returned by [findIndex]); no change is modelled outside it. *)
Fixpoint setAt {A} (l : list A) (i : nat) (x : A) : list A :=
  match l, i with
  | [], _ => []
  | _ :: l', O => x :: l'
  | y :: l', S i' => y :: setAt l' i' x
  end.

(** [l.includes(x)] on strings. *)
Definition includes (l : list string) (x : string) : bool :=
  existsb (String.eqb x) l.

(** [l.slice(start)] for an integer [start]: counted from the end when
    negative, clamped to the array. *)
Definition sliceFrom {A} (start : Z) (l : list A) : list A :=
  let n := Z.of_nat (List.length l) in
  if start <? 0
  then skipn (Z.to_nat (Z.max (n + start) 0)) l
  else skipn (Z.to_nat (Z.min start n)) l.

(** Reading back a run of decimal digits: the number read so far and the
    text after the digits. *)
Fixpoint readDigits (v : N) (s : string) : N * string :=
  match s with
  | String c s' =>
      let n := N_of_ascii c in
      if ((48 <=? n) && (n <=? 57))%N
      then readDigits (10 * v + (n - 48)) s'
      else (v, s)
  | EmptyString => (v, s)
  end.

(** *** A host to run the engine on

    One choice of the host built-ins, used to run the definitions on
    concrete inputs: a host whose local time zone is UTC, which prints a
    fraction in decimal, and whose sine is a polynomial. *)

Module Host.
Local Open Scope string_scope.

Definition PI : Q := 3.141592653589793%Q.

Definition sin (x : Q) : Q :=
  (x - x * x * x / 6 + x * x * x * x * x / 120)%Q.

Fixpoint fraction (fuel : nat) (r den : N) : string :=
  match fuel with
  | O => ""
  | S fuel' =>
      if N.eqb r 0 then ""
      else String (ascii_of_N (48 + N.div (r * 10) den))
                  (fraction fuel' (N.modulo (r * 10) den) den)
  end.

(** Plain decimal, at most 17 digits after the point. *)
Definition show (q : Q) : string :=
  let n := Z.abs_N (Qnum q) in
  let d := Npos (Qden q) in
  let frac := fraction 17 (N.modulo n d) d in
  (if (Qnum q <? 0)%Z then "-" else "")
    ++ JS.showN (N.div n d)
    ++ (match frac with "" => "" | _ => "." ++ frac end).

Definition digit (c : option ascii) : option Z :=
  match c with
  | Some c =>
      let n := Z.of_nat (nat_of_ascii c) in
      if ((48 <=? n) && (n <=? 57))%Z then Some (n - 48)%Z else None
  | None => None
  end.

(** The hour field of a timestamp [YYYY-MM-DDTHH:mm:ss.sssZ], as
    [toISOString] writes it; NaN for anything else. *)
Definition getHours (s : string) : JS.jsint :=
  match get 10 s, digit (get 11 s), digit (get 12 s) with
  | Some "T"%char, Some a, Some b =>
      if (10 * a + b <? 24)%Z then Some (10 * a + b)%Z else JS.NaN
  | _, _, _ => JS.NaN
  end.

Local Open Scope Z_scope.

(** The same on a host nine hours east of UTC. *)
Definition getHoursEast (s : string) : JS.jsint :=
  match getHours s with
  | Some h => Some ((h + 9) mod 24)
  | None => JS.NaN
  end.

(** Storage always has room. *)
Definition fits (data : Data) : bool := true.

Definition msPerDay : Z := 86400000.

(** Days since 1970-01-01 of a civil date, and back. *)
Definition daysFromCivil (y m d : Z) : Z :=
  let y := if m <=? 2 then y - 1 else y in
  let era := y / 400 in
  let yoe := y - era * 400 in
  let mp := if 2 <? m then m - 3 else m + 9 in
  let doy := (153 * mp + 2) / 5 + d - 1 in
  let doe := yoe * 365 + yoe / 4 - yoe / 100 + doy in
  era * 146097 + doe - 719468.

Definition civilFromDays (z : Z) : Z * Z * Z :=
  let z := z + 719468 in
  let era := z / 146097 in
  let doe := z - era * 146097 in
  let yoe := (doe - doe / 1460 + doe / 36524 - doe / 146096) / 365 in
  let y := yoe + era * 400 in
  let doy := doe - (365 * yoe + yoe / 4 - yoe / 100) in
  let mp := (5 * doy + 2) / 153 in
  let d := doy - (153 * mp + 2) / 5 + 1 in
  let m := if mp <? 10 then mp + 3 else mp - 9 in
  (if m <=? 2 then y + 1 else y, m, d).

(** [getFullYear], [getMonth] and [getDate] of the date with the given
    time value. *)
Definition localDate (t : Z) : Z * Z * Z :=
  let '(y, m, d) := civilFromDays (t / msPerDay) in (y, m - 1, d).

(** The date moved back by [i] days with [setDate(getDate() - i)]. *)
Definition setDateBack (t i : Z) : Z := t - i * msPerDay.

Definition two (n : Z) : string := padStart (String_of n) 2 "0".

Definition toISOString (t : Z) : string :=
  let '(y, m, d) := civilFromDays (t / msPerDay) in
  let ms := t mod msPerDay in
  padStart (String_of y) 4 "0" ++ "-" ++ two m ++ "-" ++ two d ++ "T"
    ++ two (ms / 3600000) ++ ":" ++ two (ms / 60000 mod 60) ++ ":"
    ++ two (ms / 1000 mod 60) ++ "."
    ++ padStart (String_of (ms mod 1000)) 3 "0" ++ "Z".

(** The number written in [len] digits from index [start]. *)
Definition field (s : string) (start len : nat) : option Z :=
  let text := substring start len s in
  match readDigits 0 text with
  | (v, EmptyString) =>
      if (String.length text =? len)%nat then Some (Z.of_N v) else None
  | _ => None
  end.

(** The time value of a timestamp [YYYY-MM-DDTHH:mm:ss.sssZ]; [None] (an
    invalid date) for anything else. *)
Definition parseDate (s : string) : option Z :=
  match field s 0 4, field s 5 2, field s 8 2,
        field s 11 2, field s 14 2, field s 17 2, field s 20 3 with
  | Some y, Some m, Some d, Some hh, Some mm, Some ss, Some ms =>
      if String.eqb (substring 4 1 s ++ substring 7 1 s ++ substring 10 1 s
                     ++ substring 13 1 s ++ substring 16 1 s
                     ++ substring 19 1 s ++ substring 23 2 s)
                    "--T::.Z"
      then Some (daysFromCivil y m d * msPerDay
                 + hh * 3600000 + mm * 60000 + ss * 1000 + ms)
      else None
  | _, _, _, _, _, _, _ => None
  end.

End Host.

(** *** Inputs to run the engine on *)

Module Sample.
Local Open Scope string_scope.

(** A record as the storage layer writes it, and the same night stored
    under another id and wake time. *)
Definition record : SleepRecord :=
  mkRecord "2024-01-15" "2024-01-14T21:30:00.000Z"
           "2024-01-15T05:00:00.000Z" 7.5 12345.

Definition sameNight : SleepRecord :=
  mkRecord "2024-01-16" "2024-01-14T21:30:00.000Z"
           "2024-01-15T05:30:00.000Z" 7.5 12345.

Definition blank : Canvas := mkCanvas 400 400 [].

(** The context of a canvas nobody has drawn on: an empty path, black
    styles, lines one pixel wide, nothing saved. *)
Definition fresh : Context :=
  mkContext [] (mkPen (Css "#000000") (Css "#000000") 1) [].

Definition painted : Canvas := mkCanvas 400 400 [Save; Restore].

Definition noOptions : RenderOptions := mkOptions None.

Definition noStreak : RenderOptions := mkOptions (Some 0).

(** Another night, and a storage holding both nights while the user is
    asleep again with the alarm set. *)
Definition night2 : SleepRecord :=
  mkRecord "2024-01-16" "2024-01-15T23:10:00.000Z"
           "2024-01-16T06:40:00.000Z" 7.5 4711.

Definition stored : LocalStorage :=
  Some (mkData [record; night2] (Some "2024-01-16T22:05:00.000Z")
          ["first_night"] (Some "07:00")).

(** The morning of 2024-01-17, 08:00 UTC. *)
Definition morning : Z := 1705478400000.

End Sample.

Local Open Scope Q_scope.
Local Open Scope draw_scope.

Section Engine.

(** Host built-ins. *)
Variable sin : Q -> Q.                    (* Math.sin *)
Variable PI : Q.                          (* Math.PI *)
Variable show : Q -> string.              (* a Number in a template *)
Variable getHours : string -> JS.jsint.   (* new Date(s).getHours() *)

Notation "a +++ b" := (String.append a b)
  (at level 60, right associativity).

(** *** Colour utilities *)

Definition channels (hex : string) : JS.jsint * JS.jsint * JS.jsint :=
  (JS.parseInt16 (JS.slice hex 1 3),
   JS.parseInt16 (JS.slice hex 3 5),
   JS.parseInt16 (JS.slice hex 5 7)).

Definition withAlpha (hex : string) (alpha : Q) : string :=
  let '(r, g, b) := channels hex in
  "rgba(" +++ JS.showInt r +++ ", " +++ JS.showInt g +++ ", "
    +++ JS.showInt b +++ ", " +++ show alpha +++ ")".

(** [Math.round(a + (b - a) * t)]; NaN when [a] or [b] is. *)
Definition lerpChannel (a b : JS.jsint) (t : Q) : JS.jsint :=
  match a, b with
  | Some x, Some y =>
      Some (JS.round (inject_Z x + (inject_Z y - inject_Z x) * t))
  | _, _ => JS.NaN
  end.

Definition lerpColor (color1 color2 : string) (t : Q) : string :=
  let '(r1, g1, b1) := channels color1 in
  let '(r2, g2, b2) := channels color2 in
  let r := lerpChannel r1 r2 t in
  let g := lerpChannel g1 g2 t in
  let b := lerpChannel b1 b2 t in
  "rgb(" +++ JS.showInt r +++ ", " +++ JS.showInt g +++ ", "
    +++ JS.showInt b +++ ")".

(** *** Palette selector *)

Definition paletteOfHour (hour : JS.jsint) : Palette :=
  if JS.ge hour 20 && JS.lt hour 22 then PALETTES.serene
  else if JS.ge hour 22 || JS.lt hour 0 then PALETTES.twilight
  else if JS.ge hour 0 && JS.lt hour 2 then PALETTES.midnight
  else PALETTES.latenight.

Definition selectPalette (bedtimeISO : string) : Palette :=
  let hour := getHours bedtimeISO in
  paletteOfHour hour.

(** *** Layer 1: background gradient *)

Definition drawBackground (w h : Q) (palette : Palette) : Draw unit :=
  r <- rand;;
  let cx := w * (0.3 + r * 0.4) in
  r <- rand;;
  let cy := h * (0.3 + r * 0.4) in
  let radius := Qmax w h * 0.8 in
  let gradient :=
    RadialGradient cx cy 0 cx cy radius
      [(0, orElse (at_ palette 1) "#1a1a4e");
       (0.5, orElse (at_ palette 0) "#0a0a2e");
       (1, "#050510"%string)] in
  ctx (SetFillStyle gradient);;
  ctx (FillRect 0 0 w h);;
  r <- rand;;
  let cx2 := w * r in
  r <- rand;;
  let cy2 := h * r in
  let gradient2 :=
    RadialGradient cx2 cy2 0 cx2 cy2 (radius * 0.6)
      [(0, withAlpha (orElse (at_ palette 2) "#3f51b5") 0.15);
       (1, "transparent"%string)] in
  ctx (SetFillStyle gradient2);;
  ctx (FillRect 0 0 w h).

(** *** Layer 2: aurora curves *)

(** [for (let x = 0; x <= w; x += 2) body(x)] *)
Definition forEverySecond (w : Q) (body : Q -> Draw unit) : Draw unit :=
  forLoop (floor (w / 2) + 1) (fun k => body (2 * inject_Z k)).

Definition drawAurora (w h : Q) (palette : Palette)
    (complexity quality : Q) : Draw unit :=
  let numCurves := (3 + floor (complexity * 4))%Z in
  forLoop numCurves (fun i =>
    ctx BeginPath;;
    r <- rand;;
    let amplitude := h * (0.05 + r * 0.15) in
    r <- rand;;
    let frequency := 1 + r * 3 in
    r <- rand;;
    let phase := r * PI * 2 in
    r <- rand;;
    let yOffset := h * (0.2 + r * 0.6) in
    r <- rand;;
    let colorIdx :=
      if gt quality 0.7
      then (floor (r * 3) + 2)%Z
      else floor (r * len palette) in
    ctx (MoveTo 0 yOffset);;
    forEverySecond w (fun x =>
      let y := yOffset
        + sin ((x / w) * PI * frequency + phase) * amplitude
        + sin ((x / w) * PI * frequency * 2.3 + phase * 1.7)
          * amplitude * 0.3 in
      ctx (LineTo x y));;
    ctx (LineTo w h);;
    ctx (LineTo 0 h);;
    ctx ClosePath;;
    let color := orElse (at_ palette colorIdx) (entry (at_ palette 0)) in
    let grad :=
      LinearGradient 0 (yOffset - amplitude) 0 h
        [(0, withAlpha color (0.08 + quality * 0.06));
         (0.5, withAlpha color 0.03);
         (1, "transparent"%string)] in
    ctx (SetFillStyle grad);;
    ctx Fill).

(** *** Layer 3: bokeh orbs *)

Definition drawOrbs (w h : Q) (palette : Palette)
    (duration quality : Q) : Draw unit :=
  let numOrbs := (5 + floor (JS.times duration 2.5))%Z in
  forLoop numOrbs (fun i =>
    r <- rand;;
    let x := r * w in
    r <- rand;;
    let y := r * h in
    r <- rand;;
    let radius := (10 + r * 40) * (0.5 + quality * 0.5) * (w / 400) in
    r <- rand;;
    let color := entry (at_ palette (floor (r * len palette))) in
    r <- rand;;
    let gradient :=
      RadialGradient x y 0 x y radius
        [(0, withAlpha color (0.15 + r * 0.15));
         (0.6, withAlpha color 0.05);
         (1, "transparent"%string)] in
    ctx BeginPath;;
    ctx (Arc x y radius 0 (PI * 2));;
    ctx (SetFillStyle gradient);;
    ctx Fill).

(** *** Layer 4: radial geometry *)

Definition drawGeometry (w h : Q) (palette : Palette)
    (quality : Q) : Draw unit :=
  let cx := w / 2 in
  let cy := h / 2 in
  let symmetry := (4 + floor (JS.times quality 8))%Z in
  let angleStep := (PI * 2) / inject_Z symmetry in
  let maxRadius := Qmin w h * (0.15 + quality * 0.1) in
  ctx Save;;
  ctx (Translate cx cy);;
  forLoop symmetry (fun i =>
    ctx Save;;
    ctx (Rotate (angleStep * inject_Z i));;
    r <- rand;;
    let lineLen := maxRadius * (0.5 + r * 0.5) in
    r <- rand;;
    let color :=
      entry (at_ palette (2 + floor (r * (len palette - 2)))%Z) in
    ctx BeginPath;;
    ctx (MoveTo 0 0);;
    r <- rand;;
    let cp1x := lineLen * 0.3 * (r - 0.5) in
    let cp1y := (- lineLen) * 0.4 in
    r <- rand;;
    let cp2x := lineLen * 0.3 * (r - 0.5) in
    let cp2y := (- lineLen) * 0.8 in
    ctx (BezierCurveTo cp1x cp1y cp2x cp2y 0 (- lineLen));;
    ctx (SetStrokeStyle (Css (withAlpha color 0.3)));;
    r <- rand;;
    ctx (SetLineWidth (1 + r * 1.5));;
    ctx Stroke;;
    ctx BeginPath;;
    r <- rand;;
    ctx (Arc 0 (- lineLen) (2 + r * 4) 0 (PI * 2));;
    ctx (SetFillStyle (Css (withAlpha color 0.4)));;
    ctx Fill;;
    ctx Restore);;
  forLoop 3 (fun ring =>
    r <- rand;;
    let ringRadius :=
      maxRadius * (0.2 + inject_Z ring * 0.2) * (0.8 + r * 0.4) in
    r <- rand;;
    let ringColor := entry (at_ palette (floor (r * len palette))) in
    ctx BeginPath;;
    ctx (Arc 0 0 ringRadius 0 (PI * 2));;
    ctx (SetStrokeStyle (Css (withAlpha ringColor (0.15 + quality * 0.1))));;
    r <- rand;;
    ctx (SetLineWidth (0.5 + r * 1));;
    ctx Stroke);;
  ctx Restore.

(** *** Layer 5: starfield *)

Definition drawStars (w h : Q) (complexity : Q) : Draw unit :=
  let numStars := (30 + floor (JS.times complexity 120))%Z in
  forLoop numStars (fun i =>
    r <- rand;;
    let x := r * w in
    r <- rand;;
    let y := r * h in
    r <- rand;;
    let size := 0.5 + r * 2 in
    r <- rand;;
    let brightness := 0.3 + r * 0.7 in
    ctx BeginPath;;
    ctx (Arc x y size 0 (PI * 2));;
    ctx (SetFillStyle
           (Css ("rgba(255, 255, 255, " +++ show (brightness * 0.5)
                 +++ ")")));;
    ctx Fill;;
    r <- rand;;
    if gt r 0.85 then
      let glowSize := size * 4 in
      ctx BeginPath;;
      ctx (MoveTo (x - glowSize) y);;
      ctx (LineTo (x + glowSize) y);;
      ctx (MoveTo x (y - glowSize));;
      ctx (LineTo x (y + glowSize));;
      ctx (SetStrokeStyle
             (Css ("rgba(255, 255, 255, " +++ show (brightness * 0.2)
                   +++ ")")));;
      ctx (SetLineWidth 0.5);;
      ctx Stroke
    else ret tt).

(** *** Layer 6: streak effects *)

Definition glowStops : Stops :=
  [(0, "rgba(255, 215, 0, 0.1)"%string);
   (0.5, "rgba(255, 193, 7, 0.03)"%string);
   (1, "transparent"%string)].

Definition drawStreakEffect (w h : Q) (palette : Palette)
    (streak : Z) : Draw unit :=
  (if (3 <=? streak)%Z then
     let numGlows := Z.min streak 20 in
     forLoop numGlows (fun i =>
       r <- rand;;
       let x := r * w in
       r <- rand;;
       let y := r * h in
       r <- rand;;
       let size := 20 + r * 30 in
       let gradient := RadialGradient x y 0 x y size glowStops in
       ctx BeginPath;;
       ctx (Arc x y size 0 (PI * 2));;
       ctx (SetFillStyle gradient);;
       ctx Fill)
   else ret tt);;
  (if (7 <=? streak)%Z then
     let cx := w / 2 in
     let cy := h / 2 in
     let radius := Qmin w h * 0.35 in
     ctx BeginPath;;
     ctx (Arc cx cy radius 0 (PI * 2));;
     ctx (SetStrokeStyle (Css "rgba(255, 215, 0, 0.12)"));;
     ctx (SetLineWidth 2);;
     ctx Stroke;;
     let segments := 36%Z in
     forLoop segments (fun i =>
       let angle := (inject_Z i / inject_Z segments) * PI * 2 in
       let nextAngle :=
         ((inject_Z i + 1) / inject_Z segments) * PI * 2 in
       let hue := (inject_Z i / inject_Z segments) * 360 in
       ctx BeginPath;;
       r <- rand;;
       ctx (Arc cx cy (radius * (0.95 + r * 0.1)) angle nextAngle);;
       ctx (SetStrokeStyle
              (Css ("hsla(" +++ show hue +++ ", 80%, 60%, 0.08)")));;
       ctx (SetLineWidth 3);;
       ctx Stroke)
   else ret tt);;
  (if (14 <=? streak)%Z then
     let cx := w / 2 in
     let cy := h / 2 in
     let size := Qmin w h * 0.06 in
     ctx Save;;
     ctx (Translate cx cy);;
     ctx (Rotate (PI / 4));;
     ctx BeginPath;;
     ctx (Rect ((- size) / 2) ((- size) / 2) size size);;
     let dGrad :=
       RadialGradient 0 0 0 0 0 size
         [(0, "rgba(255, 255, 255, 0.15)"%string);
          (0.5, "rgba(255, 215, 0, 0.08)"%string);
          (1, "transparent"%string)] in
     ctx (SetFillStyle dGrad);;
     ctx Fill;;
     ctx (SetStrokeStyle (Css "rgba(255, 215, 0, 0.2)"));;
     ctx (SetLineWidth 1);;
     ctx Stroke;;
     ctx Restore
   else ret tt).

(** *** Final touch: vignette *)

Definition drawVignette (w h : Q) : Draw unit :=
  let gradient :=
    RadialGradient (w / 2) (h / 2) (Qmin w h * 0.3)
                   (w / 2) (h / 2) (Qmax w h * 0.7)
      [(0, "transparent"%string); (1, "rgba(0, 0, 0, 0.4)"%string)] in
  ctx (SetFillStyle gradient);;
  ctx (FillRect 0 0 w h).

(** *** The render orchestrator *)

(** [options.streak || 0] *)
Definition streakOf (options : RenderOptions) : Z :=
  match streak options with
  | Some s => s
  | None => 0%Z
  end.

(** The body of [generate] once [w], [h] and [streak] are read: the
    parameters and the layers in order. *)
Definition pipeline (w h : Q) (record : SleepRecord) (streak : Z)
    : Draw unit :=
  let duration := duration record in
  let palette := selectPalette (bedtime record) in
  let idealDiff := Qabs (JS.minus duration 7.5) in
  let quality := Qmax 0 (JS.minus 1 (JS.over idealDiff 5)) in
  let complexity := Qmin 1 (JS.over duration 10) in
  drawBackground w h palette;;
  drawAurora w h palette complexity quality;;
  drawOrbs w h palette duration quality;;
  drawGeometry w h palette quality;;
  drawStars w h complexity;;
  (if (3 <=? streak)%Z
   then drawStreakEffect w h palette streak
   else ret tt);;
  drawVignette w h.

(** The calls [generate] makes on the context of a canvas of the given
    size. *)
Definition generated (w h : Z) (record : SleepRecord)
    (options : RenderOptions) : list DrawOp :=
  let streak := streakOf options in
  let rand := Random.createRandom (artSeed record) in
  drawnBy (pipeline (inject_Z w) (inject_Z h) record streak) rand.

Definition generate (canvas : Canvas) (record : SleepRecord)
    (options : RenderOptions) : Canvas :=
  let w := width canvas in
  let h := height canvas in
  mkCanvas w h (surface canvas ++ generated w h record options).

(** *** The pipeline in two parts: the layers before the streak
    effects, and the streak effects with the vignette. *)

Definition layers1to5 (w h : Q) (record : SleepRecord) : Draw unit :=
  let duration := duration record in
  let palette := selectPalette (bedtime record) in
  let idealDiff := Qabs (JS.minus duration 7.5) in
  let quality := Qmax 0 (JS.minus 1 (JS.over idealDiff 5)) in
  let complexity := Qmin 1 (JS.over duration 10) in
  drawBackground w h palette;;
  drawAurora w h palette complexity quality;;
  drawOrbs w h palette duration quality;;
  drawGeometry w h palette quality;;
  drawStars w h complexity.

Definition layers6to7 (w h : Q) (record : SleepRecord) (streak : Z)
    : Draw unit :=
  let palette := selectPalette (bedtime record) in
  (if (3 <=? streak)%Z
   then drawStreakEffect w h palette streak
   else ret tt);;
  drawVignette w h.

(** *** Reading a sequence of calls *)

Definition countOps (p : DrawOp -> bool) (ops : list DrawOp) : nat :=
  List.length (List.filter p ops).

Definition stopEqb (a b : Q * string) : bool :=
  Qeq_bool (fst a) (fst b) && String.eqb (snd a) (snd b).

Fixpoint stopsEqb (a b : Stops) : bool :=
  match a, b with
  | [], [] => true
  | x :: a', y :: b' => stopEqb x y && stopsEqb a' b'
  | _, _ => false
  end.

(** [m] emits exactly [c] calls satisfying [p], whatever the state of
    the random source. *)
Definition counts {A} (p : DrawOp -> bool) (m : Draw A) (c : nat) : Prop :=
  forall s, countOps p (drawnBy m s) = c.

Definition isClosePath (op : DrawOp) : bool :=
  match op with ClosePath => true | _ => false end.

Definition isLineTo (op : DrawOp) : bool :=
  match op with LineTo _ _ => true | _ => false end.

Definition isSaveOrRestore (op : DrawOp) : bool :=
  match op with Save | Restore => true | _ => false end.

(** The depth of the context's stack of saved states after a sequence of
    calls, from depth [d]; [None] when [restore] is called with none of
    the states counted in [d] left. *)
Fixpoint stackAfter (d : nat) (ops : list DrawOp) : option nat :=
  match ops with
  | [] => Some d
  | Save :: rest => stackAfter (S d) rest
  | Restore :: rest =>
      match d with
      | O => None
      | S d' => stackAfter d' rest
      end
  | _ :: rest => stackAfter d rest
  end.

(** [m] needs [a] saved states, never restores more than those, and
    leaves [b] in their place. *)
Definition moves {A} (m : Draw A) (a b : nat) : Prop :=
  forall s d, stackAfter (d + a) (drawnBy m s) = Some (d + b)%nat.

(** [m] calls [rand()] exactly [n] times. *)
Definition draws {A} (m : Draw A) (n : nat) : Prop :=
  forall s, stateAfterDraw m s = Nat.iter n Random.advance s.

(** The number of calls of [rand()] in one run of [generate]. *)
Definition drawsUsed (duration : Q) (streak : Z) : nat :=
  let quality := quality duration in
  let complexity := Qmin 1 (JS.over duration 10) in
  (4
   + Z.to_nat (3 + floor (complexity * 4)) * 5
   + Z.to_nat (5 + floor (JS.times duration 2.5)) * 5
   + (Z.to_nat (4 + floor (JS.times quality 8)) * 6 + 3 * 3)
   + Z.to_nat (30 + floor (JS.times complexity 120)) * 5
   + ((if (3 <=? streak)%Z then Z.to_nat (Z.min streak 20) * 3 else 0)
      + (if (7 <=? streak)%Z then 36 else 0)))%nat.

(** *** Shapes *)

(** A gold glow: a circle filled with a radial gradient of the three gold
    stops. *)
Definition isGoldGlow (shape : Shape) : bool :=
  match shape with
  | Filled outline style =>
      match style with
      | RadialGradient _ _ _ _ _ _ stops =>
          isArcPath outline && stopsEqb stops glowStops
      | _ => false
      end
  | _ => false
  end.

(** A segment of the rainbow ring: an arc stroked with an [hsla]
    colour. *)
Definition isRainbowSegment (shape : Shape) : bool :=
  match shape with
  | Stroked outline style _ =>
      match style with
      | Css color => isArcPath outline && String.prefix "hsla(" color
      | _ => false
      end
  | _ => false
  end.

(** The diamond: a rectangle path filled with a radial gradient. *)
Definition isDiamond (shape : Shape) : bool :=
  match shape with
  | Filled outline style =>
      match style with
      | RadialGradient _ _ _ _ _ _ _ => isRectPath outline
      | _ => false
      end
  | _ => false
  end.

(** An orb: a circle filled with a radial gradient. *)
Definition isOrb (shape : Shape) : bool :=
  match shape with
  | Filled outline style =>
      match style with
      | RadialGradient _ _ _ _ _ _ _ => isArcPath outline
      | _ => false
      end
  | _ => false
  end.

(** A circle filled with a plain colour (a star, the tip of a spoke). *)
Definition isDisc (shape : Shape) : bool :=
  match shape with
  | Filled outline style =>
      match style with
      | Css _ => isArcPath outline
      | _ => false
      end
  | _ => false
  end.

(** A circle stroked with a plain colour. *)
Definition isRing (shape : Shape) : bool :=
  match shape with
  | Stroked outline style _ =>
      match style with
      | Css _ => isArcPath outline
      | _ => false
      end
  | _ => false
  end.

(** A spoke: one Bezier curve from the centre, stroked with a plain
    colour. *)
Definition isSpoke (shape : Shape) : bool :=
  match shape with
  | Stroked outline style _ =>
      match style, outline with
      | Css _, [MoveTo _ _; BezierCurveTo _ _ _ _ _ _] => true
      | _, _ => false
      end
  | _ => false
  end.

(** The sparkle of a bright star: a cross of two strokes. *)
Definition isSparkle (shape : Shape) : bool :=
  match shape with
  | Stroked outline style _ =>
      match style, outline with
      | Css _, [MoveTo _ _; LineTo _ _; MoveTo _ _; LineTo _ _] => true
      | _, _ => false
      end
  | _ => false
  end.

(** From context [c], [m] paints between [lo] and [hi] shapes satisfying
    [p], whatever the state of the random source; and it does so from
    every context. *)
Definition paintsFrom {A} (p : Shape -> bool) (c : Context) (m : Draw A)
    (lo hi : nat) : Prop :=
  forall s, (lo <= countShapes p c (drawnBy m s) <= hi)%nat.

Definition paints {A} (p : Shape -> bool) (m : Draw A) (lo hi : nat)
    : Prop :=
  forall c, paintsFrom p c m lo hi.

(** *** Colours taken from the palette *)

(** The colours of a style. *)
Definition colorsOf (style : Style) : list string :=
  match style with
  | Css color => [color]
  | RadialGradient _ _ _ _ _ _ stops => map snd stops
  | LinearGradient _ _ _ _ stops => map snd stops
  end.

(** A colour made from an entry of the palette, [withAlpha(entry, alpha)],
    or [transparent]. *)
Definition fromPalette (palette : Palette) (color : string) : Prop :=
  color = "transparent"%string
  \/ exists (entry : string) (alpha : Q),
       In entry palette /\ color = withAlpha entry alpha.

(** A call that, when it sets a style, sets one whose colours are all made
    from entries of the palette. *)
Definition usesPalette (palette : Palette) (op : DrawOp) : Prop :=
  match op with
  | SetFillStyle style => Forall (fromPalette palette) (colorsOf style)
  | SetStrokeStyle style => Forall (fromPalette palette) (colorsOf style)
  | _ => True
  end.

(** Every call [m] makes satisfies [P], whatever the state of the random
    source. *)
Definition every {A} (P : DrawOp -> Prop) (m : Draw A) : Prop :=
  forall s, Forall P (drawnBy m s).

(** A colour literal [#RRGGBB]: a hash and six hexadecimal digits. *)
Definition hexColor (color : string) : bool :=
  match color with
  | String "#" (String a (String b (String c (String d
      (String e (String f EmptyString)))))) =>
      match JS.hexDigit a, JS.hexDigit b, JS.hexDigit c,
            JS.hexDigit d, JS.hexDigit e, JS.hexDigit f with
      | Some _, Some _, Some _, Some _, Some _, Some _ => true
      | _, _, _, _, _, _ => false
      end
  | _ => false
  end.

(* ================================================================ *)
(** ** Storage (js/storage.js) *)

(** More host built-ins.  A [Date] is its time value (milliseconds since
    the epoch); the dates passed in are valid ones. *)
Variable fits : Data -> bool.              (* setItem accepts the text *)
Variable parseDate : string -> option Z.   (* new Date(s); None: invalid *)
Variable toISOString : Z -> string.        (* date.toISOString() *)
Variable localDate : Z -> Z * Z * Z.       (* getFullYear, getMonth, getDate *)
Variable setDateBack : Z -> Z -> Z.        (* setDate(getDate() - i) *)

(** The storage accepts every write. *)
Definition roomy : Prop := forall data, fits data = true.

Definition initialData : Data := mkData [] None [] None.

Definition load (store : LocalStorage) : Data :=
  match store with
  | Some data => data
  | None => initialData
  end.

(** [setItem] may raise (the store is full); the error is caught and
    logged, and the item is left as it was. *)
Definition save (data : Data) (store : LocalStorage) : LocalStorage :=
  if fits data then Some data else store.

Definition startSleep (time : Z) (store : LocalStorage)
    : LocalStorage * Data :=
  let data := load store in
  let data :=
    mkData (records data) (Some (toISOString time)) (achievements data)
           (alarmTime data) in
  (save data store, data).

(** The test [r => r.id === dateId]. *)
Definition hasId (dateId : string) (r : SleepRecord) : bool :=
  String.eqb (id r) dateId.

Definition formatDate (date : Z) : string :=
  let '(year, month, day) := localDate date in
  let y := year in
  let m := padStart (String_of (month + 1)%Z) 2 "0" in
  let d := padStart (String_of day) 2 "0" in
  (String_of y ++ "-" ++ m ++ "-" ++ d)%string.

(** [endSleep(time)], with the number [Math.random()] returns.  The result
    is [None] when the call raises: [toISOString] does on an invalid
    date, before anything is saved.  The quotient and the product under
    [Math.round] are taken exactly here; in binary64 the product can
    fall just below a half that the exact one reaches (after 522000 ms
    it is 14.499999999999998 and 0.14 is stored, where the exact 14.5
    gives 0.15), so the theorems on the duration bound its distance to
    the time slept and do not fix its last digit. *)
Definition endSleep (time : Z) (random : Q) (store : LocalStorage)
    : option (LocalStorage * option SleepRecord) :=
  let data := load store in
  match currentBedtime data with
  | Some text =>
      if negb (truthy (currentBedtime data)) then Some (store, None)
      else
        match parseDate text with
        | None => None
        | Some bedtime =>
            let wakeTime := time in
            let durationMs := (wakeTime - bedtime)%Z in
            let durationHours := inject_Z durationMs / (1000 * 60 * 60) in
            let dateId := formatDate wakeTime in
            let artSeed := floor (random * 1000000) in
            let record :=
              mkRecord dateId (toISOString bedtime) (toISOString wakeTime)
                (inject_Z (JS.round (durationHours * 100)) / 100) artSeed in
            let existingIndex :=
              findIndex (hasId dateId) (records data) in
            let records' :=
              if (0 <=? existingIndex)%Z
              then setAt (records data) (Z.to_nat existingIndex) record
              else (records data ++ [record])%list in
            let data' :=
              mkData records' None (achievements data) (alarmTime data) in
            Some (save data' store, Some record)
        end
  | None => Some (store, None)
  end.

Definition getRecord (dateId : string) (store : LocalStorage)
    : option SleepRecord :=
  let data := load store in
  find (hasId dateId) (records data).

Definition getAllRecords (store : LocalStorage) : list SleepRecord :=
  records (load store).

Definition isSleeping (store : LocalStorage) : bool :=
  match currentBedtime (load store) with
  | Some _ => true
  | None => false
  end.

Definition setAlarm (timeStr : string) (store : LocalStorage)
    : LocalStorage :=
  let data := load store in
  save (mkData (records data) (currentBedtime data) (achievements data)
          (Some timeStr)) store.

(** [data.alarmTime || null] *)
Definition getAlarm (store : LocalStorage) : option string :=
  let data := load store in
  if truthy (alarmTime data) then alarmTime data else None.

Definition clearAlarm (store : LocalStorage) : LocalStorage :=
  let data := load store in
  save (mkData (records data) (currentBedtime data) (achievements data)
          None) store.

Definition unlockAchievement (achievementId : string)
    (store : LocalStorage) : LocalStorage * bool :=
  let data := load store in
  if negb (includes (achievements data) achievementId)
  then
    (save (mkData (records data) (currentBedtime data)
             (achievements data ++ [achievementId])%list (alarmTime data))
          store, true)
  else (store, false).

Definition getAchievements (store : LocalStorage) : list string :=
  achievements (load store).

(** Is there a record for the day [i] days before [today]? *)
Definition recordedDaysAgo (today : Z) (data : Data) (i : Z) : bool :=
  let checkDate := setDateBack today i in
  let dateId := formatDate checkDate in
  match find (hasId dateId) (records data) with
  | Some _ => true
  | None => false
  end.

(** The loop of [getStreak] from index [i], with [fuel] rounds left. *)
Fixpoint streakLoop (fuel : nat) (today : Z) (data : Data) (i : Z)
    (streak : Z) : Z :=
  match fuel with
  | O => streak
  | S fuel' =>
      if recordedDaysAgo today data i
      then streakLoop fuel' today data (i + 1) (streak + 1)
      else if (i =? 0)%Z && truthy (currentBedtime data)
      then streakLoop fuel' today data (i + 1) streak
      else if (i =? 0)%Z
      then streakLoop fuel' today data (i + 1) streak
      else streak
  end.

(** [getStreak()], with the date [new Date()] returns. *)
Definition getStreak (today : Z) (store : LocalStorage) : Z :=
  let data := load store in
  if (List.length (records data) =? 0)%nat then 0%Z
  else streakLoop 365 today data 0 0.

(** [getAverageDuration(days)]; [days] is an integer or absent. *)
Definition getAverageDuration (days : option Z) (store : LocalStorage)
    : Q :=
  let data := load store in
  let records := records data in
  let records :=
    match days with
    | Some n => if (n =? 0)%Z then records else sliceFrom (- n) records
    | None => records
    end in
  if (List.length records =? 0)%nat then 0
  else
    let total := fold_left (fun sum r => sum + duration r) records 0 in
    inject_Z
      (JS.round (total / inject_Z (Z.of_nat (List.length records)) * 10))
    / 10.

(* ================================================================ *)
(** ** The application (app.js) *)

(** An achievement: its id and its unlock test (name, description and
    icon are display texts only). *)
Record Achievement : Type := mkAchievement {
  achievementId : string;
  check : list SleepRecord -> Z -> bool
}.

Definition count (l : list SleepRecord) : Z := Z.of_nat (List.length l).

Definition ACHIEVEMENTS : list Achievement :=
  [ mkAchievement "first_night" (fun records _ => (1 <=? count records)%Z);
    mkAchievement "early_bird" (fun records _ =>
      existsb (fun r =>
        let hour := getHours (bedtime r) in
        JS.ge hour 18 && JS.lt hour 22) records);
    mkAchievement "night_owl" (fun records _ =>
      existsb (fun r =>
        let hour := getHours (bedtime r) in
        JS.ge hour 2 && JS.lt hour 6) records);
    mkAchievement "perfect_sleep" (fun records _ =>
      existsb (fun r =>
        Qle_bool 7 (duration r) && Qle_bool (duration r) 8) records);
    mkAchievement "long_sleep" (fun records _ =>
      existsb (fun r => Qle_bool 9 (duration r)) records);
    mkAchievement "week_warrior" (fun _ streak => (7 <=? streak)%Z);
    mkAchievement "two_week_master" (fun _ streak => (14 <=? streak)%Z);
    mkAchievement "art_collector" (fun records _ =>
      (10 <=? count records)%Z);
    mkAchievement "gallery_master" (fun records _ =>
      (30 <=? count records)%Z);
    mkAchievement "sleep_champion" (fun _ streak => (30 <=? streak)%Z) ].

(** One round of the loop of [checkAchievements]: the store and the ids
    of the toasts shown so far. *)
Definition checkOne (recs : list SleepRecord) (streak : Z)
    (unlockedIds : list string) (state : LocalStorage * list string)
    (achievement : Achievement) : LocalStorage * list string :=
  let '(store, toasts) := state in
  if negb (includes unlockedIds (achievementId achievement))
  then
    if check achievement recs streak
    then
      let '(store', isNew) :=
        unlockAchievement (achievementId achievement) store in
      if isNew
      then (store', (toasts ++ [achievementId achievement])%list)
      else (store', toasts)
    else (store, toasts)
  else (store, toasts).

(** [checkAchievements()]: the store afterwards and the ids toasted, in
    order. *)
Definition checkAchievements (today : Z) (store : LocalStorage)
    : LocalStorage * list string :=
  let recs := getAllRecords store in
  let streak := getStreak today store in
  let unlockedIds := getAchievements store in
  fold_left (checkOne recs streak unlockedIds) ACHIEVEMENTS (store, []).

(** The hours, minutes and seconds shown by [updateSleepingElapsed] for
    an elapsed time in milliseconds ([%] is the remainder with the sign of
    the dividend). *)
Definition elapsedParts (elapsed : Z) : Z * Z * Z :=
  let hours := (elapsed / (1000 * 60 * 60))%Z in
  let minutes := (Z.rem elapsed (1000 * 60 * 60) / (1000 * 60))%Z in
  let seconds := (Z.rem elapsed (1000 * 60) / 1000)%Z in
  (hours, minutes, seconds).

Definition elapsedStr (elapsed : Z) : string :=
  let '(hours, minutes, seconds) := elapsedParts elapsed in
  (padStart (String_of hours) 2 "0" ++ ":"
   ++ padStart (String_of minutes) 2 "0" ++ ":"
   ++ padStart (String_of seconds) 2 "0")%string.

(** The hours and minutes [showTodayArt] prints for a duration. *)
Definition durationParts (duration : Q) : Z * Z :=
  let hours := floor duration in
  let minutes := JS.round ((duration - inject_Z hours) * 60) in
  (hours, minutes).

(** [formatTime(date)], from the date's [getHours()] and
    [getMinutes()]. *)
Definition formatTime (hours minutes : Z) : string :=
  let h := padStart (String_of hours) 2 "0" in
  let m := padStart (String_of minutes) 2 "0" in
  (h ++ ":" ++ m)%string.

(** Does [checkAlarmTime] trigger the alarm, at local time
    [hours:minutes:seconds]? *)
Definition alarmDue (isAlarmRinging : bool) (hours minutes seconds : Z)
    (store : LocalStorage) : bool :=
  if negb (isSleeping store) || isAlarmRinging then false
  else
    match getAlarm store with
    | None => false
    | Some alarmTime =>
        let currentTime :=
          (padStart (String_of hours) 2 "0" ++ ":"
           ++ padStart (String_of minutes) 2 "0")%string in
        String.eqb currentTime alarmTime && (seconds <? 2)%Z
    end.

(** The record id [renderCalendar] looks up for a day of the month
    shown. *)
Definition calendarDateId (year month day : Z) : string :=
  (String_of year ++ "-" ++ padStart (String_of (month + 1)%Z) 2 "0"
   ++ "-" ++ padStart (String_of day) 2 "0")%string.

(** The array after [endSleep] has stored a record: the first element
    satisfying [p] replaced, or the record appended when there is none. *)
Fixpoint upsert {A} (p : A -> bool) (x : A) (l : list A) : list A :=
  match l with
  | [] => [x]
  | y :: l' => if p y then x :: l' else y :: upsert p x l'
  end.

(** Does the unlock test of the achievement with this id pass? *)
Definition passes (achievementId0 : string) (recs : list SleepRecord)
    (streak : Z) : bool :=
  match find (fun a => String.eqb (achievementId a) achievementId0)
             ACHIEVEMENTS with
  | Some a => check a recs streak
  | None => false
  end.

(** An achievement that [checkAchievements] unlocks: not among the ids
    unlocked before, and its test passes. *)
Definition earned (recs : list SleepRecord) (streak : Z)
    (unlockedIds : list string) (a : Achievement) : bool :=
  negb (includes unlockedIds (achievementId a)) && check a recs streak.

(** The exact mean of the durations, as [getAverageDuration] sums them. *)
Definition meanDuration (recs : list SleepRecord) : Q :=
  fold_left (fun sum r => sum + duration r) recs 0
  / inject_Z (Z.of_nat (List.length recs)).

(** The records have pairwise different ids. *)
Definition uniqueIds (data : Data) : Prop :=
  NoDup (map id (records data)).

(* ================================================================ *)
(** ** Properties of the integer operators *)

Section Int32.
Import JS.
Local Open Scope Z_scope.

Lemma two32_pow : two32 = 2 ^ 32.
Proof. reflexivity. Qed.

Lemma ToUint32_range (x : Z) : 0 <= ToUint32 x < two32.
Proof. unfold ToUint32, two32. apply Z.mod_pos_bound. lia. Qed.

Lemma ToInt32_range (x : Z) : - two31 <= ToInt32 x < two31.
Proof.
  unfold ToInt32. pose proof (ToUint32_range x) as H.
  unfold ToUint32 in H. cbv zeta.
  destruct (Z.leb_spec two31 (x mod two32)); unfold two31, two32 in *; lia.
Qed.

Lemma ToUint32_ToInt32 (x : Z) : ToUint32 (ToInt32 x) = ToUint32 x.
Proof.
  unfold ToInt32, ToUint32. cbv zeta.
  destruct (Z.leb_spec two31 (x mod two32)).
  - replace (x mod two32 - two32) with (x mod two32 + (-1) * two32) by lia.
    rewrite Z.mod_add by (unfold two32; lia).
    apply Z.mod_mod. unfold two32; lia.
  - apply Z.mod_mod. unfold two32; lia.
Qed.

Lemma ToInt32_ToUint32 (x : Z) : ToInt32 (ToUint32 x) = ToInt32 x.
Proof.
  unfold ToInt32, ToUint32.
  rewrite Z.mod_mod by (unfold two32; lia). reflexivity.
Qed.

Lemma ToUint32_small (u : Z) : 0 <= u < two32 -> ToUint32 u = u.
Proof. intros H. unfold ToUint32. apply Z.mod_small. exact H. Qed.

Lemma ToInt32_small (x : Z) : - two31 <= x < two31 -> ToInt32 x = x.
Proof.
  intros H. unfold ToInt32. cbv zeta.
  destruct (Z.le_gt_cases 0 x) as [Hx | Hx].
  - rewrite Z.mod_small by (unfold two31, two32 in *; lia).
    destruct (Z.leb_spec two31 x); lia.
  - replace x with (x + two32 + (-1) * two32) by lia.
    rewrite Z.mod_add by (unfold two32; lia).
    rewrite Z.mod_small by (unfold two31, two32 in *; lia).
    destruct (Z.leb_spec two31 (x + two32));
      unfold two31, two32 in *; lia.
Qed.

Lemma testbit_ToUint32 (x i : Z) :
  Z.testbit (ToUint32 x) i = (i <? 32) && Z.testbit x i.
Proof.
  unfold ToUint32. rewrite two32_pow.
  destruct (Z.ltb_spec i 32) as [Hi | Hi]; cbn [andb].
  - destruct (Z.lt_ge_cases i 0) as [Hn | Hn].
    + rewrite !Z.testbit_neg_r by exact Hn. reflexivity.
    + apply Z.mod_pow2_bits_low. lia.
  - apply Z.mod_pow2_bits_high. lia.
Qed.

Lemma ToUint32_lxor (a b : Z) :
  ToUint32 (Z.lxor a b) = Z.lxor (ToUint32 a) (ToUint32 b).
Proof.
  apply Z.bits_inj'. intros i _.
  rewrite Z.lxor_spec, !testbit_ToUint32, Z.lxor_spec.
  destruct (i <? 32); reflexivity.
Qed.

Lemma ToUint32_lor (a b : Z) :
  ToUint32 (Z.lor a b) = Z.lor (ToUint32 a) (ToUint32 b).
Proof.
  apply Z.bits_inj'. intros i _.
  rewrite Z.lor_spec, !testbit_ToUint32, Z.lor_spec.
  destruct (i <? 32); reflexivity.
Qed.

Lemma ToUint32_bxor (a b : Z) :
  ToUint32 (bxor a b) = Z.lxor (ToUint32 a) (ToUint32 b).
Proof.
  unfold bxor.
  rewrite ToUint32_ToInt32, ToUint32_lxor, !ToUint32_ToInt32.
  reflexivity.
Qed.

Lemma ToUint32_bor (a b : Z) :
  ToUint32 (bor a b) = Z.lor (ToUint32 a) (ToUint32 b).
Proof.
  unfold bor.
  rewrite ToUint32_ToInt32, ToUint32_lor, !ToUint32_ToInt32.
  reflexivity.
Qed.

Lemma ToUint32_imul (a b : Z) :
  ToUint32 (imul a b) = (ToUint32 a * ToUint32 b) mod two32.
Proof.
  unfold imul. rewrite ToUint32_ToInt32.
  unfold ToUint32 at 1. apply Z.mod_mod. unfold two32; lia.
Qed.

Lemma ToUint32_add (a b : Z) :
  ToUint32 (a + b) = (ToUint32 a + ToUint32 b) mod two32.
Proof. unfold ToUint32. apply Z.add_mod. unfold two32; lia. Qed.

Lemma shiftr_range (u k : Z) :
  0 <= u < two32 -> 0 <= k -> 0 <= Z.shiftr u k < two32.
Proof.
  intros Hu Hk. rewrite Z.shiftr_div_pow2 by exact Hk.
  assert (0 < 2 ^ k) by (apply Z.pow_pos_nonneg; lia).
  split.
  - apply Z.div_pos; lia.
  - apply Z.le_lt_trans with u; [ | lia ].
    apply Z.div_le_upper_bound; [ lia | nia ].
Qed.

Lemma ushr_unsigned (a k : Z) :
  0 <= k < 32 -> ushr a k = Z.shiftr (ToUint32 a) k.
Proof.
  intros Hk. unfold ushr.
  rewrite (ToUint32_small k) by (unfold two32; lia).
  replace 31 with (Z.ones 5) by reflexivity.
  rewrite Z.land_ones by lia.
  rewrite Z.mod_small by (change (2 ^ 5) with 32; lia).
  reflexivity.
Qed.

Lemma ToUint32_ushr (a k : Z) :
  0 <= k < 32 -> ToUint32 (ushr a k) = Z.shiftr (ToUint32 a) k.
Proof.
  intros Hk. rewrite ushr_unsigned by exact Hk.
  apply ToUint32_small, shiftr_range; [ apply ToUint32_range | lia ].
Qed.

Lemma bor_zero (x : Z) : bor x 0 = ToInt32 x.
Proof.
  unfold bor. rewrite (ToInt32_small 0) by (unfold two31; lia).
  rewrite Z.lor_0_r. apply ToInt32_small, ToInt32_range.
Qed.

Lemma lxor_range (a b : Z) :
  0 <= a < two32 -> 0 <= b < two32 -> 0 <= Z.lxor a b < two32.
Proof.
  intros Ha Hb.
  rewrite <- (ToUint32_small a Ha), <- (ToUint32_small b Hb).
  rewrite <- ToUint32_lxor. apply ToUint32_range.
Qed.

End Int32.

(* ================================================================ *)
(** ** Properties of the arithmetic on Numbers *)

Section Binary64.
Import JS.

(** *** Powers of two *)

Lemma pow2_pos (k : Z) : 0 < 2 ^ k.
Proof. apply Qpower_0_lt. reflexivity. Qed.

Lemma pow2_plus (a b : Z) : 2 ^ (a + b) == 2 ^ a * 2 ^ b.
Proof. apply Qpower_plus. discriminate. Qed.

Lemma pow2_le (a b : Z) : (a <= b)%Z -> 2 ^ a <= 2 ^ b.
Proof. intros H. apply Qpower_le_compat_l; [ exact H | discriminate ]. Qed.

Lemma pow2_lt_inv (a b : Z) : 2 ^ a < 2 ^ b -> (a < b)%Z.
Proof. intros H. apply (Qpower_lt_compat_l_inv 2); [ exact H | reflexivity ]. Qed.

Lemma pow2_Z (k : Z) : (0 <= k)%Z -> 2 ^ k == inject_Z (2 ^ k).
Proof. intros H. symmetry. apply (Zpower_Qpower 2 k H). Qed.

Lemma pow2_pred (a : Z) : 2 ^ (a - 1) == 2 ^ a / 2.
Proof.
  unfold Z.sub. rewrite pow2_plus. reflexivity.
Qed.

(** *** The exponent of a positive rational *)
Lemma log2_bounds (n : Z) :
  (0 < n)%Z -> inject_Z (2 ^ Z.log2 n) <= inject_Z n
               /\ inject_Z n < inject_Z (2 ^ (Z.log2 n + 1)).
Proof.
  intros H. destruct (Z.log2_spec n H) as [A B].
  rewrite <- Zle_Qle, <- Zlt_Qlt. replace (Z.log2 n + 1)%Z with (Z.succ (Z.log2 n)) by lia.
  split; assumption.
Qed.

Lemma exponent_spec (x : Q) :
  0 < x -> 2 ^ exponent x <= x /\ x < 2 ^ (exponent x + 1).
Proof.
  intros Hx. destruct x as [n d].
  assert (Hn : (0 < n)%Z).
  { unfold Qlt in Hx. cbn in Hx. lia. }
  destruct (log2_bounds n Hn) as [N1 N2].
  destruct (log2_bounds (Zpos d) eq_refl) as [D1 D2].
  pose proof (Z.log2_nonneg n) as Ln.
  pose proof (Z.log2_nonneg (Zpos d)) as Ld.
  rewrite <- pow2_Z in N1, N2, D1, D2 by lia.
  assert (Hxd : n # d == inject_Z n / inject_Z (Zpos d)).
  { apply Qmake_Qdiv. }
  assert (Dpos : 0 < inject_Z (Zpos d)) by reflexivity.
  set (ln := Z.log2 n) in *. set (ld := Z.log2 (Zpos d)) in *.
  assert (Lo : 2 ^ (ln - ld - 1) < n # d).
  { rewrite Hxd. apply Qlt_shift_div_l; [ exact Dpos | ].
    apply Qlt_le_trans with (2 ^ (ln - ld - 1) * 2 ^ (ld + 1)).
    - apply Qmult_lt_l; [ apply pow2_pos | exact D2 ].
    - rewrite <- pow2_plus. replace (ln - ld - 1 + (ld + 1))%Z with ln by lia.
      exact N1. }
  assert (Hi : n # d < 2 ^ (ln - ld + 1)).
  { rewrite Hxd. apply Qlt_shift_div_r; [ exact Dpos | ].
    apply Qlt_le_trans with (2 ^ (ln + 1)); [ exact N2 | ].
    replace (ln + 1)%Z with (ln - ld + 1 + ld)%Z by lia.
    rewrite pow2_plus. apply Qmult_le_l; [ apply pow2_pos | exact D1 ]. }
  unfold exponent. cbn [Qnum Qden]. fold ln ld.
  destruct (Qle_bool (2 ^ (ln - ld)) (n # d)) eqn:E.
  - apply Qle_bool_iff in E. split; assumption.
  - assert (E' : ~ 2 ^ (ln - ld) <= n # d).
    { intros C. apply Qle_bool_iff in C. congruence. }
    apply Qnot_le_lt in E'. split.
    + apply Qlt_le_weak. exact Lo.
    + replace (ln - ld - 1 + 1)%Z with (ln - ld)%Z by lia. exact E'.
Qed.

Lemma exponent_unique (x : Q) (e : Z) :
  2 ^ e <= x -> x < 2 ^ (e + 1) -> exponent x = e.
Proof.
  intros A B.
  assert (Hx : 0 < x) by (apply Qlt_le_trans with (2 ^ e); [ apply pow2_pos | exact A ]).
  destruct (exponent_spec x Hx) as [C D].
  assert (H1 : (exponent x < e + 1)%Z).
  { apply pow2_lt_inv. apply Qle_lt_trans with x; assumption. }
  assert (H2 : (e < exponent x + 1)%Z).
  { apply pow2_lt_inv. apply Qle_lt_trans with x; assumption. }
  lia.
Qed.

Lemma exponent_proper (x y : Q) : 0 < x -> x == y -> exponent x = exponent y.
Proof.
  intros Hx E. symmetry. destruct (exponent_spec x Hx) as [A B].
  apply exponent_unique; rewrite <- E; assumption.
Qed.

Lemma exponent_mono (x y : Q) :
  0 < x -> x <= y -> (exponent x <= exponent y)%Z.
Proof.
  intros Hx L.
  assert (Hy : 0 < y) by (apply Qlt_le_trans with x; assumption).
  destruct (exponent_spec x Hx) as [A _].
  destruct (exponent_spec y Hy) as [_ D].
  assert (H : (exponent x < exponent y + 1)%Z).
  { apply pow2_lt_inv. apply Qle_lt_trans with x; [ exact A | ].
    apply Qle_lt_trans with y; assumption. }
  lia.
Qed.

(** *** The nearest integer *)

Lemma inject_succ_le (a b : Z) : (a + 1 <= b)%Z -> inject_Z a + 1 <= inject_Z b.
Proof.
  intros H. rewrite Zle_Qle in H. rewrite inject_Z_plus in H. exact H.
Qed.

Lemma inject_lt_succ (a b : Z) : inject_Z a < inject_Z b + 1 -> (a <= b)%Z.
Proof.
  intros H. change 1 with (inject_Z 1) in H. rewrite <- inject_Z_plus in H.
  rewrite <- Zlt_Qlt in H. lia.
Qed.

Lemma nearest_unique (m : Q) (k1 k2 : Z) :
  nearest m k1 -> nearest m k2 -> k1 = k2.
Proof.
  intros [[A1 B1] E1] [[A2 B2] E2].
  destruct (Z.lt_trichotomy k1 k2) as [L | [L | L]]; [ | exact L | ].
  - exfalso. assert (H : inject_Z k1 + 1 <= inject_Z k2)
      by (apply inject_succ_le; lia).
    assert (F1 : inject_Z k1 - m == - (1 # 2)) by lra.
    assert (F2 : inject_Z k2 - m == 1 # 2) by lra.
    assert (Hk : (k2 <= k1 + 1)%Z) by (apply inject_lt_succ; rewrite inject_Z_plus; change (inject_Z 1) with 1; lra).
    assert (k2 = k1 + 1)%Z by lia. subst k2.
    specialize (E1 (or_intror F1)). specialize (E2 (or_introl F2)).
    rewrite Z.even_add in E2. rewrite E1 in E2. discriminate.
  - exfalso. assert (H : inject_Z k2 + 1 <= inject_Z k1)
      by (apply inject_succ_le; lia).
    assert (F1 : inject_Z k1 - m == 1 # 2) by lra.
    assert (F2 : inject_Z k2 - m == - (1 # 2)) by lra.
    assert (Hk : (k1 <= k2 + 1)%Z) by (apply inject_lt_succ; rewrite inject_Z_plus; change (inject_Z 1) with 1; lra).
    assert (k1 = k2 + 1)%Z by lia. subst k1.
    specialize (E1 (or_introl F1)). specialize (E2 (or_intror F2)).
    rewrite Z.even_add in E1. rewrite E2 in E1. discriminate.
Qed.

Lemma nearestEven_spec (m : Q) : nearest m (nearestEven m).
Proof.
  unfold nearestEven, nearest. cbv zeta.
  pose proof (Qfloor_le m) as F1. pose proof (Qlt_floor m) as F2.
  rewrite inject_Z_plus in F2. change (inject_Z 1) with 1 in F2.
  set (f := Qfloor m) in *.
  destruct (Qcompare_spec (m - inject_Z f) (1 # 2)) as [E | E | E].
  - destruct (Z.even f) eqn:Ev.
    + split; [ split; lra | intros _; exact Ev ].
    + rewrite inject_Z_plus. change (inject_Z 1) with 1.
      split; [ split; lra | ].
      intros _. rewrite Z.even_add, Ev. reflexivity.
  - split; [ split; lra | ]. intros [C | C]; lra.
  - rewrite inject_Z_plus. change (inject_Z 1) with 1.
    split; [ split; lra | ]. intros [C | C]; lra.
Qed.

Lemma nearestEven_unique (m : Q) (k : Z) : nearest m k -> nearestEven m = k.
Proof.
  intros H. apply (nearest_unique m); [ apply nearestEven_spec | exact H ].
Qed.

Lemma nearestEven_Z (k : Z) : nearestEven (inject_Z k) = k.
Proof.
  apply nearestEven_unique. unfold nearest.
  split; [ split; lra | ]. intros [C | C]; lra.
Qed.

Lemma nearestEven_proper (m m' : Q) :
  m == m' -> nearestEven m = nearestEven m'.
Proof.
  intros E. apply nearestEven_unique.
  destruct (nearestEven_spec m') as [[A B] C].
  unfold nearest. rewrite E. split; [ split; assumption | exact C ].
Qed.

Lemma nearestEven_opp (m : Q) : nearestEven (- m) = (- nearestEven m)%Z.
Proof.
  apply nearestEven_unique.
  destruct (nearestEven_spec m) as [[A B] C].
  unfold nearest. rewrite inject_Z_opp.
  split; [ split; lra | ].
  intros [D | D]; rewrite Z.even_opp; apply C; [ right | left ]; lra.
Qed.

Lemma nearestEven_mono (m m' : Q) :
  m <= m' -> (nearestEven m <= nearestEven m')%Z.
Proof.
  intros L.
  destruct (nearestEven_spec m) as [[A B] C].
  destruct (nearestEven_spec m') as [[A' B'] C'].
  destruct (Z.le_gt_cases (nearestEven m) (nearestEven m')) as [G | G];
    [ exact G | exfalso ].
  assert (H : inject_Z (nearestEven m') + 1 <= inject_Z (nearestEven m))
    by (apply inject_succ_le; lia).
  assert (F1 : inject_Z (nearestEven m) - m == 1 # 2) by lra.
  assert (F2 : inject_Z (nearestEven m') - m' == - (1 # 2)) by lra.
  assert (Hk : (nearestEven m <= nearestEven m' + 1)%Z).
  { apply inject_lt_succ. rewrite inject_Z_plus.
    change (inject_Z 1) with 1. lra. }
  specialize (C (or_introl F1)). specialize (C' (or_intror F2)).
  replace (nearestEven m) with (nearestEven m' + 1)%Z in C by lia.
  rewrite Z.even_add, C' in C. discriminate.
Qed.

Lemma nearestEven_error (m : Q) :
  Qabs (inject_Z (nearestEven m) - m) <= 1 # 2.
Proof.
  destruct (nearestEven_spec m) as [[A B] _].
  apply Qabs_Qle_condition. split; assumption.
Qed.

(** *** Rounding to the nearest Number *)

Lemma div_pow2 (x : Q) (q : Z) : x / 2 ^ q == x * 2 ^ (- q).
Proof. unfold Qdiv. rewrite Qpower_opp. reflexivity. Qed.

Lemma pow2_div (a q : Z) : 2 ^ a / 2 ^ q == 2 ^ (a - q).
Proof. rewrite div_pow2. unfold Z.sub. rewrite pow2_plus. reflexivity. Qed.

Lemma scaled_le (x y : Q) (q : Z) : x <= y -> x / 2 ^ q <= y / 2 ^ q.
Proof.
  intros H. rewrite !div_pow2. apply Qmult_le_compat_r; [ exact H | ].
  apply Qlt_le_weak, pow2_pos.
Qed.

Lemma unscaled_le (a b : Z) (q : Z) :
  (a <= b)%Z -> inject_Z a * 2 ^ q <= inject_Z b * 2 ^ q.
Proof.
  intros H. apply Qmult_le_compat_r.
  - rewrite <- Zle_Qle. exact H.
  - apply Qlt_le_weak, pow2_pos.
Qed.

Lemma ulpExponent_proper (x y : Q) :
  ~ x == 0 -> x == y -> ulpExponent x = ulpExponent y.
Proof.
  intros N E. unfold ulpExponent. f_equal. f_equal.
  apply exponent_proper.
  - revert N. apply Qabs_case; intros; lra.
  - rewrite E. reflexivity.
Qed.

Lemma round64_zero (x : Q) : x == 0 -> round64 x == 0.
Proof.
  intros E. unfold round64. cbv zeta.
  rewrite (nearestEven_proper (x / 2 ^ ulpExponent x) (inject_Z 0)).
  - rewrite nearestEven_Z. ring.
  - generalize (2 ^ ulpExponent x). intros p. rewrite E.
    unfold Qdiv. change (inject_Z 0) with 0. ring.
Qed.

#[global] Instance round64_wd : Proper (Qeq ==> Qeq) round64.
Proof.
  intros x y E. destruct (Qeq_dec x 0) as [Z0 | N].
  - rewrite (round64_zero x Z0). rewrite E in Z0.
    rewrite (round64_zero y Z0). reflexivity.
  - unfold round64. cbv zeta. rewrite <- (ulpExponent_proper x y N E).
    rewrite (nearestEven_proper (x / 2 ^ ulpExponent x)
               (y / 2 ^ ulpExponent x)); [ reflexivity | ].
    generalize (2 ^ ulpExponent x). intros p. rewrite E. reflexivity.
Qed.

Lemma ulpExponent_opp (x : Q) : ulpExponent (- x) = ulpExponent x.
Proof.
  destruct (Qeq_dec x 0) as [Z0 | N].
  - unfold ulpExponent. destruct x as [n d]. unfold Qeq in Z0. cbn in Z0.
    assert (n = 0%Z) by lia. subst n. reflexivity.
  - unfold ulpExponent. f_equal. f_equal. apply exponent_proper.
    + apply Qabs_case; intros; lra.
    + apply Qabs_opp.
Qed.

Lemma round64_opp (x : Q) : round64 (- x) == - round64 x.
Proof.
  unfold round64. cbv zeta. rewrite ulpExponent_opp.
  rewrite (nearestEven_proper (- x / 2 ^ ulpExponent x)
             (- (x / 2 ^ ulpExponent x))).
  - rewrite nearestEven_opp, inject_Z_opp. ring.
  - unfold Qdiv. ring.
Qed.

Lemma round64_nonneg (x : Q) : 0 <= x -> 0 <= round64 x.
Proof.
  intros H. unfold round64. cbv zeta.
  apply Qmult_le_0_compat; [ | apply Qlt_le_weak, pow2_pos ].
  change 0 with (inject_Z 0). rewrite <- Zle_Qle.
  rewrite <- (nearestEven_Z 0). apply nearestEven_mono.
  change (inject_Z 0) with 0.
  apply Qle_shift_div_l; [ apply pow2_pos | ].
  rewrite Qmult_0_l. exact H.
Qed.

Lemma ulpExponent_pos (x : Q) :
  0 < x -> ulpExponent x = Z.max (exponent x - 52) (-1074).
Proof.
  intros H. unfold ulpExponent. f_equal. f_equal.
  apply exponent_proper.
  - apply Qabs_case; intros; lra.
  - apply Qabs_pos. lra.
Qed.

Lemma round64_mono_pos (x y : Q) :
  0 < x -> x <= y -> round64 x <= round64 y.
Proof.
  intros Hx L.
  assert (Hy : 0 < y) by lra.
  pose proof (exponent_mono x y Hx L) as He.
  pose proof (ulpExponent_pos x Hx) as Qx.
  pose proof (ulpExponent_pos y Hy) as Qy.
  destruct (exponent_spec x Hx) as [_ Xhi].
  destruct (exponent_spec y Hy) as [Ylo _].
  unfold round64. cbv zeta.
  set (qx := ulpExponent x) in *. set (qy := ulpExponent y) in *.
  set (ex := exponent x) in *. set (ey := exponent y) in *.
  destruct (Z.eq_dec qx qy) as [E | N].
  - rewrite E. apply unscaled_le. apply nearestEven_mono.
    apply scaled_le. exact L.
  - assert (Eq : qy = (ey - 52)%Z) by lia.
    assert (Lt : (ex + 1 <= ey)%Z) by lia.
    apply Qle_trans with (2 ^ ey).
    + assert (P : (0 <= ey - qx)%Z) by lia.
      apply Qle_trans with (inject_Z (2 ^ (ey - qx)) * 2 ^ qx).
      * apply unscaled_le.
        rewrite <- (nearestEven_Z (2 ^ (ey - qx))).
        apply nearestEven_mono.
        rewrite <- pow2_Z by exact P. rewrite <- pow2_div.
        apply scaled_le. apply Qlt_le_weak.
        apply Qlt_le_trans with (2 ^ (ex + 1)); [ exact Xhi | ].
        apply pow2_le. exact Lt.
      * rewrite <- pow2_Z by exact P. rewrite <- pow2_plus.
        replace (ey - qx + qx)%Z with ey by lia. apply Qle_refl.
    + apply Qle_trans with (inject_Z (2 ^ 52) * 2 ^ qy).
      * rewrite <- pow2_Z by lia. rewrite <- pow2_plus.
        replace (52 + qy)%Z with ey by lia. apply Qle_refl.
      * apply unscaled_le.
        rewrite <- (nearestEven_Z (2 ^ 52)) at 1.
        apply nearestEven_mono.
        rewrite <- pow2_Z by lia.
        replace 52%Z with (ey - qy)%Z by lia.
        rewrite <- pow2_div. apply scaled_le. exact Ylo.
Qed.

Lemma round64_mono (x y : Q) : x <= y -> round64 x <= round64 y.
Proof.
  intros L.
  destruct (Qlt_le_dec 0 x) as [Hx | Hx].
  - apply round64_mono_pos; assumption.
  - destruct (Qlt_le_dec y 0) as [Hy | Hy].
    + assert (H : round64 (- y) <= round64 (- x)).
      { apply round64_mono_pos; lra. }
      rewrite !round64_opp in H. lra.
    + apply Qle_trans with 0; [ | apply round64_nonneg; exact Hy ].
      assert (H : 0 <= round64 (- x)) by (apply round64_nonneg; lra).
      rewrite round64_opp in H. lra.
Qed.

Lemma round64_abs (x : Q) : Qabs (round64 x) == round64 (Qabs x).
Proof.
  destruct (Qlt_le_dec x 0) as [H | H].
  - rewrite (Qabs_neg x) by lra.
    assert (N : 0 <= round64 (- x)) by (apply round64_nonneg; lra).
    rewrite round64_opp in *. apply Qabs_neg. lra.
  - rewrite (Qabs_pos x) by exact H. apply Qabs_pos.
    apply round64_nonneg. exact H.
Qed.

(** The rounding error: half a unit in the last place. *)
Lemma round64_error (x : Q) :
  Qabs (round64 x - x) <= 2 ^ (ulpExponent x - 1).
Proof.
  unfold round64. cbv zeta. set (q := ulpExponent x).
  pose proof (nearestEven_error (x / 2 ^ q)) as E.
  assert (P : 0 < 2 ^ q) by apply pow2_pos.
  assert (R : inject_Z (nearestEven (x / 2 ^ q)) * 2 ^ q - x
              == (inject_Z (nearestEven (x / 2 ^ q)) - x / 2 ^ q) * 2 ^ q).
  { field. lra. }
  rewrite R, Qabs_Qmult, (Qabs_pos (2 ^ q)) by lra.
  rewrite pow2_pred.
  apply Qle_trans with ((1 # 2) * 2 ^ q).
  - apply Qmult_le_compat_r; [ exact E | lra ].
  - unfold Qdiv. rewrite Qmult_comm. apply Qle_refl.
Qed.

(** Relative to the Number: 2^-53, or 2^-1075 for the smallest ones. *)
Lemma round64_close (x : Q) :
  Qabs (round64 x - x) <= Qmax (Qabs x * 2 ^ (-53)) (2 ^ (-1075)).
Proof.
  destruct (Qeq_dec x 0) as [Z0 | N].
  - rewrite (round64_zero x Z0), Z0.
    apply Qle_trans with (2 ^ (-1075)); [ | apply Q.le_max_r ].
    vm_compute. discriminate.
  - pose proof (round64_error x) as E.
    assert (Hx : 0 < Qabs x).
    { apply Qabs_case; intros; lra. }
    destruct (exponent_spec _ Hx) as [Lo _].
    unfold ulpExponent in E.
    destruct (Z.max_spec (exponent (Qabs x) - 52) (-1074)) as [[C M] | [C M]];
      rewrite M in E.
    + apply Qle_trans with (2 ^ (-1075)); [ exact E | apply Q.le_max_r ].
    + apply Qle_trans with (Qabs x * 2 ^ (-53)); [ | apply Q.le_max_l ].
      apply Qle_trans with (2 ^ (exponent (Qabs x) - 52 - 1)); [ exact E | ].
      replace (exponent (Qabs x) - 52 - 1)%Z
        with (exponent (Qabs x) + (-53))%Z by lia.
      rewrite pow2_plus. apply Qmult_le_compat_r; [ exact Lo | ].
      apply Qlt_le_weak, pow2_pos.
Qed.

#[global] Instance minus_wd : Proper (Qeq ==> Qeq ==> Qeq) minus.
Proof. intros a a' Ha b b' Hb. unfold minus. rewrite Ha, Hb. reflexivity. Qed.

#[global] Instance times_wd : Proper (Qeq ==> Qeq ==> Qeq) times.
Proof. intros a a' Ha b b' Hb. unfold times. rewrite Ha, Hb. reflexivity. Qed.

#[global] Instance over_wd : Proper (Qeq ==> Qeq ==> Qeq) over.
Proof. intros a a' Ha b b' Hb. unfold over. rewrite Ha, Hb. reflexivity. Qed.

Lemma round64_le (x c : Q) : round64 c == c -> x <= c -> round64 x <= c.
Proof. intros E H. rewrite <- E. apply round64_mono. exact H. Qed.

Lemma round64_ge (x c : Q) : round64 c == c -> c <= x -> c <= round64 x.
Proof. intros E H. rewrite <- E. apply round64_mono. exact H. Qed.

Lemma round64_within (x bound : Q) :
  Qabs x <= bound -> 1 <= bound ->
  - (bound * (1 # 9007199254740992)) <= round64 x - x
  /\ round64 x - x <= bound * (1 # 9007199254740992).
Proof.
  intros Hx Hb. apply Qabs_Qle_condition.
  apply Qle_trans with (Qmax (Qabs x * 2 ^ (-53)) (2 ^ (-1075)));
    [ apply round64_close | ].
  change (2 ^ (-53)) with (1 # 9007199254740992).
  apply Q.max_lub.
  - apply Qmult_le_compat_r; [ exact Hx | discriminate ].
  - apply Qle_trans with (1 * (1 # 9007199254740992)).
    + vm_compute. discriminate.
    + apply Qmult_le_compat_r; [ exact Hb | discriminate ].
Qed.


End Binary64.

(* ================================================================ *)
(** ** The random source *)

Section RandomSource.
Import JS Random.
Local Open Scope Z_scope.

Lemma advance_int32 (s : Z) : - two31 <= advance s < two31.
Proof. unfold advance. rewrite bor_zero. apply ToInt32_range. Qed.

Lemma advance_spec (s : Z) :
  ToUint32 (advance s) = specAdvance (ToUint32 s).
Proof.
  unfold advance, specAdvance.
  rewrite bor_zero, ToUint32_ToInt32, ToUint32_add.
  rewrite (ToUint32_small 1831565813) by (unfold two32; lia).
  reflexivity.
Qed.

Lemma output_spec (s1 : Z) : output s1 = specOutput (ToUint32 s1).
Proof.
  unfold output, specOutput. cbv zeta.
  rewrite ushr_unsigned by lia. rewrite Z.shiftr_0_r.
  rewrite ToUint32_bxor, (ToUint32_ushr _ 14) by lia.
  rewrite ToUint32_bxor, ToUint32_add, !ToUint32_imul.
  rewrite !ToUint32_bxor, !ToUint32_bor.
  rewrite (ToUint32_ushr _ 7), (ToUint32_ushr _ 15) by lia.
  rewrite ToUint32_imul, ToUint32_bxor, ToUint32_bor.
  rewrite (ToUint32_ushr _ 15) by lia.
  rewrite (ToUint32_small 1), (ToUint32_small 61)
    by (unfold two32; lia).
  rewrite (Z.lor_comm 1), (Z.lor_comm 61).
  reflexivity.
Qed.

Lemma specOutput_range (u : Z) : 0 <= specOutput u < two32.
Proof.
  unfold specOutput. cbv zeta.
  assert (Hm : forall x, 0 <= x mod two32 < two32)
    by (intros x; apply Z.mod_pos_bound; unfold two32; lia).
  apply lxor_range.
  - apply lxor_range; apply Hm.
  - apply shiftr_range; [ | lia ]. apply lxor_range; apply Hm.
Qed.

Lemma stateAfter_int32 (n : nat) (seed : Z) :
  - two31 <= stateAfter n seed < two31.
Proof.
  destruct n as [ | n ]; cbn [stateAfter].
  - unfold createRandom. rewrite bor_zero. apply ToInt32_range.
  - unfold next. cbn [snd]. apply advance_int32.
Qed.

Lemma stateAfter_closed (n : nat) (seed : Z) :
  ToUint32 (stateAfter n seed)
  = (seed + Z.of_nat n * 1831565813) mod two32.
Proof.
  induction n as [ | n IH ].
  - cbn [stateAfter]. unfold createRandom.
    rewrite bor_zero, ToUint32_ToInt32. unfold ToUint32.
    f_equal. lia.
  - cbn [stateAfter]. unfold next. cbn [snd].
    rewrite advance_spec, IH. unfold specAdvance.
    rewrite Z.add_mod_idemp_l by (unfold two32; lia).
    f_equal. lia.
Qed.

Lemma unit_interval (v : Z) :
  0 <= v < two32 ->
  (0 <= inject_Z v / inject_Z two32 < 1)%Q.
Proof.
  intros [H0 H1]. split.
  - apply Qle_shift_div_l; [ reflexivity | ].
    rewrite Qmult_0_l. change 0%Q with (inject_Z 0).
    rewrite <- Zle_Qle. exact H0.
  - apply Qlt_shift_div_r; [ reflexivity | ].
    rewrite Qmult_1_l. rewrite <- Zlt_Qlt. exact H1.
Qed.

Lemma next_unit_interval (s : Z) : (0 <= fst (next s) < 1)%Q.
Proof.
  unfold next. cbn [fst]. apply unit_interval.
  rewrite output_spec. apply specOutput_range.
Qed.

(** C2.  After any number of draws from any seed, the captured
    variable is an int32, and the next draw is the one of the fixed
    algorithm on the same 32 bits read as unsigned: the state advances
    by 0x6D2B79F5 modulo 2^32, the output is mixed with the xor, shift
    and wrap-around products of the specification and divided by
    2^32, and it lies in [0, 1). *)
Theorem random_next_follows_algorithm (seed : Z) (n : nat) :
  let s := stateAfter n seed in
  let u := ToUint32 s in
  - two31 <= s < two31
  /\ u = (seed + Z.of_nat n * 0x6D2B79F5) mod two32
  /\ snd (next s) = ToInt32 (snd (specNext u))
  /\ fst (next s) = fst (specNext u)
  /\ draw n seed = fst (specNext u)
  /\ (0 <= draw n seed < 1)%Q.
Proof.
  cbv zeta. repeat split.
  - apply stateAfter_int32.
  - apply stateAfter_int32.
  - apply stateAfter_closed.
  - unfold next, specNext. cbn [snd].
    rewrite <- advance_spec, ToInt32_ToUint32.
    symmetry. apply ToInt32_small, advance_int32.
  - unfold next, specNext. cbn [fst].
    rewrite output_spec, advance_spec. reflexivity.
  - unfold draw, next, specNext. cbn [fst].
    rewrite output_spec, advance_spec. reflexivity.
  - apply next_unit_interval.
  - apply next_unit_interval.
Qed.

End RandomSource.

(* ================================================================ *)
(** ** Metric calculator *)

Section Metrics.

(** Division by a constant, written as a product for [lra]. *)
Ltac by_constant :=
  unfold Qdiv in *;
  repeat match goal with
         | |- context [ / ?c ] =>
             let v := eval cbv in (/ c) in change (/ c) with v
         end.

(** The distance to 7.5 as the engine computes it is the Number nearest
    to the exact distance. *)
Lemma idealDiff_round (d : Q) :
  Qabs (JS.minus d 7.5) == JS.round64 (Qabs (d - 7.5)).
Proof. unfold JS.minus. apply round64_abs. Qed.

Lemma quality_range (d : Q) : 0 <= quality d <= 1.
Proof.
  unfold quality. cbv zeta. split; [ apply Q.le_max_l | ].
  apply Q.max_lub; [ discriminate | ].
  unfold JS.minus at 1. apply round64_le; [ reflexivity | ].
  assert (H : 0 <= JS.over (Qabs (JS.minus d 7.5)) 5).
  { unfold JS.over. apply round64_nonneg.
    apply Qle_shift_div_l; [ reflexivity | ].
    rewrite Qmult_0_l. apply Qabs_nonneg. }
  lra.
Qed.

Lemma quality_outside (d : Q) : 5 <= Qabs (d - 7.5) -> quality d == 0.
Proof.
  intros H. unfold quality. cbv zeta. apply Q.max_l.
  rewrite idealDiff_round.
  assert (A : 5 <= JS.round64 (Qabs (d - 7.5))).
  { apply round64_ge; [ reflexivity | exact H ]. }
  assert (B : 1 <= JS.over (JS.round64 (Qabs (d - 7.5))) 5).
  { unfold JS.over. apply round64_ge; [ reflexivity | ].
    apply Qle_shift_div_l; [ reflexivity | ]. lra. }
  unfold JS.minus. apply round64_le; [ reflexivity | ]. lra.
Qed.

Lemma quality_antitone (d1 d2 : Q) :
  Qabs (d1 - 7.5) <= Qabs (d2 - 7.5) -> quality d2 <= quality d1.
Proof.
  intros H. unfold quality. cbv zeta. rewrite !idealDiff_round.
  apply Q.max_le_compat_l.
  unfold JS.minus, JS.over. apply round64_mono.
  assert (A : JS.round64 (Qabs (d1 - 7.5))
              <= JS.round64 (Qabs (d2 - 7.5)))
    by (apply round64_mono; exact H).
  assert (B : JS.round64 (JS.round64 (Qabs (d1 - 7.5)) / 5)
              <= JS.round64 (JS.round64 (Qabs (d2 - 7.5)) / 5)).
  { apply round64_mono. apply Qmult_le_compat_r; [ exact A | discriminate ]. }
  lra.
Qed.

(** Three operations, each within 2^-53 of its exact result. *)
Lemma quality_close (d : Q) :
  Qabs (quality d - Qmax 0 (1 - Qabs (d - 7.5) / 5))
  <= 3 # 9007199254740992.
Proof.
  destruct (Qlt_le_dec (Qabs (d - 7.5)) 5) as [In | Out].
  - unfold quality. cbv zeta. rewrite idealDiff_round.
    set (A0 := Qabs (d - 7.5)) in *.
    assert (A0pos : 0 <= A0) by apply Qabs_nonneg.
    unfold JS.minus, JS.over.
    set (A := JS.round64 A0).
    assert (A1 : 0 <= A) by (apply round64_nonneg; exact A0pos).
    assert (A2 : A <= 5) by (apply round64_le; [ reflexivity | lra ]).
    destruct (round64_within A0 5) as [A3 A4];
      [ rewrite Qabs_pos; lra | discriminate | fold A in A3, A4 ].
    set (b' := JS.round64 (A / 5)).
    assert (B0 : 0 <= A / 5 <= 1).
    { unfold Qdiv. change (/ 5) with (1 # 5). lra. }
    assert (B1 : 0 <= b') by (apply round64_nonneg; lra).
    assert (B2 : b' <= 1) by (apply round64_le; [ reflexivity | lra ]).
    destruct (round64_within (A / 5) 1) as [B3 B4];
      [ rewrite Qabs_pos; lra | discriminate | fold b' in B3, B4 ].
    set (c' := JS.round64 (1 - b')).
    assert (C1 : 0 <= c') by (apply round64_nonneg; lra).
    destruct (round64_within (1 - b') 1) as [C3 C4];
      [ rewrite Qabs_pos; lra | discriminate | fold c' in C3, C4 ].
    rewrite (Q.max_r 0 c') by exact C1.
    rewrite (Q.max_r 0 (1 - A0 / 5))
      by (unfold Qdiv; change (/ 5) with (1 # 5); lra).
    apply Qabs_Qle_condition. unfold Qdiv in *.
    change (/ 5) with (1 # 5) in *. lra.
  - rewrite (quality_outside d Out).
    rewrite (Q.max_l 0 (1 - Qabs (d - 7.5) / 5)).
    + vm_compute. discriminate.
    + unfold Qdiv. change (/ 5) with (1 # 5). lra.
Qed.


(** Where the distances to 7.5 differ by 2^-48 or more, the farther
    duration has the strictly smaller quality. *)
Lemma quality_strict (d1 d2 : Q) :
  Qabs (d1 - 7.5) + (1 # 281474976710656) <= Qabs (d2 - 7.5) ->
  Qabs (d2 - 7.5) <= 5 ->
  quality d2 < quality d1.
Proof.
  intros Hlt Hle.
  pose proof (quality_close d1) as C1. pose proof (quality_close d2) as C2.
  pose proof (Qabs_nonneg (d1 - 7.5)) as P1.
  rewrite (Q.max_r 0 (1 - Qabs (d1 - 7.5) / 5)) in C1
    by (by_constant; lra).
  rewrite (Q.max_r 0 (1 - Qabs (d2 - 7.5) / 5)) in C2
    by (by_constant; lra).
  apply Qabs_Qle_condition in C1. apply Qabs_Qle_condition in C2.
  unfold Qdiv in *. change (/ 5) with (1 # 5) in *. lra.
Qed.

(** C4 (amended).  The quality metric is [max(0, 1 - |duration - 7.5| / 5)]
    evaluated in Number arithmetic: it is within 3 * 2^-53 of the exact
    value of that expression; it is 0 wherever the distance to 7.5 is 5 or
    more; it is 1 at 7.5 and 0 at 2.5 and at 12.5; it lies in [0, 1]; it
    never increases as the distance to 7.5 grows, and it strictly
    decreases, up to the clamp at distance 5, where the distances differ
    by 2^-48 or more.  Between distances that are closer together it need
    not decrease: see [quality_not_strict]. *)
Theorem quality_metric :
  (forall d,
      quality d
      = Qmax 0 (JS.minus 1 (JS.over (Qabs (JS.minus d 7.5)) 5)))
  /\ (forall d,
         Qabs (quality d - Qmax 0 (1 - Qabs (d - 7.5) / 5))
         <= 3 # 9007199254740992)
  /\ (forall d, 5 <= Qabs (d - 7.5) -> quality d == 0)
  /\ quality 7.5 == 1
  /\ quality 2.5 == 0
  /\ quality 12.5 == 0
  /\ (forall d, 0 <= quality d <= 1)
  /\ (forall d1 d2,
         Qabs (d1 - 7.5) <= Qabs (d2 - 7.5) -> quality d2 <= quality d1)
  /\ (forall d1 d2,
         Qabs (d1 - 7.5) + (1 # 281474976710656) <= Qabs (d2 - 7.5) ->
         Qabs (d2 - 7.5) <= 5 ->
         quality d2 < quality d1).
Proof.
  split; [ reflexivity | ].
  split; [ exact quality_close | ].
  split; [ exact quality_outside | ].
  split; [ vm_compute; reflexivity | ].
  split; [ vm_compute; reflexivity | ].
  split; [ vm_compute; reflexivity | ].
  split; [ exact quality_range | ].
  split; [ exact quality_antitone | exact quality_strict ].
Qed.



Lemma complexity_le_1 (d : Q) : complexity d <= 1.
Proof. unfold complexity. apply Q.le_min_l. Qed.

Lemma complexity_nonneg (d : Q) : 0 <= d -> 0 <= complexity d.
Proof.
  intros H. unfold complexity. apply Q.min_glb; [ lra | ].
  by_constant. lra.
Qed.

(** The one division of the complexity is rounded once: the Number that
    [generate] computes is the Number nearest to the exact value. *)
Lemma complexity_as_Number (d : Q) :
  Qmin 1 (JS.over d 10) == JS.round64 (complexity d).
Proof.
  unfold complexity, JS.over.
  destruct (Qlt_le_dec 1 (d / 10)) as [H | H].
  - rewrite (Q.min_l 1 (d / 10)) by lra.
    rewrite Q.min_l; [ reflexivity | ].
    apply round64_ge; [ reflexivity | lra ].
  - rewrite (Q.min_r 1 (d / 10)) by exact H.
    apply Q.min_r. apply round64_le; [ reflexivity | exact H ].
Qed.


End Metrics.

(* ================================================================ *)
(** ** Palette selector *)

Section PaletteSelector.
Import PALETTES.
Local Open Scope Z_scope.

Lemma paletteOfHour_cases (h : Z) :
  paletteOfHour (Some h) =
    if (20 <=? h) && (h <? 22) then serene
    else if (22 <=? h) || (h <? 0) then twilight
    else if (0 <=? h) && (h <? 2) then midnight
    else latenight.
Proof. reflexivity. Qed.

Lemma paletteOfHour_NaN : paletteOfHour JS.NaN = latenight.
Proof. reflexivity. Qed.

Ltac hour_cases h :=
  rewrite paletteOfHour_cases;
  destruct (Z.leb_spec 20 h), (Z.ltb_spec h 22), (Z.leb_spec 22 h),
    (Z.ltb_spec h 0), (Z.leb_spec 0 h), (Z.ltb_spec h 2);
  cbn [andb orb].

(** C6.  When the local hour of the bedtime is [h] with
    [0 <= h <= 23], the palette is serene exactly for [20 <= h < 22],
    twilight exactly for [22 <= h < 24], midnight exactly for
    [0 <= h < 2] and latenight exactly for [2 <= h < 20]; so hour 21
    gives serene, 23 twilight, 1 midnight and 10 latenight. *)
Theorem selectPalette_by_hour (bedtimeISO : string) (h : Z) :
  getHours bedtimeISO = Some h ->
  0 <= h < 24 ->
  (selectPalette bedtimeISO = serene <-> 20 <= h < 22)
  /\ (selectPalette bedtimeISO = twilight <-> 22 <= h < 24)
  /\ (selectPalette bedtimeISO = midnight <-> 0 <= h < 2)
  /\ (selectPalette bedtimeISO = latenight <-> 2 <= h < 20)
  /\ (h = 21 -> selectPalette bedtimeISO = serene)
  /\ (h = 23 -> selectPalette bedtimeISO = twilight)
  /\ (h = 1 -> selectPalette bedtimeISO = midnight)
  /\ (h = 10 -> selectPalette bedtimeISO = latenight).
Proof.
  intros Hh Hrange. unfold selectPalette. cbv zeta. rewrite Hh.
  clear Hh. hour_cases h; try lia;
    repeat split; intros; try lia; try discriminate; try reflexivity.
Qed.

(** C10.  For every bedtime string the result is one of the four
    palettes, and when the hour read from it is NaN every comparison
    fails and the result is latenight. *)
Theorem selectPalette_total (bedtimeISO : string) :
  In (selectPalette bedtimeISO) [serene; twilight; midnight; latenight]
  /\ (getHours bedtimeISO = JS.NaN ->
      selectPalette bedtimeISO = latenight).
Proof.
  unfold selectPalette. cbv zeta. split.
  - destruct (getHours bedtimeISO) as [ h | ].
    + hour_cases h; cbn [In]; auto 6.
    + right; right; right; left. reflexivity.
  - intros H. rewrite H. apply paletteOfHour_NaN.
Qed.

End PaletteSelector.

(* ================================================================ *)
(** ** Colour utilities *)

Section ColorUtilities.
Import JS.

Lemma parseInt16_empty : parseInt16 "" = NaN.
Proof. reflexivity. Qed.

(** A string whose first character is neither white space, a sign nor
    a hexadecimal digit does not parse. *)
Lemma parseInt16_no_digit (c : ascii) (s : string) :
  hexDigit c = None -> isWhite c = false ->
  c <> "-"%char -> c <> "+"%char ->
  parseInt16 (String c s) = NaN.
Proof.
  intros Hd Hw Hm Hp. unfold parseInt16. cbn [trimStart]. rewrite Hw.
  destruct c as [[] [] [] [] [] [] [] []];
    try discriminate Hd; try discriminate Hw;
    try (exfalso; apply Hm; reflexivity);
    try (exfalso; apply Hp; reflexivity);
    cbn [strip0x hexPrefix]; rewrite ?Hd; try reflexivity;
    destruct s as [ | c' s' ]; try reflexivity.
Qed.

Lemma lerpChannel_NaN_l (b : jsint) (t : Q) : lerpChannel NaN b t = NaN.
Proof. reflexivity. Qed.

Lemma lerpChannel_NaN_r (a : jsint) (t : Q) : lerpChannel a NaN t = NaN.
Proof. destruct a; reflexivity. Qed.

Lemma lerpChannel_NaN (a b : jsint) (t : Q) :
  a = NaN \/ b = NaN -> showInt (lerpChannel a b t) = "NaN"%string.
Proof.
  intros [H | H]; subst.
  - rewrite lerpChannel_NaN_l. reflexivity.
  - rewrite lerpChannel_NaN_r. reflexivity.
Qed.

(** C3 (amended).  For every string, well formed or not, [withAlpha]
    returns a string [rgba(r, g, b, alpha)] and [lerpColor] a string
    [rgb(r, g, b)]; a channel whose substring does not parse as
    hexadecimal is NaN and is printed as [NaN], not as zero.  A
    substring does not parse when it is empty or starts with a
    character that is neither white space, a sign nor a hexadecimal
    digit. *)
Theorem color_utilities_malformed
    (hex color1 color2 : string) (alpha t : Q) :
  (exists r g b : string,
      withAlpha hex alpha
      = "rgba(" +++ r +++ ", " +++ g +++ ", " +++ b +++ ", "
          +++ show alpha +++ ")"
      /\ (parseInt16 (slice hex 1 3) = NaN -> r = "NaN"%string)
      /\ (parseInt16 (slice hex 3 5) = NaN -> g = "NaN"%string)
      /\ (parseInt16 (slice hex 5 7) = NaN -> b = "NaN"%string))
  /\ (exists r g b : string,
      lerpColor color1 color2 t
      = "rgb(" +++ r +++ ", " +++ g +++ ", " +++ b +++ ")"
      /\ (parseInt16 (slice color1 1 3) = NaN
          \/ parseInt16 (slice color2 1 3) = NaN -> r = "NaN"%string)
      /\ (parseInt16 (slice color1 3 5) = NaN
          \/ parseInt16 (slice color2 3 5) = NaN -> g = "NaN"%string)
      /\ (parseInt16 (slice color1 5 7) = NaN
          \/ parseInt16 (slice color2 5 7) = NaN -> b = "NaN"%string))
  /\ parseInt16 "" = NaN
  /\ (forall (c : ascii) (s : string),
         hexDigit c = None -> isWhite c = false ->
         c <> "-"%char -> c <> "+"%char ->
         parseInt16 (String c s) = NaN).
Proof.
  split; [ | split; [ | split ] ].
  - unfold withAlpha, channels.
    eexists _, _, _. split; [ reflexivity | ].
    repeat split; intros H; rewrite H; reflexivity.
  - unfold lerpColor, channels. cbv zeta.
    eexists _, _, _. split; [ reflexivity | ].
    repeat split; apply lerpChannel_NaN.
  - exact parseInt16_empty.
  - exact parseInt16_no_digit.
Qed.

End ColorUtilities.

(* ================================================================ *)
(** ** Drawing code *)

Section DrawMonad.
Local Open Scope nat_scope.

Context {A B : Type}.

Lemma run_bind (m : Draw A) (f : A -> Draw B) (s : Z) :
  bind m f s =
    (fst (fst (f (fst (fst (m s))) (stateAfterDraw m s))),
     stateAfterDraw (f (fst (fst (m s)))) (stateAfterDraw m s),
     drawnBy m s ++ drawnBy (f (fst (fst (m s)))) (stateAfterDraw m s)).
Proof.
  unfold bind, stateAfterDraw, drawnBy.
  destruct (m s) as [[a s1] o1]. cbn [fst snd].
  destruct (f a s1) as [[b s2] o2]. reflexivity.
Qed.

Lemma drawnBy_bind (m : Draw A) (f : A -> Draw B) (s : Z) :
  drawnBy (bind m f) s
  = drawnBy m s ++ drawnBy (f (fst (fst (m s)))) (stateAfterDraw m s).
Proof. unfold drawnBy at 1. rewrite run_bind. reflexivity. Qed.

Lemma stateAfterDraw_bind (m : Draw A) (f : A -> Draw B) (s : Z) :
  stateAfterDraw (bind m f) s
  = stateAfterDraw (f (fst (fst (m s)))) (stateAfterDraw m s).
Proof. unfold stateAfterDraw at 1. rewrite run_bind. reflexivity. Qed.

Lemma bind_ext (m : Draw A) (f g : A -> Draw B) (s : Z) :
  (forall a s', f a s' = g a s') -> bind m f s = bind m g s.
Proof.
  intros H. unfold bind. destruct (m s) as [[a s1] o1].
  rewrite H. reflexivity.
Qed.

End DrawMonad.

Lemma bind_assoc {A B C} (m : Draw A) (f : A -> Draw B) (g : B -> Draw C)
    (s : Z) :
  bind (bind m f) g s = bind m (fun a => bind (f a) g) s.
Proof.
  unfold bind. destruct (m s) as [[a s1] o1].
  destruct (f a s1) as [[b s2] o2].
  destruct (g b s2) as [[c s3] o3].
  rewrite app_assoc. reflexivity.
Qed.

Section Counting.
Local Open Scope nat_scope.

Variable p : DrawOp -> bool.

Lemma countOps_app (a b : list DrawOp) :
  countOps p (a ++ b) = countOps p a + countOps p b.
Proof. unfold countOps. rewrite filter_app, length_app. reflexivity. Qed.

Lemma counts_ret {A} (a : A) : counts p (ret a) 0.
Proof. intros s. reflexivity. Qed.

Lemma counts_rand : counts p rand 0.
Proof. intros s. reflexivity. Qed.

Lemma counts_ctx_no (op : DrawOp) : p op = false -> counts p (ctx op) 0.
Proof.
  intros H s. unfold countOps, drawnBy, ctx. cbn [snd filter].
  rewrite H. reflexivity.
Qed.

Lemma counts_ctx_yes (op : DrawOp) : p op = true -> counts p (ctx op) 1.
Proof.
  intros H s. unfold countOps, drawnBy, ctx. cbn [snd filter].
  rewrite H. reflexivity.
Qed.

Lemma counts_bind {A B} (m : Draw A) (f : A -> Draw B) (c1 c2 : nat) :
  counts p m c1 -> (forall a, counts p (f a) c2) ->
  counts p (bind m f) (c1 + c2).
Proof.
  intros Hm Hf s. rewrite drawnBy_bind, countOps_app.
  rewrite Hm, Hf. reflexivity.
Qed.

Lemma counts_forFrom (n : nat) (i : Z) (body : Z -> Draw unit)
    (c : nat) :
  (forall j, counts p (body j) c) -> counts p (forFrom n i body) (n * c).
Proof.
  intros Hb. revert i. induction n as [ | n IH ]; intros i.
  - apply counts_ret.
  - cbn [forFrom Nat.mul]. apply counts_bind; [ apply Hb | ].
    intros _. apply IH.
Qed.

Lemma counts_forLoop (n : Z) (body : Z -> Draw unit) (c : nat) :
  (forall j, counts p (body j) c) ->
  counts p (forLoop n body) (Z.to_nat n * c).
Proof. intros Hb. apply counts_forFrom, Hb. Qed.

Lemma counts_if {A} (b : bool) (m1 m2 : Draw A) (c1 c2 : nat) :
  counts p m1 c1 -> counts p m2 c2 ->
  counts p (if b then m1 else m2) (if b then c1 else c2).
Proof. intros H1 H2. destruct b; assumption. Qed.

Lemma counts_eq {A} (m : Draw A) (c c' : nat) :
  counts p m c' -> c' = c -> counts p m c.
Proof. intros H E. subst. exact H. Qed.

End Counting.

Lemma counts_if_same {A} (p : DrawOp -> bool) (b : bool)
    (m1 m2 : Draw A) (c : nat) :
  counts p m1 c -> counts p m2 c -> counts p (if b then m1 else m2) c.
Proof. intros H1 H2. destruct b; assumption. Qed.

Ltac count_ops :=
  cbv zeta;
  lazymatch goal with
  | |- counts _ (bind _ _) _ =>
      eapply counts_bind; [ count_ops | intro; count_ops ]
  | |- counts _ rand _ => apply counts_rand
  | |- counts _ (ret _) _ => apply counts_ret
  | |- counts _ (ctx _) _ =>
      first [ apply counts_ctx_no; reflexivity
            | apply counts_ctx_yes; reflexivity ]
  | |- counts _ (forLoop _ _) _ =>
      eapply counts_forLoop; intro; count_ops
  | |- counts _ (forEverySecond _ _) _ =>
      unfold forEverySecond; count_ops
  | |- counts _ (if _ then _ else _) _ =>
      first [ eapply counts_if; [ count_ops | count_ops ]
            | eapply counts_if_same;
              (eapply counts_eq; [ count_ops | reflexivity ]) ]
  end.

(** *** Painted shapes *)

Section Painting.
Local Open Scope nat_scope.

Variable p : Shape -> bool.

Lemma paint_app (c : Context) (a b : list DrawOp) :
  paint c (a ++ b) = paint c a ++ paint (contextAfter c a) b.
Proof.
  revert c. induction a as [ | op a IH ]; intros c; cbn [app paint contextAfter].
  - reflexivity.
  - rewrite IH, app_assoc. reflexivity.
Qed.

Lemma countShapes_app (c : Context) (a b : list DrawOp) :
  countShapes p c (a ++ b)
  = countShapes p c a + countShapes p (contextAfter c a) b.
Proof.
  unfold countShapes. rewrite paint_app, filter_app, length_app. reflexivity.
Qed.

Lemma countShapes_cons (c : Context) (op : DrawOp) (rest : list DrawOp) :
  countShapes p c (op :: rest)
  = List.length (List.filter p (snd (step c op)))
    + countShapes p (fst (step c op)) rest.
Proof.
  unfold countShapes. cbn [paint]. rewrite filter_app, length_app. reflexivity.
Qed.

Lemma quiet_paints_nothing (c : Context) (op : DrawOp) :
  quiet op = true -> snd (step c op) = [].
Proof.
  destruct op; cbn [quiet step snd]; intros H; try reflexivity;
    try discriminate.
  destruct (saved c); reflexivity.
Qed.

Lemma paintsFrom_ret {A} (c : Context) (a : A) : paintsFrom p c (ret a) 0 0.
Proof. intros s. cbn. lia. Qed.

Lemma paintsFrom_rand (c : Context) : paintsFrom p c rand 0 0.
Proof.
  intros s. unfold drawnBy, rand. destruct (Random.next s). cbn. lia.
Qed.

Lemma drawnBy_rand_bind {A} (k : Q -> Draw A) (s : Z) :
  drawnBy (bind rand k) s
  = drawnBy (k (fst (Random.next s))) (snd (Random.next s)).
Proof.
  unfold drawnBy, bind, rand. destruct (Random.next s) as [v s1].
  cbn [fst snd]. destruct (k v s1) as [[b s2] o2]. reflexivity.
Qed.

Lemma drawnBy_ctx_bind {A} (op : DrawOp) (k : unit -> Draw A) (s : Z) :
  drawnBy (bind (ctx op) k) s = op :: drawnBy (k tt) s.
Proof.
  unfold drawnBy, bind, ctx. destruct (k tt s) as [[b s2] o2]. reflexivity.
Qed.

Lemma paintsFrom_rand_bind {A} (c : Context) (k : Q -> Draw A)
    (lo hi : nat) :
  (forall r, paintsFrom p c (k r) lo hi) ->
  paintsFrom p c (bind rand k) lo hi.
Proof. intros H s. rewrite drawnBy_rand_bind. apply H. Qed.

Lemma paintsFrom_ctx_bind {A} (c c' : Context) (op : DrawOp)
    (shapes : list Shape) (k : unit -> Draw A) (n lo hi : nat) :
  step c op = (c', shapes) ->
  List.length (List.filter p shapes) = n ->
  paintsFrom p c' (k tt) lo hi ->
  paintsFrom p c (bind (ctx op) k) (n + lo) (n + hi).
Proof.
  intros E N H s. rewrite drawnBy_ctx_bind, countShapes_cons, E.
  cbn [fst snd]. rewrite N. specialize (H s). lia.
Qed.

Lemma paintsFrom_ctx (c c' : Context) (op : DrawOp)
    (shapes : list Shape) (n : nat) :
  step c op = (c', shapes) ->
  List.length (List.filter p shapes) = n ->
  paintsFrom p c (ctx op) n n.
Proof.
  intros E N s. unfold drawnBy, ctx. cbn [snd].
  rewrite countShapes_cons, E. cbn [fst snd]. rewrite N.
  unfold countShapes. cbn. lia.
Qed.

Lemma paintsFrom_quiet (c : Context) (op : DrawOp) :
  quiet op = true -> paintsFrom p c (ctx op) 0 0.
Proof.
  intros Q s. unfold drawnBy, ctx. cbn [snd].
  rewrite countShapes_cons, (quiet_paints_nothing c op Q).
  unfold countShapes. cbn. lia.
Qed.

Lemma paintsFrom_quiet_bind {A} (c : Context) (op : DrawOp)
    (k : unit -> Draw A) (lo hi : nat) :
  quiet op = true ->
  paints p (k tt) lo hi ->
  paintsFrom p c (bind (ctx op) k) lo hi.
Proof.
  intros Q H s. rewrite drawnBy_ctx_bind, countShapes_cons.
  rewrite (quiet_paints_nothing c op Q). cbn [List.filter List.length].
  apply H.
Qed.

Lemma paintsFrom_bind {A B} (c : Context) (m : Draw A) (k : A -> Draw B)
    (lo1 hi1 lo2 hi2 : nat) :
  paints p m lo1 hi1 -> (forall a, paints p (k a) lo2 hi2) ->
  paintsFrom p c (bind m k) (lo1 + lo2) (hi1 + hi2).
Proof.
  intros Hm Hk s. rewrite drawnBy_bind, countShapes_app.
  specialize (Hm c s).
  specialize (Hk (fst (fst (m s))) (contextAfter c (drawnBy m s))
                (stateAfterDraw m s)).
  lia.
Qed.

Lemma paints_forFrom (n : nat) (i : Z) (body : Z -> Draw unit)
    (lo hi : nat) :
  (forall j, paints p (body j) lo hi) ->
  paints p (forFrom n i body) (n * lo) (n * hi).
Proof.
  intros Hb. revert i. induction n as [ | n IH ]; intros i c.
  - apply paintsFrom_ret.
  - cbn [forFrom Nat.mul]. apply paintsFrom_bind; [ apply Hb | ].
    intros _. apply IH.
Qed.

Lemma paintsFrom_forLoop (c : Context) (n : Z) (body : Z -> Draw unit)
    (lo hi : nat) :
  (forall j, paints p (body j) lo hi) ->
  paintsFrom p c (forLoop n body) (Z.to_nat n * lo) (Z.to_nat n * hi).
Proof. intros Hb. apply paints_forFrom, Hb. Qed.

Lemma paintsFrom_if {A} (c : Context) (b : bool) (m1 m2 : Draw A)
    (lo1 hi1 lo2 hi2 : nat) :
  paintsFrom p c m1 lo1 hi1 -> paintsFrom p c m2 lo2 hi2 ->
  paintsFrom p c (if b then m1 else m2)
    (if b then lo1 else lo2) (if b then hi1 else hi2).
Proof. intros H1 H2. destruct b; assumption. Qed.

Lemma paintsFrom_either {A} (c : Context) (b : bool) (m1 m2 : Draw A)
    (lo1 hi1 lo2 hi2 : nat) :
  paintsFrom p c m1 lo1 hi1 -> paintsFrom p c m2 lo2 hi2 ->
  paintsFrom p c (if b then m1 else m2)
    (Nat.min lo1 lo2) (Nat.max hi1 hi2).
Proof.
  intros H1 H2 s. destruct b; [ specialize (H1 s) | specialize (H2 s) ]; lia.
Qed.

Lemma paints_weaken {A} (m : Draw A) (lo hi lo' hi' : nat) :
  paints p m lo hi -> lo' <= lo -> hi <= hi' -> paints p m lo' hi'.
Proof. intros H L1 L2 c s. specialize (H c s). lia. Qed.

Lemma paints_exactly {A} (m : Draw A) (n : nat) (c : Context) (s : Z) :
  paints p m n n -> countShapes p c (drawnBy m s) = n.
Proof. intros H. specialize (H c s). lia. Qed.

End Painting.

(** *** Styles that are not the gold glow, colours that are not [hsla] *)

Section NotGold.
Variables a b : string.

Lemma background_not_gold :
  stopsEqb [(0, a); (0.5, b); (1, "#050510"%string)] glowStops = false.
Proof.
  cbn [stopsEqb glowStops]. unfold stopEqb. cbn [fst snd].
  destruct (String.eqb a _), (String.eqb b _); reflexivity.
Qed.

Lemma overlay_not_gold :
  stopsEqb [(0, a); (1, "transparent"%string)] glowStops = false.
Proof.
  cbn [stopsEqb glowStops]. unfold stopEqb. cbn [fst snd].
  destruct (String.eqb a _); reflexivity.
Qed.

Lemma orb_not_gold :
  stopsEqb [(0, a); (0.6, b); (1, "transparent"%string)] glowStops = false.
Proof.
  cbn [stopsEqb glowStops]. unfold stopEqb. cbn [fst snd].
  destruct (String.eqb a _), (String.eqb b _); reflexivity.
Qed.

End NotGold.

Lemma glow_is_gold : stopsEqb glowStops glowStops = true.
Proof. reflexivity. Qed.

Lemma hsla_prefix (rest : string) :
  String.prefix "hsla(" ("hsla(" +++ rest) = true.
Proof. destruct rest; reflexivity. Qed.

Lemma rgba_not_hsla (rest : string) :
  String.prefix "hsla(" ("rgba(" +++ rest) = false.
Proof. reflexivity. Qed.

Lemma withAlpha_not_hsla (hex : string) (alpha : Q) :
  String.prefix "hsla(" (withAlpha hex alpha) = false.
Proof.
  unfold withAlpha. destruct (channels hex) as [[r g] b0]. reflexivity.
Qed.

Ltac count_shape :=
  cbn [List.filter List.length isGoldGlow isRainbowSegment isDiamond isOrb
       isDisc isRing isSpoke isSparkle isArcPath isRectPath andb app];
  rewrite ?glow_is_gold, ?orb_not_gold, ?background_not_gold,
    ?overlay_not_gold, ?hsla_prefix, ?rgba_not_hsla, ?withAlpha_not_hsla;
  repeat match goal with
         | |- context [ String.prefix ?a ?b ] =>
             let v := eval vm_compute in (String.prefix a b) in
             match v with
             | true => change (String.prefix a b) with true
             | false => change (String.prefix a b) with false
             end
         end;
  cbn [List.filter List.length andb];
  reflexivity.

Ltac run_step :=
  cbn [step path pen saved fillStyle strokeStyle lineWidth app];
  reflexivity.

Ltac paint_step :=
  lazymatch goal with
  | |- paints _ _ _ _ => intro
  | |- paintsFrom _ _ (bind rand _) _ _ =>
      apply paintsFrom_rand_bind; intro
  | |- paintsFrom _ _ (bind (ctx _) _) _ _ =>
      first [ eapply paintsFrom_ctx_bind; [ run_step | count_shape | ]
            | eapply paintsFrom_quiet_bind; [ reflexivity | ] ]
  | |- paintsFrom _ _ (ctx _) _ _ =>
      first [ eapply paintsFrom_ctx; [ run_step | count_shape ]
            | apply paintsFrom_quiet; reflexivity ]
  | |- paintsFrom _ _ (ret _) _ _ => apply paintsFrom_ret
  | |- paintsFrom _ _ rand _ _ => apply paintsFrom_rand
  | |- paintsFrom _ _ (forLoop _ _) _ _ =>
      eapply paintsFrom_forLoop; intro
  | |- paintsFrom _ _ (forEverySecond _ _) _ _ => unfold forEverySecond
  | |- paintsFrom _ _ (if (_ <=? _)%Z then _ else _) _ _ =>
      eapply paintsFrom_if
  | |- paintsFrom _ _ (if _ then _ else _) _ _ =>
      eapply paintsFrom_either
  | |- paintsFrom _ _ (bind _ _) _ _ =>
      eapply paintsFrom_bind; [ | intro ]
  end.

Ltac paint_ops := cbv zeta; repeat (paint_step; cbv zeta).

Ltac paint_exactly :=
  eapply paints_weaken; [ paint_ops | cbn [Nat.add]; lia | cbn [Nat.add]; lia ].

Section Layers.
Variables w h : Q.
Variable palette : Palette.
Local Open Scope nat_scope.

Lemma drawBackground_plain :
  paints isGoldGlow (drawBackground w h palette) 0 0
  /\ paints isRainbowSegment (drawBackground w h palette) 0 0
  /\ paints isDiamond (drawBackground w h palette) 0 0.
Proof. unfold drawBackground. split; [ | split ]; paint_exactly. Qed.

Lemma drawAurora_plain (complexity quality : Q) :
  paints isGoldGlow (drawAurora w h palette complexity quality) 0 0
  /\ paints isRainbowSegment
       (drawAurora w h palette complexity quality) 0 0
  /\ paints isDiamond (drawAurora w h palette complexity quality) 0 0.
Proof. unfold drawAurora. split; [ | split ]; paint_exactly. Qed.

Lemma drawOrbs_plain (duration quality : Q) :
  paints isGoldGlow (drawOrbs w h palette duration quality) 0 0
  /\ paints isRainbowSegment (drawOrbs w h palette duration quality) 0 0
  /\ paints isDiamond (drawOrbs w h palette duration quality) 0 0.
Proof. unfold drawOrbs. split; [ | split ]; paint_exactly. Qed.

Lemma drawGeometry_plain (quality : Q) :
  paints isGoldGlow (drawGeometry w h palette quality) 0 0
  /\ paints isRainbowSegment (drawGeometry w h palette quality) 0 0
  /\ paints isDiamond (drawGeometry w h palette quality) 0 0.
Proof. unfold drawGeometry. split; [ | split ]; paint_exactly. Qed.

Lemma drawStars_plain (complexity : Q) :
  paints isGoldGlow (drawStars w h complexity) 0 0
  /\ paints isRainbowSegment (drawStars w h complexity) 0 0
  /\ paints isDiamond (drawStars w h complexity) 0 0.
Proof. unfold drawStars. split; [ | split ]; paint_exactly. Qed.

Lemma drawVignette_plain :
  paints isGoldGlow (drawVignette w h) 0 0
  /\ paints isRainbowSegment (drawVignette w h) 0 0
  /\ paints isDiamond (drawVignette w h) 0 0.
Proof. unfold drawVignette. split; [ | split ]; paint_exactly. Qed.

Lemma drawStreakEffect_paints (streak : Z) :
  let glows := if (3 <=? streak)%Z then Z.to_nat (Z.min streak 20) else 0 in
  let segments := if (7 <=? streak)%Z then 36 else 0 in
  let diamonds := if (14 <=? streak)%Z then 1 else 0 in
  paints isGoldGlow (drawStreakEffect w h palette streak) glows glows
  /\ paints isRainbowSegment (drawStreakEffect w h palette streak)
       segments segments
  /\ paints isDiamond (drawStreakEffect w h palette streak)
       diamonds diamonds.
Proof.
  cbv zeta. unfold drawStreakEffect.
  split; [ | split ];
    (eapply paints_weaken;
     [ paint_ops
     | destruct (3 <=? streak)%Z, (7 <=? streak)%Z, (14 <=? streak)%Z;
       cbn [Nat.add]; try change (Z.to_nat 36) with 36; lia .. ]).
Qed.

Lemma drawOrbs_orbs (duration quality : Q) :
  paints isOrb (drawOrbs w h palette duration quality)
    (Z.to_nat (5 + floor (JS.times duration 2.5)))
    (Z.to_nat (5 + floor (JS.times duration 2.5))).
Proof. unfold drawOrbs. paint_exactly. Qed.

Lemma drawGeometry_shapes (quality : Q) :
  let spokes := Z.to_nat (4 + floor (JS.times quality 8)) in
  paints isSpoke (drawGeometry w h palette quality) spokes spokes
  /\ paints isDisc (drawGeometry w h palette quality) spokes spokes
  /\ paints isRing (drawGeometry w h palette quality) 3 3.
Proof.
  cbv zeta. unfold drawGeometry.
  split; [ | split ];
    (eapply paints_weaken;
     [ paint_ops
     | cbn [Nat.add]; try change (Z.to_nat 3) with 3; lia .. ]).
Qed.

Lemma drawStars_shapes (complexity : Q) :
  let stars := Z.to_nat (30 + floor (JS.times complexity 120)) in
  paints isDisc (drawStars w h complexity) stars stars
  /\ paints isSparkle (drawStars w h complexity) 0 stars.
Proof.
  cbv zeta. unfold drawStars.
  split;
    (eapply paints_weaken;
     [ paint_ops | cbn [Nat.add Nat.min Nat.max]; lia .. ]).
Qed.

End Layers.

(** *** The whole pipeline *)

Ltac paint_layers :=
  cbv zeta;
  repeat
    (lazymatch goal with
     | |- paints _ _ _ _ => intro
     | |- paintsFrom _ _ (bind _ _) _ _ =>
         eapply paintsFrom_bind; [ | intro ]
     | |- paintsFrom _ _ (if _ then _ else _) _ _ => eapply paintsFrom_if
     | |- paintsFrom _ _ (ret _) _ _ => apply paintsFrom_ret
     | |- paintsFrom _ ?c (drawBackground _ _ _) _ _ =>
         revert c; apply drawBackground_plain
     | |- paintsFrom _ ?c (drawAurora _ _ _ _ _) _ _ =>
         revert c; apply drawAurora_plain
     | |- paintsFrom _ ?c (drawOrbs _ _ _ _ _) _ _ =>
         revert c; apply drawOrbs_plain
     | |- paintsFrom _ ?c (drawGeometry _ _ _ _) _ _ =>
         revert c; apply drawGeometry_plain
     | |- paintsFrom _ ?c (drawStars _ _ _) _ _ =>
         revert c; apply drawStars_plain
     | |- paintsFrom _ ?c (drawVignette _ _) _ _ =>
         revert c; apply drawVignette_plain
     | |- paintsFrom _ ?c (drawStreakEffect _ _ _ _) _ _ =>
         revert c; apply drawStreakEffect_paints
     end; cbv zeta).

Section Streak.
Variables w h : Q.
Local Open Scope nat_scope.

Lemma pipeline_paints (record : SleepRecord) (streak : Z) :
  let glows := if (3 <=? streak)%Z then Z.to_nat (Z.min streak 20) else 0 in
  let segments := if (7 <=? streak)%Z then 36 else 0 in
  let diamonds := if (14 <=? streak)%Z then 1 else 0 in
  paints isGoldGlow (pipeline w h record streak) glows glows
  /\ paints isRainbowSegment (pipeline w h record streak)
       segments segments
  /\ paints isDiamond (pipeline w h record streak) diamonds diamonds.
Proof.
  cbv zeta. unfold pipeline.
  split; [ | split ];
    (eapply paints_weaken;
     [ paint_layers
     | destruct (Z.leb_spec 3 streak), (Z.leb_spec 7 streak),
         (Z.leb_spec 14 streak); cbn [Nat.add]; lia .. ]).
Qed.

End Streak.

(** C7.  What [generate] paints on the surface, from any state of the
    context: with streak 2 no gold glow is painted; with streak 3 there
    are gold glows (three), no rainbow segment and no diamond; with
    streak 7 there are gold glows (seven) and the 36 rainbow segments but
    no diamond; with streak 14 there are gold glows (fourteen), the 36
    rainbow segments and the diamond.  A glow is a circle filled with the
    gold gradient, a segment an arc stroked with an [hsla] colour, the
    diamond a rectangle filled with a radial gradient. *)
Theorem streak_gating (w h : Z) (record : SleepRecord) (c : Context) :
  let glows k :=
    countShapes isGoldGlow c
      (generated w h record (mkOptions (Some k))) in
  let segments k :=
    countShapes isRainbowSegment c
      (generated w h record (mkOptions (Some k))) in
  let diamonds k :=
    countShapes isDiamond c (generated w h record (mkOptions (Some k))) in
  glows 2%Z = 0%nat
  /\ (glows 3%Z = 3%nat /\ segments 3%Z = 0%nat /\ diamonds 3%Z = 0%nat)
  /\ (glows 7%Z = 7%nat /\ segments 7%Z = 36%nat /\ diamonds 7%Z = 0%nat)
  /\ (glows 14%Z = 14%nat /\ segments 14%Z = 36%nat
      /\ diamonds 14%Z = 1%nat).
Proof.
  cbv zeta. unfold generated. cbn [streakOf streak].
  repeat split;
    match goal with
    | |- countShapes _ _ (drawnBy (pipeline ?W ?H _ ?k) ?s) = _ =>
        destruct (pipeline_paints W H record k) as (Hg & Hr & Hd);
        first [ apply (paints_exactly _ _ _ c s Hg)
              | apply (paints_exactly _ _ _ c s Hr)
              | apply (paints_exactly _ _ _ c s Hd) ]
    end.
Qed.

(** *** Sequencing *)

Lemma pipeline_split (w h : Q) (record : SleepRecord) (streak s : Z) :
  pipeline w h record streak s
  = bind (layers1to5 w h record)
      (fun _ => layers6to7 w h record streak) s.
Proof.
  unfold pipeline, layers1to5, layers6to7. cbv zeta. revert s.
  do 4 (intros s; rewrite bind_assoc; apply bind_ext; clear s; intros _).
  reflexivity.
Qed.

(** C8.  For any two streak options and otherwise identical inputs, the
    calls made by [generate] are the calls of layers 1 to 5, which do
    not depend on the streak, followed by the calls of the streak
    effects and the vignette; and the streak effects start drawing from
    the random source in the state in which layer 5 left it, the same
    for both. *)
Theorem streak_only_affects_layer6 (w h : Z) (record : SleepRecord)
    (options1 options2 : RenderOptions) :
  let s0 := Random.createRandom (artSeed record) in
  let before := layers1to5 (inject_Z w) (inject_Z h) record in
  let after options :=
    layers6to7 (inject_Z w) (inject_Z h) record (streakOf options) in
  generated w h record options1
  = drawnBy before s0 ++ drawnBy (after options1) (stateAfterDraw before s0)
  /\ generated w h record options2
     = drawnBy before s0
         ++ drawnBy (after options2) (stateAfterDraw before s0).
Proof.
  cbv zeta. unfold generated, drawnBy at 1 4.
  rewrite !pipeline_split, !run_bind. split; reflexivity.
Qed.

(** *** Orbs *)

Lemma floor_nonneg (x : Q) : 0 <= x -> (0 <= floor x)%Z.
Proof.
  intros H. unfold floor. change 0%Z with (Qfloor 0).
  apply Qfloor_resp_le, H.
Qed.

(** C9 (amended).  From any state of the context, the orb layer paints
    one orb (a circle filled with a radial gradient) per round of its
    loop: [5 + floor(duration * 2.5)] orbs, the product being the Number
    product, when that number is not negative, which is the case for
    every non-negative duration, and none otherwise; for a duration of 8
    it paints 25. *)
Theorem orb_count (w h : Q) (palette : Palette) (duration quality : Q)
    (c : Context) (s : Z) :
  let orbs :=
    countShapes isOrb c
      (drawnBy (drawOrbs w h palette duration quality) s) in
  let bound := (5 + floor (JS.times duration 2.5))%Z in
  orbs = Z.to_nat bound
  /\ (0 <= duration -> Z.of_nat orbs = bound)
  /\ ((bound <= 0)%Z -> orbs = 0%nat)
  /\ (duration == 8 -> orbs = 25%nat).
Proof.
  cbv zeta.
  rewrite (paints_exactly _ _ _ c s
             (drawOrbs_orbs w h palette duration quality)).
  repeat split.
  - intros H. assert (0 <= floor (JS.times duration 2.5))%Z.
    { apply floor_nonneg. unfold JS.times. apply round64_nonneg.
      apply Qmult_le_0_compat; [ exact H | discriminate ]. }
    lia.
  - intros H. lia.
  - intros H. unfold floor.
    rewrite (Qfloor_comp (JS.times duration 2.5) (inject_Z 20)).
    + rewrite Qfloor_Z. reflexivity.
    + rewrite H. vm_compute. reflexivity.
Qed.

(** *** Palette indices *)

Lemma floor_index (r : Q) (n : Z) :
  0 <= r < 1 -> (0 < n)%Z -> (0 <= floor (r * inject_Z n) < n)%Z.
Proof.
  intros [H0 H1] Hn.
  assert (Hq : 0 < inject_Z n)
    by (change 0 with (inject_Z 0); rewrite <- Zlt_Qlt; exact Hn).
  split.
  - apply floor_nonneg. apply Qmult_le_0_compat; lra.
  - unfold floor. rewrite Zlt_Qlt.
    apply Qle_lt_trans with (r * inject_Z n); [ apply Qfloor_le | ].
    setoid_replace (inject_Z n) with (1 * inject_Z n) at 2 by ring.
    apply Qmult_lt_compat_r; assumption.
Qed.

(* ================================================================ *)
(** ** More on the random source *)

Section RandomPeriod.
Import JS Random.
Local Open Scope Z_scope.

Lemma int32_ToUint32_inj (a b : Z) :
  - two31 <= a < two31 -> - two31 <= b < two31 ->
  ToUint32 a = ToUint32 b -> a = b.
Proof.
  intros Ha Hb E.
  rewrite <- (ToInt32_small a), <- (ToInt32_small b) by assumption.
  rewrite <- (ToInt32_ToUint32 a), <- (ToInt32_ToUint32 b).
  rewrite E. reflexivity.
Qed.

Lemma same_residue (a b : Z) :
  a mod two32 = b mod two32 <-> (two32 | a - b).
Proof.
  split.
  - intros E. exists (a / two32 - b / two32).
    pose proof (Z.div_mod a two32) as Ha.
    pose proof (Z.div_mod b two32) as Hb.
    unfold two32 in *. lia.
  - intros [k Hk]. replace a with (b + k * two32) by lia.
    apply Z.mod_add. unfold two32. lia.
Qed.

Lemma increment_coprime : Z.gcd two32 1831565813 = 1.
Proof. reflexivity. Qed.

Lemma stateAfter_same (seed1 seed2 : Z) (n m : nat) :
  stateAfter n seed1 = stateAfter m seed2
  <-> (two32 | (seed1 - seed2)
               + (Z.of_nat n - Z.of_nat m) * 1831565813).
Proof.
  split.
  - intros E. apply (f_equal ToUint32) in E.
    rewrite !stateAfter_closed in E. apply same_residue in E.
    replace (seed1 - seed2 + (Z.of_nat n - Z.of_nat m) * 1831565813)
      with (seed1 + Z.of_nat n * 1831565813
            - (seed2 + Z.of_nat m * 1831565813)) by lia.
    exact E.
  - intros D. apply int32_ToUint32_inj; try apply stateAfter_int32.
    rewrite !stateAfter_closed. apply same_residue.
    replace (seed1 + Z.of_nat n * 1831565813
             - (seed2 + Z.of_nat m * 1831565813))
      with (seed1 - seed2 + (Z.of_nat n - Z.of_nat m) * 1831565813)
      by lia.
    exact D.
Qed.

(** X1.  The state of the random source runs through all 2^32 values
    before it repeats: the states after [n] and after [m] draws from one
    seed are equal exactly when [n - m] is a multiple of 2^32. *)
Theorem random_state_period (seed : Z) (n m : nat) :
  stateAfter n seed = stateAfter m seed
  <-> (Z.of_nat n - Z.of_nat m) mod two32 = 0.
Proof.
  rewrite stateAfter_same, Z.sub_diag, Z.add_0_l.
  rewrite Z.mod_divide by (unfold two32; lia).
  split.
  - intros D. apply Z.gauss with 1831565813.
    + rewrite Z.mul_comm. exact D.
    + exact increment_coprime.
  - intros D. apply Z.divide_mul_l. exact D.
Qed.

(** X2.  Only the low 32 bits of the seed count: seeds that differ by a
    multiple of 2^32 give the same draws.  A seed that is an int32 is the
    initial state as it is, and two different int32 seeds never reach the
    same state after the same number of draws. *)
Theorem random_seed_wraps (seed : Z) (k : Z) (n : nat) :
  draw n (seed + k * two32) = draw n seed
  /\ (- two31 <= seed < two31 -> createRandom seed = seed)
  /\ (forall seed' : Z,
         - two31 <= seed < two31 -> - two31 <= seed' < two31 ->
         seed <> seed' -> stateAfter n seed <> stateAfter n seed').
Proof.
  split; [ | split ].
  - unfold draw.
    replace (stateAfter n (seed + k * two32)) with (stateAfter n seed);
      [ reflexivity | ].
    apply stateAfter_same. exists (- k). lia.
  - intros H. unfold createRandom. rewrite bor_zero.
    apply ToInt32_small, H.
  - intros seed' H H' Hne E. apply stateAfter_same in E.
    rewrite Z.sub_diag, Z.mul_0_l, Z.add_0_r in E.
    destruct E as [q Hq]. unfold two31, two32 in *. lia.
Qed.

End RandomPeriod.

(* ================================================================ *)
(** ** The random draws of the layers *)

Section Drawing.
Local Open Scope nat_scope.

Lemma iter_advance_add (n1 n2 : nat) (s : Z) :
  Nat.iter (n1 + n2) Random.advance s
  = Nat.iter n2 Random.advance (Nat.iter n1 Random.advance s).
Proof. rewrite Nat.add_comm. apply Nat.iter_add. Qed.

Lemma draws_ret {A} (a : A) : draws (ret a) 0.
Proof. intros s. reflexivity. Qed.

Lemma draws_rand : draws rand 1.
Proof. intros s. reflexivity. Qed.

Lemma draws_ctx (op : DrawOp) : draws (ctx op) 0.
Proof. intros s. reflexivity. Qed.

Lemma draws_bind {A B} (m : Draw A) (f : A -> Draw B) (n1 n2 : nat) :
  draws m n1 -> (forall a, draws (f a) n2) -> draws (bind m f) (n1 + n2).
Proof.
  intros Hm Hf s. rewrite stateAfterDraw_bind, Hf, Hm.
  symmetry. apply iter_advance_add.
Qed.

Lemma draws_forFrom (n : nat) (i : Z) (body : Z -> Draw unit) (c : nat) :
  (forall j, draws (body j) c) -> draws (forFrom n i body) (n * c).
Proof.
  intros Hb. revert i. induction n as [ | n IH ]; intros i.
  - apply draws_ret.
  - cbn [forFrom Nat.mul]. apply draws_bind; [ apply Hb | ].
    intros _. apply IH.
Qed.

Lemma draws_forLoop (n : Z) (body : Z -> Draw unit) (c : nat) :
  (forall j, draws (body j) c) -> draws (forLoop n body) (Z.to_nat n * c).
Proof. intros Hb. apply draws_forFrom, Hb. Qed.

Lemma draws_if {A} (b : bool) (m1 m2 : Draw A) (c1 c2 : nat) :
  draws m1 c1 -> draws m2 c2 ->
  draws (if b then m1 else m2) (if b then c1 else c2).
Proof. intros H1 H2. destruct b; assumption. Qed.

Lemma draws_if_same {A} (b : bool) (m1 m2 : Draw A) (c : nat) :
  draws m1 c -> draws m2 c -> draws (if b then m1 else m2) c.
Proof. intros H1 H2. destruct b; assumption. Qed.

Lemma draws_eq {A} (m : Draw A) (c c' : nat) :
  draws m c' -> c' = c -> draws m c.
Proof. intros H E. subst. exact H. Qed.

End Drawing.

Ltac draw_ops :=
  cbv zeta;
  lazymatch goal with
  | |- draws (bind _ _) _ =>
      eapply draws_bind; [ draw_ops | intro; draw_ops ]
  | |- draws rand _ => apply draws_rand
  | |- draws (ret _) _ => apply draws_ret
  | |- draws (ctx _) _ => apply draws_ctx
  | |- draws (forLoop _ _) _ => eapply draws_forLoop; intro; draw_ops
  | |- draws (forEverySecond _ _) _ => unfold forEverySecond; draw_ops
  | |- draws (if _ then _ else _) _ =>
      first [ eapply draws_if; [ draw_ops | draw_ops ]
            | eapply draws_if_same;
              (eapply draws_eq; [ draw_ops | reflexivity ]) ]
  end.

Section LayerDraws.
Variables w h : Q.
Variable palette : Palette.
Local Open Scope nat_scope.

Lemma drawBackground_draws : draws (drawBackground w h palette) 4.
Proof.
  unfold drawBackground. eapply draws_eq; [ draw_ops | reflexivity ].
Qed.

Lemma drawAurora_draws (complexity quality : Q) :
  draws (drawAurora w h palette complexity quality)
    (Z.to_nat (3 + floor (complexity * 4)) * 5).
Proof.
  unfold drawAurora. eapply draws_eq; [ draw_ops | cbn [Nat.add]; lia ].
Qed.

Lemma drawOrbs_draws (duration quality : Q) :
  draws (drawOrbs w h palette duration quality)
    (Z.to_nat (5 + floor (JS.times duration 2.5)) * 5).
Proof.
  unfold drawOrbs. eapply draws_eq; [ draw_ops | cbn [Nat.add]; lia ].
Qed.

Lemma drawGeometry_draws (quality : Q) :
  draws (drawGeometry w h palette quality)
    (Z.to_nat (4 + floor (JS.times quality 8)) * 6 + 3 * 3).
Proof.
  unfold drawGeometry.
  eapply draws_eq;
    [ draw_ops | cbn [Nat.add]; change (Z.to_nat 3) with 3; lia ].
Qed.

Lemma drawStars_draws (complexity : Q) :
  draws (drawStars w h complexity)
    (Z.to_nat (30 + floor (JS.times complexity 120)) * 5).
Proof.
  unfold drawStars. eapply draws_eq; [ draw_ops | cbn [Nat.add]; lia ].
Qed.

Lemma drawStreakEffect_draws (streak : Z) :
  draws (drawStreakEffect w h palette streak)
    ((if (3 <=? streak)%Z then Z.to_nat (Z.min streak 20) * 3 else 0)
     + (if (7 <=? streak)%Z then 36 else 0)).
Proof.
  unfold drawStreakEffect.
  eapply draws_eq;
    [ draw_ops
    | destruct (3 <=? streak)%Z, (7 <=? streak)%Z, (14 <=? streak)%Z;
      cbn [Nat.add]; try change (Z.to_nat 36) with 36; lia ].
Qed.

Lemma drawVignette_draws : draws (drawVignette w h) 0.
Proof.
  unfold drawVignette. eapply draws_eq; [ draw_ops | reflexivity ].
Qed.

End LayerDraws.

Lemma iter_advance_stateAfter (n : nat) (seed : Z) :
  Nat.iter n Random.advance (Random.createRandom seed)
  = Random.stateAfter n seed.
Proof.
  induction n as [ | n IH ]; [ reflexivity | ].
  cbn [Random.stateAfter]. rewrite <- IH. reflexivity.
Qed.

Lemma pipeline_draws (w h : Q) (record : SleepRecord) (streak : Z) :
  draws (pipeline w h record streak) (drawsUsed (duration record) streak).
Proof.
  unfold pipeline. cbv zeta.
  eapply draws_eq.
  - eapply draws_bind; [ apply drawBackground_draws | intros _ ].
    eapply draws_bind; [ apply drawAurora_draws | intros _ ].
    eapply draws_bind; [ apply drawOrbs_draws | intros _ ].
    eapply draws_bind; [ apply drawGeometry_draws | intros _ ].
    eapply draws_bind; [ apply drawStars_draws | intros _ ].
    eapply draws_bind; [ | intros _; apply drawVignette_draws ].
    eapply draws_if; [ apply drawStreakEffect_draws | apply draws_ret ].
  - unfold drawsUsed, quality. cbv zeta.
    destruct (Z.leb_spec 3 streak), (Z.leb_spec 7 streak); lia.
Qed.

(** X3.  How many numbers [generate] draws from the random source is
    fixed by the duration and the streak alone: whatever the seed, the
    bedtime and the size of the canvas, the source is left in the state
    reached after [drawsUsed duration streak] draws from the seed, and
    the random numbers drawn do not change that count.  The count is 4
    for the background, 5 for each aurora curve, orb and star, 6 for
    each spoke and 9 for the rings, 3 for each gold glow and 36 for the
    rainbow ring, the numbers of curves, orbs, spokes and stars being
    those the layers compute in Number arithmetic. *)
Theorem generate_draws_used (w h : Z) (record : SleepRecord)
    (options : RenderOptions) :
  stateAfterDraw
    (pipeline (inject_Z w) (inject_Z h) record (streakOf options))
    (Random.createRandom (artSeed record))
  = Random.stateAfter
      (drawsUsed (duration record) (streakOf options)) (artSeed record).
Proof.
  rewrite (pipeline_draws _ _ record (streakOf options)).
  apply iter_advance_stateAfter.
Qed.

(* ================================================================ *)
(** ** The stack of saved context states *)

Section SavedStates.
Local Open Scope nat_scope.

Lemma stackAfter_app (d : nat) (a b : list DrawOp) :
  stackAfter d (a ++ b)
  = match stackAfter d a with
    | Some d' => stackAfter d' b
    | None => None
    end.
Proof.
  revert d. induction a as [ | op a IH ]; intros d; [ reflexivity | ].
  destruct op; cbn [app stackAfter]; try apply IH.
  destruct d; [ reflexivity | apply IH ].
Qed.

Lemma moves_ret {A} (x : A) (a : nat) : moves (ret x) a a.
Proof. intros s d. reflexivity. Qed.

Lemma moves_rand (a : nat) : moves rand a a.
Proof. intros s d. reflexivity. Qed.

Lemma moves_save (a : nat) : moves (ctx Save) a (S a).
Proof.
  intros s d. unfold drawnBy, ctx. cbn [snd stackAfter].
  rewrite Nat.add_succ_r. reflexivity.
Qed.

Lemma moves_restore (a : nat) : moves (ctx Restore) (S a) a.
Proof.
  intros s d. unfold drawnBy, ctx. cbn [snd].
  rewrite Nat.add_succ_r. reflexivity.
Qed.

Lemma moves_other (op : DrawOp) (a : nat) :
  isSaveOrRestore op = false -> moves (ctx op) a a.
Proof.
  intros H s d. unfold drawnBy, ctx. cbn [snd].
  destruct op; try discriminate H; reflexivity.
Qed.

Lemma moves_bind {A B} (m : Draw A) (f : A -> Draw B) (a b c : nat) :
  moves m a b -> (forall x, moves (f x) b c) -> moves (bind m f) a c.
Proof.
  intros Hm Hf s d. rewrite drawnBy_bind, stackAfter_app, Hm. apply Hf.
Qed.

Lemma moves_forFrom (n : nat) (i : Z) (body : Z -> Draw unit) (a : nat) :
  (forall j, moves (body j) a a) -> moves (forFrom n i body) a a.
Proof.
  intros Hb. revert i. induction n as [ | n IH ]; intros i.
  - apply moves_ret.
  - cbn [forFrom]. eapply moves_bind; [ apply Hb | ].
    intros _. apply IH.
Qed.

Lemma moves_forLoop (n : Z) (body : Z -> Draw unit) (a : nat) :
  (forall j, moves (body j) a a) -> moves (forLoop n body) a a.
Proof. intros Hb. apply moves_forFrom, Hb. Qed.

Lemma moves_if {A} (b : bool) (m1 m2 : Draw A) (a c : nat) :
  moves m1 a c -> moves m2 a c -> moves (if b then m1 else m2) a c.
Proof. intros H1 H2. destruct b; assumption. Qed.

End SavedStates.

Ltac move_ops :=
  cbv zeta;
  lazymatch goal with
  | |- moves (bind _ _) _ _ =>
      eapply moves_bind; [ move_ops | intro; move_ops ]
  | |- moves rand _ _ => apply moves_rand
  | |- moves (ret _) _ _ => apply moves_ret
  | |- moves (ctx Save) _ _ => apply moves_save
  | |- moves (ctx Restore) _ _ => apply moves_restore
  | |- moves (ctx _) _ _ => apply moves_other; reflexivity
  | |- moves (forLoop _ _) _ _ => apply moves_forLoop; intro; move_ops
  | |- moves (forEverySecond _ _) _ _ => unfold forEverySecond; move_ops
  | |- moves (if _ then _ else _) _ _ =>
      apply moves_if; [ move_ops | move_ops ]
  end.

Lemma pipeline_moves (w h : Q) (record : SleepRecord) (streak : Z) :
  moves (pipeline w h record streak) 0 0.
Proof.
  unfold pipeline, drawBackground, drawAurora, drawOrbs, drawGeometry,
    drawStars, drawStreakEffect, drawVignette.
  move_ops.
Qed.

(** X4.  [generate] leaves the context's stack of saved states as it
    found it: every [save] is matched by a later [restore], and it never
    calls [restore] without a [save] of its own still open, so states
    saved by the caller are not touched.  From any depth [d] the depth
    after the run is [d] again. *)
Theorem generate_restores_context (w h : Z) (record : SleepRecord)
    (options : RenderOptions) (d : nat) :
  stackAfter d (generated w h record options) = Some d.
Proof.
  unfold generated.
  pose proof (pipeline_moves (inject_Z w) (inject_Z h) record
                (streakOf options)
                (Random.createRandom (artSeed record)) d) as H.
  rewrite !Nat.add_0_r in H. exact H.
Qed.

(* ================================================================ *)
(** ** How much each layer draws *)

Section LayerCounts.
Local Open Scope nat_scope.

Lemma floor_between (x : Q) (lo hi : Z) :
  (inject_Z lo <= x)%Q -> (x <= inject_Z hi)%Q -> (lo <= floor x <= hi)%Z.
Proof.
  intros Hlo Hhi. unfold floor. split.
  - rewrite <- (Qfloor_Z lo). apply Qfloor_resp_le, Hlo.
  - rewrite <- (Qfloor_Z hi). apply Qfloor_resp_le, Hhi.
Qed.

Lemma floor_half_width (W : Z) : floor (inject_Z W / 2) = (W / 2)%Z.
Proof. unfold floor. symmetry. apply (Zdiv_Qdiv W 2). Qed.

Lemma drawAurora_closePaths (w h : Q) (palette : Palette)
    (complexity quality : Q) :
  counts isClosePath (drawAurora w h palette complexity quality)
    (Z.to_nat (3 + floor (complexity * 4))).
Proof.
  unfold drawAurora. eapply counts_eq; [ count_ops | cbn [Nat.add]; lia ].
Qed.

Lemma drawAurora_lineTos (w h : Q) (palette : Palette)
    (complexity quality : Q) :
  counts isLineTo (drawAurora w h palette complexity quality)
    (Z.to_nat (3 + floor (complexity * 4))
     * (Z.to_nat (floor (w / 2) + 1) + 2)).
Proof.
  unfold drawAurora. eapply counts_eq; [ count_ops | cbn [Nat.add]; lia ].
Qed.

(** X5.  For a non-negative duration and a canvas of non-negative width
    [W], the aurora layer closes and fills between 3 and 7 curves,
    [3 + floor(complexity * 4)] of them, and each curve is traced with one
    [lineTo] per second pixel column from 0 to [W] ([W / 2 + 1] of them)
    and two more to close it along the bottom. *)
Theorem aurora_curves (W : Z) (h : Q) (palette : Palette) (duration : Q)
    (s : Z) :
  (0 <= duration)%Q -> (0 <= W)%Z ->
  let ops :=
    drawnBy (drawAurora (inject_Z W) h palette (complexity duration)
               (quality duration)) s in
  let curves := countOps isClosePath ops in
  Z.of_nat curves = (3 + floor (complexity duration * 4))%Z
  /\ 3 <= curves <= 7
  /\ countOps isLineTo ops = curves * (Z.to_nat (W / 2 + 1) + 2).
Proof.
  intros Hd HW. cbv zeta.
  rewrite drawAurora_closePaths, drawAurora_lineTos, floor_half_width.
  assert (0 <= floor (complexity duration * 4) <= 4)%Z.
  { apply floor_between.
    - pose proof (complexity_nonneg duration Hd). change (inject_Z 0) with 0%Q.
      lra.
    - pose proof (complexity_le_1 duration). change (inject_Z 4) with 4%Q.
      lra. }
  repeat split; lia.
Qed.

(** X6.  From any state of the context and for every duration, the
    radial ornament paints between 4 and 12 spokes,
    [4 + floor(quality * 8)] of them (the product being the Number
    product), each one Bezier curve stroked from the centre; it fills one
    disc per spoke, at its tip, and strokes three rings. *)
Theorem geometry_spokes (w h : Q) (palette : Palette) (duration : Q)
    (c : Context) (s : Z) :
  let ops := drawnBy (drawGeometry w h palette (quality duration)) s in
  let spokes := countShapes isSpoke c ops in
  Z.of_nat spokes = (4 + floor (JS.times (quality duration) 8))%Z
  /\ 4 <= spokes <= 12
  /\ countShapes isDisc c ops = spokes
  /\ countShapes isRing c ops = 3.
Proof.
  cbv zeta.
  destruct (drawGeometry_shapes w h palette (quality duration))
    as (Hs & Hd & Hr).
  rewrite (paints_exactly _ _ _ c s Hs), (paints_exactly _ _ _ c s Hd),
    (paints_exactly _ _ _ c s Hr).
  assert (0 <= floor (JS.times (quality duration) 8) <= 8)%Z.
  { pose proof (quality_range duration) as [H0 H1].
    apply floor_between; unfold JS.times.
    - change (inject_Z 0) with 0%Q. apply round64_nonneg. lra.
    - change (inject_Z 8) with 8%Q.
      apply round64_le; [ reflexivity | lra ]. }
  repeat split; lia.
Qed.

(** X7.  From any state of the context and for every complexity in
    [0, 1], the starfield paints between 30 and 150 stars,
    [30 + floor(complexity * 120)] of them (the product being the Number
    product), each a filled disc, and at most one sparkle (a stroked
    cross) per star. *)
Theorem stars_count (w h : Q) (complexity : Q) (c : Context) (s : Z) :
  (0 <= complexity <= 1)%Q ->
  let ops := drawnBy (drawStars w h complexity) s in
  let stars := countShapes isDisc c ops in
  Z.of_nat stars = (30 + floor (JS.times complexity 120))%Z
  /\ 30 <= stars <= 150
  /\ countShapes isSparkle c ops <= stars.
Proof.
  intros [H0 H1]. cbv zeta.
  destruct (drawStars_shapes w h complexity) as (Hd & Hs).
  rewrite (paints_exactly _ _ _ c s Hd).
  assert (0 <= floor (JS.times complexity 120) <= 120)%Z.
  { apply floor_between; unfold JS.times.
    - change (inject_Z 0) with 0%Q. apply round64_nonneg. lra.
    - change (inject_Z 120) with 120%Q.
      apply round64_le; [ reflexivity | lra ]. }
  repeat split; try lia. apply (Hs c s).
Qed.

(** X8.  For every streak value [k] passed to [generate] and from any
    state of the context, the whole picture has [min(k, 20)] gold glows
    when [k >= 3] and none otherwise (so never more than 20), the 36
    rainbow segments exactly when [k >= 7], and the diamond exactly when
    [k >= 14]; with no streak option there is none of them.  These are
    shapes painted: a circle filled with the gold gradient, an arc
    stroked with an [hsla] colour, a rectangle filled with a radial
    gradient. *)
Theorem streak_effects_by_streak (w h : Z) (record : SleepRecord) (k : Z)
    (c : Context) :
  let ops := generated w h record (mkOptions (Some k)) in
  let plain := generated w h record (mkOptions None) in
  countShapes isGoldGlow c ops
  = (if (3 <=? k)%Z then Z.to_nat (Z.min k 20) else 0)
  /\ countShapes isGoldGlow c ops <= 20
  /\ countShapes isRainbowSegment c ops = (if (7 <=? k)%Z then 36 else 0)
  /\ countShapes isDiamond c ops = (if (14 <=? k)%Z then 1 else 0)
  /\ countShapes isGoldGlow c plain = 0
  /\ countShapes isRainbowSegment c plain = 0
  /\ countShapes isDiamond c plain = 0.
Proof.
  cbv zeta. unfold generated. cbn [streakOf streak].
  destruct (pipeline_paints (inject_Z w) (inject_Z h) record k)
    as (Hg & Hr & Hd).
  destruct (pipeline_paints (inject_Z w) (inject_Z h) record 0)
    as (Hg0 & Hr0 & Hd0).
  rewrite !(paints_exactly _ _ _ c _ Hg), !(paints_exactly _ _ _ c _ Hr),
    !(paints_exactly _ _ _ c _ Hd), !(paints_exactly _ _ _ c _ Hg0),
    !(paints_exactly _ _ _ c _ Hr0), !(paints_exactly _ _ _ c _ Hd0).
  repeat split. destruct (3 <=? k)%Z; lia.
Qed.

End LayerCounts.

(* ================================================================ *)
(** ** The colours the layers use *)

Section PaletteEntries.
Import PALETTES.

Lemma selectPalette_cases (bedtimeISO : string) :
  selectPalette bedtimeISO = serene \/ selectPalette bedtimeISO = twilight
  \/ selectPalette bedtimeISO = midnight
  \/ selectPalette bedtimeISO = latenight.
Proof.
  unfold selectPalette, paletteOfHour. cbv zeta.
  repeat match goal with
         | |- context [ if ?b then _ else _ ] => destruct b
         end; auto.
Qed.

(** *** Every call of a drawing *)

Section Every.
Variable P : DrawOp -> Prop.

Lemma every_ret {A} (a : A) : every P (ret a).
Proof. intros s. apply Forall_nil. Qed.

Lemma every_rand : every P rand.
Proof.
  intros s. unfold drawnBy, rand. destruct (Random.next s). apply Forall_nil.
Qed.

Lemma every_ctx (op : DrawOp) : P op -> every P (ctx op).
Proof. intros H s. apply Forall_cons; [ exact H | apply Forall_nil ]. Qed.

Lemma every_rand_bind {A} (k : Q -> Draw A) :
  (forall r, 0 <= r < 1 -> every P (k r)) -> every P (bind rand k).
Proof.
  intros H s. rewrite drawnBy_rand_bind. apply H.
  apply next_unit_interval.
Qed.

Lemma every_bind {A B} (m : Draw A) (k : A -> Draw B) :
  every P m -> (forall a, every P (k a)) -> every P (bind m k).
Proof.
  intros Hm Hk s. rewrite drawnBy_bind. apply Forall_app.
  split; [ apply Hm | apply Hk ].
Qed.

Lemma every_forFrom (n : nat) (i : Z) (body : Z -> Draw unit) :
  (forall j, every P (body j)) -> every P (forFrom n i body).
Proof.
  intros Hb. revert i. induction n as [ | n IH ]; intros i.
  - apply every_ret.
  - cbn [forFrom]. apply every_bind; [ apply Hb | intros _; apply IH ].
Qed.

Lemma every_forLoop (n : Z) (body : Z -> Draw unit) :
  (forall j, every P (body j)) -> every P (forLoop n body).
Proof. intros Hb. apply every_forFrom, Hb. Qed.

End Every.

(** *** Lookups in a palette of eight entries *)

Section Lookups.
Variable palette : Palette.
Hypothesis eight : List.length palette = 8%nat.

Lemma entry_in (i : Z) :
  (0 <= i < 8)%Z -> In (entry (at_ palette i)) palette.
Proof.
  intros Hi. unfold at_, entry.
  destruct (Z.ltb_spec i 0); [ lia | ].
  destruct (nth_error palette (Z.to_nat i)) as [ c | ] eqn:E.
  - apply (nth_error_In _ _ E).
  - apply nth_error_None in E. lia.
Qed.

Lemma any_entry_in (r : Q) :
  0 <= r < 1 -> In (entry (at_ palette (floor (r * len palette)))) palette.
Proof.
  intros Hr. apply entry_in. unfold len. rewrite eight.
  apply (floor_index r 8 Hr). lia.
Qed.

Lemma upper_entry_in (r : Q) :
  0 <= r < 1 ->
  In (entry (at_ palette (2 + floor (r * (len palette - 2)))%Z)) palette.
Proof.
  intros Hr. apply entry_in. unfold len. rewrite eight.
  change (inject_Z (Z.of_nat 8) - 2) with (inject_Z 6).
  pose proof (floor_index r 6 Hr). lia.
Qed.

Lemma fallback_entry_in (i : Z) :
  In (orElse (at_ palette i) (entry (at_ palette 0))) palette.
Proof.
  assert (F : In (entry (at_ palette 0)) palette) by (apply entry_in; lia).
  unfold at_ at 1. destruct (i <? 0)%Z; [ exact F | ].
  destruct (nth_error palette (Z.to_nat i)) as [ [ | a c ] | ] eqn:E;
    cbn [orElse]; [ exact F | apply (nth_error_In _ _ E) | exact F ].
Qed.

Ltac entry_ok :=
  first [ apply fallback_entry_in
        | apply any_entry_in; assumption
        | apply upper_entry_in; assumption ].

Ltac color_ok :=
  first [ left; reflexivity
        | right; eexists _, _; split; [ | reflexivity ]; entry_ok ].

Ltac style_ok :=
  cbn [usesPalette colorsOf map snd];
  first [ exact I
        | repeat (first [ apply Forall_nil | apply Forall_cons ]);
          color_ok ].

Ltac every_ops :=
  cbv beta zeta;
  lazymatch goal with
  | |- every _ (bind rand _) =>
      apply every_rand_bind; intros ? ?; every_ops
  | |- every _ (bind _ _) =>
      apply every_bind; [ every_ops | intro; every_ops ]
  | |- every _ (ctx _) => apply every_ctx; style_ok
  | |- every _ (forLoop _ _) => apply every_forLoop; intro; every_ops
  | |- every _ (forEverySecond _ _) => unfold forEverySecond; every_ops
  | |- every _ (ret _) => apply every_ret
  | |- every _ rand => apply every_rand
  end.

Lemma drawAurora_uses_palette (w h complexity quality : Q) :
  every (usesPalette palette) (drawAurora w h palette complexity quality).
Proof. unfold drawAurora. every_ops. Qed.

Lemma drawOrbs_uses_palette (w h duration quality : Q) :
  every (usesPalette palette) (drawOrbs w h palette duration quality).
Proof. unfold drawOrbs. every_ops. Qed.

Lemma drawGeometry_uses_palette (w h quality : Q) :
  every (usesPalette palette) (drawGeometry w h palette quality).
Proof. unfold drawGeometry. every_ops. Qed.

End Lookups.

(** X9.  Whatever the bedtime string, the palette handed to the layers
    has eight entries, each a well-formed [#RRGGBB] literal, and the three
    layers that look up the palette at an index computed from a random
    draw (aurora, orbs, geometry) never read past it: every colour of
    every style they set is [transparent] or [withAlpha] of one of the
    eight entries, whatever the state of the random source and the
    parameters. *)
Theorem palette_lookups_defined (bedtimeISO : string)
    (w h complexity duration quality : Q) (s : Z) :
  let palette := selectPalette bedtimeISO in
  List.length palette = 8%nat
  /\ Forall (fun color => hexColor color = true) palette
  /\ Forall (usesPalette palette)
       (drawnBy (drawAurora w h palette complexity quality) s)
  /\ Forall (usesPalette palette)
       (drawnBy (drawOrbs w h palette duration quality) s)
  /\ Forall (usesPalette palette)
       (drawnBy (drawGeometry w h palette quality) s).
Proof.
  cbv zeta.
  assert (L : List.length (selectPalette bedtimeISO) = 8%nat).
  { destruct (selectPalette_cases bedtimeISO) as [E | [E | [E | E]]];
      rewrite E; reflexivity. }
  split; [ exact L | ]. split.
  - destruct (selectPalette_cases bedtimeISO) as [E | [E | [E | E]]];
      rewrite E; repeat constructor.
  - split; [ apply (drawAurora_uses_palette _ L) | ].
    split; [ apply (drawOrbs_uses_palette _ L)
           | apply (drawGeometry_uses_palette _ L) ].
Qed.

End PaletteEntries.

(* ================================================================ *)
(** ** Colour utilities on well-formed colours *)

Section WellFormedColors.
Import JS.
Local Open Scope Z_scope.

Lemma hexDigit_plain (c : ascii) (d : Z) :
  hexDigit c = Some d ->
  0 <= d < 16 /\ isWhite c = false
  /\ c <> "-"%char /\ c <> "+"%char /\ c <> "x"%char /\ c <> "X"%char.
Proof.
  destruct c as [[] [] [] [] [] [] [] []]; cbv; intros E;
    try discriminate E; injection E as E; subst;
    repeat split; try discriminate; try reflexivity.
Qed.

Lemma parseInt16_two_digits (a b : ascii) (x y : Z) :
  hexDigit a = Some x -> hexDigit b = Some y ->
  parseInt16 (String a (String b EmptyString)) = Some (16 * x + y).
Proof.
  intros Ha Hb.
  destruct (hexDigit_plain a x Ha) as (Hx & Hw & Hm & Hp & _).
  destruct (hexDigit_plain b y Hb) as (Hy & _ & _ & _ & Hbx & HbX).
  unfold parseInt16. cbn [trimStart]. rewrite Hw.
  assert (S1 : (match String a (String b EmptyString) with
                | String "-" s' => (-1, s')
                | String "+" s' => (1, s')
                | _ => (1, String a (String b EmptyString))
                end) = (1, String a (String b EmptyString))).
  { destruct a as [[] [] [] [] [] [] [] []]; try reflexivity;
      exfalso; first [ apply Hm; reflexivity | apply Hp; reflexivity ]. }
  rewrite S1.
  assert (S2 : strip0x (String a (String b EmptyString))
               = String a (String b EmptyString)).
  { unfold strip0x.
    destruct a as [[] [] [] [] [] [] [] []]; try reflexivity.
    destruct b as [[] [] [] [] [] [] [] []]; try reflexivity;
      exfalso; first [ apply Hbx; reflexivity | apply HbX; reflexivity ]. }
  rewrite S2. cbn [hexPrefix]. rewrite Ha, Hb.
  f_equal. lia.
Qed.

Lemma hexColor_channels (color : string) :
  hexColor color = true ->
  exists r g b : Z,
    channels color = (Some r, Some g, Some b)
    /\ 0 <= r <= 255 /\ 0 <= g <= 255 /\ 0 <= b <= 255.
Proof.
  unfold hexColor. intros H.
  destruct color as [ | c0 color ]; [ discriminate H | ].
  destruct color as [ | c1 color ];
    [ destruct c0 as [[] [] [] [] [] [] [] []]; discriminate H | ].
  destruct color as [ | c2 color ];
    [ destruct c0 as [[] [] [] [] [] [] [] []]; discriminate H | ].
  destruct color as [ | c3 color ];
    [ destruct c0 as [[] [] [] [] [] [] [] []]; discriminate H | ].
  destruct color as [ | c4 color ];
    [ destruct c0 as [[] [] [] [] [] [] [] []]; discriminate H | ].
  destruct color as [ | c5 color ];
    [ destruct c0 as [[] [] [] [] [] [] [] []]; discriminate H | ].
  destruct color as [ | c6 color ];
    [ destruct c0 as [[] [] [] [] [] [] [] []]; discriminate H | ].
  destruct color as [ | c7 color ];
    [ | destruct c0 as [[] [] [] [] [] [] [] []]; discriminate H ].
  destruct (hexDigit c1) as [ d1 | ] eqn:E1;
    [ | destruct c0 as [[] [] [] [] [] [] [] []]; discriminate H ].
  destruct (hexDigit c2) as [ d2 | ] eqn:E2;
    [ | destruct c0 as [[] [] [] [] [] [] [] []]; discriminate H ].
  destruct (hexDigit c3) as [ d3 | ] eqn:E3;
    [ | destruct c0 as [[] [] [] [] [] [] [] []]; discriminate H ].
  destruct (hexDigit c4) as [ d4 | ] eqn:E4;
    [ | destruct c0 as [[] [] [] [] [] [] [] []]; discriminate H ].
  destruct (hexDigit c5) as [ d5 | ] eqn:E5;
    [ | destruct c0 as [[] [] [] [] [] [] [] []]; discriminate H ].
  destruct (hexDigit c6) as [ d6 | ] eqn:E6;
    [ | destruct c0 as [[] [] [] [] [] [] [] []]; discriminate H ].
  exists (16 * d1 + d2), (16 * d3 + d4), (16 * d5 + d6).
  unfold channels, slice. cbn [substring Nat.sub].
  rewrite (parseInt16_two_digits c1 c2 d1 d2 E1 E2).
  rewrite (parseInt16_two_digits c3 c4 d3 d4 E3 E4).
  rewrite (parseInt16_two_digits c5 c6 d5 d6 E5 E6).
  pose proof (hexDigit_plain _ _ E1). pose proof (hexDigit_plain _ _ E2).
  pose proof (hexDigit_plain _ _ E3). pose proof (hexDigit_plain _ _ E4).
  pose proof (hexDigit_plain _ _ E5). pose proof (hexDigit_plain _ _ E6).
  repeat split; lia.
Qed.

(** X10.  For a well-formed [#RRGGBB] colour the three channels read by
    the colour utilities are integers between 0 and 255, so [withAlpha]
    returns [rgba(r, g, b, alpha)] with those three numbers and no
    [NaN]. *)
Theorem withAlpha_well_formed (hex : string) (alpha : Q) :
  hexColor hex = true ->
  exists r g b : Z,
    0 <= r <= 255 /\ 0 <= g <= 255 /\ 0 <= b <= 255
    /\ channels hex = (Some r, Some g, Some b)
    /\ withAlpha hex alpha
       = "rgba(" +++ showInt (Some r) +++ ", " +++ showInt (Some g)
           +++ ", " +++ showInt (Some b) +++ ", " +++ show alpha +++ ")".
Proof.
  intros H. destruct (hexColor_channels hex H) as (r & g & b & E & Hr & Hg & Hb).
  exists r, g, b. repeat split; try lia; try exact E.
  unfold withAlpha. rewrite E. reflexivity.
Qed.

Lemma round_between (x : Q) (lo hi : Z) :
  (inject_Z lo <= x)%Q -> (x <= inject_Z hi)%Q -> lo <= round x <= hi.
Proof.
  intros Hlo Hhi. unfold round. split.
  - rewrite <- (Qfloor_Z lo). apply Qfloor_resp_le. lra.
  - assert (Qfloor (x + 0.5) < hi + 1); [ | lia ].
    rewrite Zlt_Qlt.
    apply Qle_lt_trans with (x + 0.5)%Q; [ apply Qfloor_le | ].
    rewrite inject_Z_plus. change (inject_Z 1) with 1%Q. lra.
Qed.

Lemma lerp_between (x y : Z) (t : Q) :
  (0 <= t <= 1)%Q ->
  Z.min x y <= round (inject_Z x + (inject_Z y - inject_Z x) * t)
            <= Z.max x y.
Proof.
  intros [H0 H1].
  assert (Hxy : (x <= y -> (inject_Z x <= inject_Z y)%Q) /\
                (y <= x -> (inject_Z y <= inject_Z x)%Q)).
  { split; intros L; rewrite <- Zle_Qle; exact L. }
  destruct Hxy as [Hle Hge].
  destruct (Z.le_ge_cases x y) as [L | L].
  - rewrite Z.min_l, Z.max_r by exact L. specialize (Hle L).
    apply round_between; nra.
  - rewrite Z.min_r, Z.max_l by exact L. specialize (Hge L).
    apply round_between; nra.
Qed.

Lemma lerp_at_0 (x y : Z) :
  round (inject_Z x + (inject_Z y - inject_Z x) * 0) = x.
Proof.
  assert (x <= round (inject_Z x + (inject_Z y - inject_Z x) * 0) <= x);
    [ | lia ].
  apply round_between; lra.
Qed.

Lemma lerp_at_1 (x y : Z) :
  round (inject_Z x + (inject_Z y - inject_Z x) * 1) = y.
Proof.
  assert (y <= round (inject_Z x + (inject_Z y - inject_Z x) * 1) <= y);
    [ | lia ].
  apply round_between; lra.
Qed.

(** X11.  For two well-formed colours and a ratio [t] in [0, 1],
    [lerpColor] returns [rgb(r, g, b)] where each channel is an integer
    between the two colours' channels (hence in 0..255); at [t = 0] it is
    the first colour's channels and at [t = 1] the second's. *)
Theorem lerpColor_well_formed (color1 color2 : string) (t : Q) :
  hexColor color1 = true -> hexColor color2 = true ->
  (0 <= t <= 1)%Q ->
  exists r1 g1 b1 r2 g2 b2 r g b : Z,
    channels color1 = (Some r1, Some g1, Some b1)
    /\ channels color2 = (Some r2, Some g2, Some b2)
    /\ lerpColor color1 color2 t
       = "rgb(" +++ showInt (Some r) +++ ", " +++ showInt (Some g)
           +++ ", " +++ showInt (Some b) +++ ")"
    /\ (Z.min r1 r2 <= r <= Z.max r1 r2
        /\ Z.min g1 g2 <= g <= Z.max g1 g2
        /\ Z.min b1 b2 <= b <= Z.max b1 b2)
    /\ (0 <= r <= 255 /\ 0 <= g <= 255 /\ 0 <= b <= 255)
    /\ lerpColor color1 color2 0
       = "rgb(" +++ showInt (Some r1) +++ ", " +++ showInt (Some g1)
           +++ ", " +++ showInt (Some b1) +++ ")"
    /\ lerpColor color1 color2 1
       = "rgb(" +++ showInt (Some r2) +++ ", " +++ showInt (Some g2)
           +++ ", " +++ showInt (Some b2) +++ ")".
Proof.
  intros H1 H2 Ht.
  destruct (hexColor_channels color1 H1)
    as (r1 & g1 & b1 & E1 & Hr1 & Hg1 & Hb1).
  destruct (hexColor_channels color2 H2)
    as (r2 & g2 & b2 & E2 & Hr2 & Hg2 & Hb2).
  exists r1, g1, b1, r2, g2, b2.
  eexists _, _, _.
  split; [ exact E1 | ]. split; [ exact E2 | ].
  split; [ unfold lerpColor; rewrite E1, E2; cbv zeta; reflexivity | ].
  pose proof (lerp_between r1 r2 t Ht).
  pose proof (lerp_between g1 g2 t Ht).
  pose proof (lerp_between b1 b2 t Ht).
  split; [ repeat split; lia | ].
  split; [ repeat split; lia | ].
  split; unfold lerpColor; rewrite E1, E2; cbv zeta;
    unfold lerpChannel;
    rewrite ?lerp_at_0, ?lerp_at_1; reflexivity.
Qed.

End WellFormedColors.

(* ================================================================ *)
(** ** Storage: alarm and achievements *)

Section StoredSettings.

Lemma save_roomy (data : Data) (store : LocalStorage) :
  roomy -> save data store = Some data.
Proof. intros R. unfold save. rewrite R. reflexivity. Qed.


Lemma includes_app (l : list string) (x y : string) :
  includes (l ++ [y]) x = includes l x || String.eqb x y.
Proof.
  unfold includes. rewrite existsb_app. cbn [existsb].
  rewrite orb_false_r. reflexivity.
Qed.

Lemma includes_In (l : list string) (x : string) :
  includes l x = true <-> In x l.
Proof.
  unfold includes. rewrite existsb_exists. split.
  - intros (y & Hy & E). apply String.eqb_eq in E. subst. exact Hy.
  - intros H. exists x. split; [ exact H | apply String.eqb_refl ].
Qed.

(** X13.  [unlockAchievement] returns [true] exactly when the id was not
    unlocked yet.  When the storage accepts the write, the id is unlocked
    afterwards, what was unlocked stays unlocked, a list without
    duplicates stays without duplicates, and unlocking the same id again
    returns [false] and changes nothing. *)
Theorem unlockAchievement_once (achievementId0 : string)
    (store : LocalStorage) :
  roomy ->
  NoDup (getAchievements store) ->
  let store' := fst (unlockAchievement achievementId0 store) in
  snd (unlockAchievement achievementId0 store)
  = negb (includes (getAchievements store) achievementId0)
  /\ includes (getAchievements store') achievementId0 = true
  /\ (forall other,
         includes (getAchievements store) other = true ->
         includes (getAchievements store') other = true)
  /\ NoDup (getAchievements store')
  /\ unlockAchievement achievementId0 store' = (store', false)
  /\ getAllRecords store' = getAllRecords store.
Proof.
  intros R ND. cbv zeta. unfold unlockAchievement, getAchievements,
    getAllRecords in *. cbv zeta.
  destruct (includes (achievements (load store)) achievementId0) eqn:E;
    cbn [negb fst snd].
  - rewrite E. cbn [negb]. repeat split; auto.
  - rewrite save_roomy by exact R.
    cbn [load achievements records]. rewrite includes_app, E.
    rewrite String.eqb_refl. cbn [orb negb].
    repeat split.
    + intros other H. rewrite includes_app, H. reflexivity.
    + apply NoDup_app; [ exact ND | repeat constructor; intros [] | ].
      intros x Hx [Hy | []]. subst.
      apply includes_In in Hx. congruence.
Qed.

End StoredSettings.

(* ================================================================ *)
(** ** Storage: sleep records *)

Section SleepRecords.

Lemma findIndexFrom_upsert {A} (p : A -> bool) (x : A) (l : list A)
    (i : Z) :
  (0 <= i)%Z ->
  (if (0 <=? findIndexFrom p l i)%Z
   then setAt l (Z.to_nat (findIndexFrom p l i - i)) x
   else l ++ [x])
  = upsert p x l
  /\ (i <= findIndexFrom p l i \/ findIndexFrom p l i = -1)%Z.
Proof.
  revert i. induction l as [ | y l IH ]; intros i Hi.
  - cbn. split; [ reflexivity | right; reflexivity ].
  - cbn [findIndexFrom upsert]. destruct (p y).
    + destruct (Z.leb_spec 0 i); [ | lia ].
      rewrite Z.sub_diag. cbn. split; [ reflexivity | left; lia ].
    + destruct (IH (i + 1)%Z ltac:(lia)) as [E Hr]. rewrite <- E.
      destruct (Z.leb_spec 0 (findIndexFrom p l (i + 1))) as [L | L].
      * destruct Hr as [Hr | Hr]; [ | lia ].
        replace (Z.to_nat (findIndexFrom p l (i + 1) - i))
          with (S (Z.to_nat (findIndexFrom p l (i + 1) - (i + 1))))
          by lia.
        cbn [setAt]. split; [ reflexivity | left; lia ].
      * cbn [app]. split; [ reflexivity | ].
        destruct Hr as [Hr | Hr]; [ lia | right; exact Hr ].
Qed.

Lemma findIndex_upsert {A} (p : A -> bool) (x : A) (l : list A) :
  (if (0 <=? findIndex p l)%Z
   then setAt l (Z.to_nat (findIndex p l)) x
   else l ++ [x])
  = upsert p x l.
Proof.
  unfold findIndex.
  destruct (findIndexFrom_upsert p x l 0 ltac:(lia)) as [E _].
  rewrite Z.sub_0_r in E. exact E.
Qed.

Section Upsert.
Variable dateId : string.
Variable record : SleepRecord.
Hypothesis record_id : id record = dateId.

Lemma find_upsert (l : list SleepRecord) :
  find (hasId dateId) (upsert (hasId dateId) record l) = Some record.
Proof.
  unfold hasId.
  induction l as [ | y l IH ]; cbn [upsert].
  - cbn [find]. rewrite record_id, String.eqb_refl. reflexivity.
  - destruct (String.eqb (id y) dateId) eqn:E; cbn [find].
    + rewrite record_id, String.eqb_refl. reflexivity.
    + rewrite E. exact IH.
Qed.

Lemma find_upsert_other (other : string) (l : list SleepRecord) :
  other <> dateId ->
  find (hasId other) (upsert (hasId dateId) record l)
  = find (hasId other) l.
Proof.
  unfold hasId.
  intros Hne.
  assert (Hr : String.eqb (id record) other = false).
  { rewrite record_id. apply String.eqb_neq.
    intros E. apply Hne. symmetry. exact E. }
  induction l as [ | y l IH ]; cbn [upsert].
  - cbn [find]. rewrite Hr. reflexivity.
  - destruct (String.eqb (id y) dateId) eqn:E; cbn [find].
    + rewrite Hr.
      assert (Hy : String.eqb (id y) other = false).
      { apply String.eqb_eq in E. rewrite E.
        apply String.eqb_neq. intros E'. apply Hne. symmetry. exact E'. }
      rewrite Hy. reflexivity.
    + destruct (String.eqb (id y) other); [ reflexivity | exact IH ].
Qed.

Lemma upsert_ids (l : list SleepRecord) :
  map id (upsert (hasId dateId) record l)
  = match find (hasId dateId) l with
    | Some _ => map id l
    | None => map id l ++ [dateId]
    end.
Proof.
  unfold hasId.
  induction l as [ | y l IH ]; cbn [upsert find map].
  - rewrite record_id. reflexivity.
  - destruct (String.eqb (id y) dateId) eqn:E; cbn [map].
    + rewrite record_id. apply String.eqb_eq in E.
      rewrite E. reflexivity.
    + rewrite IH. destruct (find _ l); reflexivity.
Qed.

Lemma upsert_NoDup (l : list SleepRecord) :
  NoDup (map id l) -> NoDup (map id (upsert (hasId dateId) record l)).
Proof.
  intros ND. rewrite upsert_ids.
  destruct (find _ l) eqn:F; [ exact ND | ].
  apply NoDup_app; [ exact ND | repeat constructor; intros [] | ].
  intros x Hx [Hy | []]. subst x.
  apply in_map_iff in Hx. destruct Hx as (r & Hr & Hin).
  apply (find_none _ _ F) in Hin. unfold hasId in Hin.
  rewrite Hr, String.eqb_refl in Hin. discriminate Hin.
Qed.

Lemma upsert_length (l : list SleepRecord) :
  List.length (upsert (hasId dateId) record l)
  = match find (hasId dateId) l with
    | Some _ => List.length l
    | None => S (List.length l)
    end.
Proof.
  rewrite <- (length_map id), upsert_ids.
  destruct (find _ l).
  - apply length_map.
  - rewrite length_app, length_map. cbn. lia.
Qed.

End Upsert.

(** X14.  When nobody is asleep (no bedtime stored, or an empty one),
    [endSleep] returns [null] and leaves the storage as it is. *)
Theorem endSleep_not_sleeping (time : Z) (random : Q)
    (store : LocalStorage) :
  truthy (currentBedtime (load store)) = false ->
  endSleep time random store = Some (store, None).
Proof.
  intros H. unfold endSleep. cbv zeta.
  destruct (currentBedtime (load store)); [ | reflexivity ].
  rewrite H. reflexivity.
Qed.

(** X15.  When a valid bedtime is stored and the storage accepts the
    write, [endSleep] returns a record whose id is the wake day and whose
    bedtime is the stored one; afterwards nobody is asleep, the record is
    the one found under its id, the records of other days are found as
    before, ids stay pairwise different, and the number of records grows
    by one unless the wake day already had a record, which is replaced.
    Alarm and achievements are untouched. *)
Theorem endSleep_stores_record (time : Z) (random : Q)
    (store : LocalStorage) (text : string) (bedtime0 : Z) :
  roomy ->
  currentBedtime (load store) = Some text ->
  text <> ""%string ->
  parseDate text = Some bedtime0 ->
  uniqueIds (load store) ->
  exists (record : SleepRecord) (store' : LocalStorage),
    endSleep time random store = Some (store', Some record)
    /\ id record = formatDate time
    /\ bedtime record = toISOString bedtime0
    /\ wakeTime record = toISOString time
    /\ isSleeping store' = false
    /\ getRecord (formatDate time) store' = Some record
    /\ (forall other, other <> formatDate time ->
           getRecord other store' = getRecord other store)
    /\ uniqueIds (load store')
    /\ List.length (getAllRecords store')
       = match getRecord (formatDate time) store with
         | Some _ => List.length (getAllRecords store)
         | None => S (List.length (getAllRecords store))
         end
    /\ getAlarm store' = getAlarm store
    /\ getAchievements store' = getAchievements store.
Proof.
  intros R Hbed Hne Hparse Huniq.
  unfold endSleep. cbv zeta. rewrite Hbed.
  assert (T : truthy (Some text) = true)
    by (destruct text; [ congruence | reflexivity ]).
  rewrite T. cbn [negb]. rewrite Hparse.
  rewrite findIndex_upsert. rewrite save_roomy by exact R.
  eexists _, _. split; [ reflexivity | ].
  unfold isSleeping, getRecord, getAllRecords, getAlarm, getAchievements,
    uniqueIds in *.
  cbv zeta. cbn [load id bedtime wakeTime records currentBedtime alarmTime
    achievements].
  repeat split.
  - apply find_upsert. reflexivity.
  - intros other Ho. apply find_upsert_other; [ reflexivity | exact Ho ].
  - apply upsert_NoDup; [ reflexivity | exact Huniq ].
  - apply upsert_length. reflexivity.
Qed.

End SleepRecords.

Section SleepSession.

Lemma round_near (x : Q) :
  x - 0.5 <= inject_Z (JS.round x) /\ inject_Z (JS.round x) <= x + 0.5.
Proof.
  unfold JS.round. split.
  - pose proof (Qlt_floor (x + 0.5)) as H.
    rewrite inject_Z_plus in H. change (inject_Z 1) with 1 in H. lra.
  - apply Qfloor_le.
Qed.

Lemma createRandom_int32 (seed : Z) :
  (- JS.two31 <= seed < JS.two31)%Z -> Random.createRandom seed = seed.
Proof.
  intros H. unfold Random.createRandom. rewrite bor_zero.
  apply ToInt32_small, H.
Qed.

(** X16.  The record [endSleep] returns for a valid stored bedtime has a
    duration that is a whole number of hundredths of an hour, within
    0.005 h of the time slept; it is not negative when the wake time is
    not before the bedtime, and it is negative when the wake time is more
    than 18 seconds before it.  Its seed is an integer from 0 to 999999,
    which the random source takes as its initial state unchanged. *)
Theorem endSleep_record_fields (time : Z) (random : Q)
    (store : LocalStorage) (text : string) (bedtime0 : Z) :
  currentBedtime (load store) = Some text ->
  text <> ""%string ->
  parseDate text = Some bedtime0 ->
  0 <= random < 1 ->
  exists (record : SleepRecord) (store' : LocalStorage) (k : Z),
    endSleep time random store = Some (store', Some record)
    /\ duration record = inject_Z k / 100
    /\ Qabs (duration record - inject_Z (time - bedtime0) / 3600000)
       <= 0.005
    /\ ((bedtime0 <= time)%Z -> 0 <= duration record)
    /\ ((time < bedtime0 - 18000)%Z -> duration record < 0)
    /\ (0 <= artSeed record < 1000000)%Z
    /\ Random.createRandom (artSeed record) = artSeed record.
Proof.
  intros Hbed Hne Hparse Hrnd.
  unfold endSleep. cbv zeta. rewrite Hbed.
  assert (T : truthy (Some text) = true)
    by (destruct text; [ congruence | reflexivity ]).
  rewrite T. cbn [negb]. rewrite Hparse.
  eexists _, _, _. split; [ reflexivity | ].
  cbn [duration artSeed].
  set (ms := inject_Z (time - bedtime0)).
  assert (Hx : ms / (1000 * 60 * 60) * 100 == ms / 3600000 * 100)
    by (unfold Qdiv; change (/ (1000 * 60 * 60)) with (/ 3600000);
        reflexivity).
  destruct (round_near (ms / (1000 * 60 * 60) * 100)) as [N1 N2].
  assert (Hseed : (0 <= floor (random * 1000000) < 1000000)%Z)
    by (apply (floor_index random 1000000 Hrnd); lia).
  split; [ reflexivity | ]. split; [ | split; [ | split; [ | split ] ] ].
  - apply Qabs_Qle_condition. revert N1 N2.
    generalize (inject_Z (JS.round (ms / (1000 * 60 * 60) * 100))).
    intros q. unfold Qdiv.
    change (/ (1000 * 60 * 60)) with (1 # 3600000).
    change (/ 3600000) with (1 # 3600000). change (/ 100) with (1 # 100).
    intros N1 N2. split; lra.
  - intros L.
    assert (0 <= ms) by (unfold ms; change 0 with (inject_Z 0);
                         rewrite <- Zle_Qle; lia).
    assert (0 <= inject_Z (JS.round (ms / (1000 * 60 * 60) * 100))).
    { change 0 with (inject_Z 0). rewrite <- Zle_Qle.
      unfold JS.round. change 0%Z with (Qfloor 0).
      apply Qfloor_resp_le. unfold Qdiv.
      change (/ (1000 * 60 * 60)) with (1 # 3600000). lra. }
    unfold Qdiv in *. change (/ 100) with (1 # 100). lra.
  - intros L.
    assert (ms < -18000).
    { unfold ms. change (-18000) with (inject_Z (-18000)).
      rewrite <- Zlt_Qlt. lia. }
    assert (JS.round (ms / (1000 * 60 * 60) * 100) < 0)%Z.
    { rewrite Zlt_Qlt. change (inject_Z 0) with 0.
      unfold Qdiv in *.
      change (/ (1000 * 60 * 60)) with (1 # 3600000) in *. lra. }
    assert (inject_Z (JS.round (ms / (1000 * 60 * 60) * 100)) <= -1).
    { change (-1) with (inject_Z (-1)). rewrite <- Zle_Qle. lia. }
    unfold Qdiv in *. change (/ 100) with (1 # 100). lra.
  - exact Hseed.
  - apply createRandom_int32. unfold JS.two31. lia.
Qed.

End SleepSession.

Section WriteRefused.

Lemma save_refused (data : Data) (store : LocalStorage) :
  (forall d, fits d = false) -> save data store = store.
Proof. intros F. unfold save. rewrite F. reflexivity. Qed.

(** X17.  When the storage refuses every write, no operation changes
    what is stored, but the callers are not told: [startSleep] still
    returns data with the bedtime set, [unlockAchievement] still returns
    [true] for an id that is not unlocked, and [endSleep] still returns
    the record while the stored bedtime stays, so the user is still
    asleep afterwards. *)
Theorem write_refused (time : Z) (random : Q) (timeStr achievementId0 : string)
    (store : LocalStorage) :
  (forall d, fits d = false) ->
  fst (startSleep time store) = store
  /\ currentBedtime (snd (startSleep time store)) = Some (toISOString time)
  /\ setAlarm timeStr store = store
  /\ clearAlarm store = store
  /\ unlockAchievement achievementId0 store
     = (store, negb (includes (getAchievements store) achievementId0))
  /\ (forall text bedtime0,
         currentBedtime (load store) = Some text -> text <> ""%string ->
         parseDate text = Some bedtime0 ->
         exists record,
           endSleep time random store = Some (store, Some record)
           /\ id record = formatDate time
           /\ isSleeping store = true).
Proof.
  intros F. unfold startSleep, setAlarm, clearAlarm, unlockAchievement,
    getAchievements. cbv zeta. cbn [fst snd currentBedtime].
  rewrite !save_refused by exact F.
  repeat split.
  - destruct (includes (achievements (load store)) achievementId0);
      reflexivity.
  - intros text bedtime0 Hbed Hne Hparse.
    unfold endSleep, isSleeping. cbv zeta. rewrite Hbed.
    assert (T : truthy (Some text) = true)
      by (destruct text; [ congruence | reflexivity ]).
    rewrite T. cbn [negb]. rewrite Hparse.
    rewrite save_refused by exact F.
    eexists. repeat split.
Qed.

(** X18.  Going to bed and getting up: when the storage accepts the
    writes and the host reads back the timestamp it wrote, [startSleep]
    at [t0] followed by [endSleep] at [t1] returns a record with the
    bedtime written at [t0] and a duration that is a whole number of
    hundredths of an hour within 0.005 h of [(t1 - t0)] in hours; the
    user is asleep in between and not afterwards, and the record is found
    under the id of the wake day.  A bedtime stored before [startSleep]
    is replaced. *)
Theorem sleep_then_wake (t0 t1 : Z) (random : Q) (store : LocalStorage) :
  roomy ->
  parseDate (toISOString t0) = Some t0 ->
  toISOString t0 <> ""%string ->
  let asleep := fst (startSleep t0 store) in
  isSleeping asleep = true
  /\ getAllRecords asleep = getAllRecords store
  /\ exists (record : SleepRecord) (store' : LocalStorage),
       endSleep t1 random asleep = Some (store', Some record)
       /\ bedtime record = toISOString t0
       /\ (exists k : Z, duration record = inject_Z k / 100)
       /\ Qabs (duration record - inject_Z (t1 - t0) / 3600000) <= 0.005
       /\ isSleeping store' = false
       /\ getRecord (formatDate t1) store' = Some record.
Proof.
  intros R Hrt Hne. cbv zeta. unfold startSleep. cbv zeta. cbn [fst].
  rewrite save_roomy by exact R.
  unfold isSleeping, getAllRecords. cbn [load currentBedtime records].
  split; [ reflexivity | ]. split; [ reflexivity | ].
  unfold endSleep. cbv zeta. cbn [load currentBedtime].
  assert (T : truthy (Some (toISOString t0)) = true)
    by (destruct (toISOString t0); [ congruence | reflexivity ]).
  rewrite T. cbn [negb]. rewrite Hrt.
  rewrite findIndex_upsert, save_roomy by exact R.
  eexists _, _. split; [ reflexivity | ].
  unfold getRecord. cbv zeta.
  cbn [load bedtime duration currentBedtime records].
  split; [ reflexivity | ].
  split; [ eexists; reflexivity | ].
  split; [ | split; [ reflexivity | apply find_upsert; reflexivity ] ].
  set (ms := inject_Z (t1 - t0)).
  destruct (round_near (ms / (1000 * 60 * 60) * 100)) as [N1 N2].
  apply Qabs_Qle_condition. revert N1 N2.
  generalize (inject_Z (JS.round (ms / (1000 * 60 * 60) * 100))).
  intros q. unfold Qdiv.
  change (/ (1000 * 60 * 60)) with (1 # 3600000).
  change (/ 3600000) with (1 # 3600000). change (/ 100) with (1 # 100).
  intros N1 N2. split; lra.
Qed.

End WriteRefused.

(* ================================================================ *)
(** ** Storage: statistics *)

Section Statistics.
Local Open Scope Z_scope.

Lemma streakLoop_records_only (fuel : nat) (today : Z) (data1 data2 : Data)
    (i streak0 : Z) :
  records data1 = records data2 ->
  streakLoop fuel today data1 i streak0
  = streakLoop fuel today data2 i streak0.
Proof.
  intros E. revert i streak0.
  induction fuel as [ | fuel IH ]; intros i streak0; [ reflexivity | ].
  cbn [streakLoop]. unfold recordedDaysAgo. cbv zeta. rewrite E.
  destruct (find _ (records data2)).
  - apply IH.
  - destruct (i =? 0); cbn [andb].
    + destruct (truthy (currentBedtime data1)),
        (truthy (currentBedtime data2)); apply IH.
    + reflexivity.
Qed.

Lemma streakLoop_bounds (fuel : nat) (today : Z) (data : Data)
    (i streak0 : Z) :
  streak0 <= streakLoop fuel today data i streak0
          <= streak0 + Z.of_nat fuel.
Proof.
  revert i streak0.
  induction fuel as [ | fuel IH ]; intros i streak0; cbn [streakLoop].
  - lia.
  - destruct (recordedDaysAgo today data i).
    + specialize (IH (i + 1) (streak0 + 1)). lia.
    + destruct ((i =? 0) && truthy (currentBedtime data)).
      * specialize (IH (i + 1) streak0). lia.
      * destruct (i =? 0); [ specialize (IH (i + 1) streak0) | ]; lia.
Qed.

Lemma streakLoop_run (n fuel : nat) (today : Z) (data : Data)
    (i streak0 : Z) :
  1 <= i -> (n < fuel)%nat ->
  (forall j, i <= j < i + Z.of_nat n ->
             recordedDaysAgo today data j = true) ->
  recordedDaysAgo today data (i + Z.of_nat n) = false ->
  streakLoop fuel today data i streak0 = streak0 + Z.of_nat n.
Proof.
  revert fuel i streak0.
  induction n as [ | n IH ]; intros fuel i streak0 Hi Hf Hrun Hend.
  - destruct fuel as [ | fuel ]; [ lia | ]. cbn [streakLoop].
    rewrite Z.add_0_r in Hend. rewrite Hend.
    destruct (Z.eqb_spec i 0); [ lia | ]. cbn [andb]. lia.
  - destruct fuel as [ | fuel ]; [ lia | ]. cbn [streakLoop].
    rewrite (Hrun i) by lia.
    rewrite (IH fuel (i + 1) (streak0 + 1)); try lia.
    + intros j Hj. apply Hrun. lia.
    + replace (i + 1 + Z.of_nat n) with (i + Z.of_nat (S n)) by lia.
      exact Hend.
Qed.

Lemma streakLoop_step (fuel : nat) (today : Z) (data : Data)
    (i streak0 : Z) :
  streakLoop (S fuel) today data i streak0
  = if recordedDaysAgo today data i
    then streakLoop fuel today data (i + 1) (streak0 + 1)
    else if (i =? 0) && truthy (currentBedtime data)
    then streakLoop fuel today data (i + 1) streak0
    else if (i =? 0)
    then streakLoop fuel today data (i + 1) streak0
    else streak0.
Proof. reflexivity. Qed.

Lemma streakLoop_year (today : Z) (data : Data) :
  0 <= streakLoop 365 today data 0 0 <= 365.
Proof.
  pose proof (streakLoop_bounds 365 today data 0 0) as H.
  change (0 + Z.of_nat 365) with 365 in H. exact H.
Qed.

(** X19.  [getStreak] is 0 when there are no records and otherwise a
    number from 0 to 365; it is computed from the records alone: whether
    the user is asleep (a bedtime is stored) makes no difference to it,
    nor do the alarm and the achievements. *)
Theorem getStreak_bounds (today : Z) (store : LocalStorage) :
  0 <= getStreak today store <= 365
  /\ (getAllRecords store = [] -> getStreak today store = 0)
  /\ (forall bedtime1 bedtime2 unlocked1 unlocked2 alarm1 alarm2,
         getStreak today
           (Some (mkData (getAllRecords store) bedtime1 unlocked1 alarm1))
         = getStreak today
             (Some (mkData (getAllRecords store) bedtime2 unlocked2
                      alarm2))).
Proof.
  unfold getStreak, getAllRecords. cbv zeta.
  split; [ | split ].
  - destruct (List.length (records (load store)) =? 0)%nat; [ lia | ].
    exact (streakLoop_year today (load store)).
  - intros E. rewrite E. reflexivity.
  - intros. unfold load, records.
    destruct (List.length _ =? 0)%nat; [ reflexivity | ].
    apply streakLoop_records_only. reflexivity.
Qed.

(** X20.  [getStreak] counts the unbroken run of recorded days ending
    yesterday, plus today when today has a record: if the [k] days before
    today all have a record and the day before them has none (with
    [k <= 363], so that the loop reaches it), the result is [k], or
    [k + 1] when today has a record too.  A missing record for today
    never breaks the run. *)
Theorem getStreak_counts_run (today : Z) (store : LocalStorage) (k : nat) :
  getAllRecords store <> [] ->
  (k <= 363)%nat ->
  (forall j, 1 <= j <= Z.of_nat k ->
             recordedDaysAgo today (load store) j = true) ->
  recordedDaysAgo today (load store) (Z.of_nat k + 1) = false ->
  getStreak today store
  = Z.of_nat k + (if recordedDaysAgo today (load store) 0 then 1 else 0).
Proof.
  intros Hne Hk Hrun Hend.
  assert (Hk' : (k < 364)%nat) by lia.
  assert (Hrun' : forall j, 0 + 1 <= j < 0 + 1 + Z.of_nat k ->
                            recordedDaysAgo today (load store) j = true)
    by (intros j Hj; apply Hrun; lia).
  assert (Hend' : recordedDaysAgo today (load store) (0 + 1 + Z.of_nat k)
                  = false)
    by (replace (0 + 1 + Z.of_nat k) with (Z.of_nat k + 1) by lia;
        exact Hend).
  assert (H1 : 1 <= 0 + 1) by lia.
  pose proof (streakLoop_run k 364 today (load store) (0 + 1) (0 + 1)
                H1 Hk' Hrun' Hend') as G1.
  pose proof (streakLoop_run k 364 today (load store) (0 + 1) 0
                H1 Hk' Hrun' Hend') as G0.
  unfold getStreak. cbv zeta. unfold getAllRecords in Hne.
  destruct (records (load store)) as [ | r rs ] eqn:E; [ congruence | ].
  change (List.length (r :: rs) =? 0)%nat with false. cbv iota.
  change 365%nat with (S 364). rewrite streakLoop_step.
  destruct (recordedDaysAgo today (load store) 0).
  - rewrite G1. ring.
  - change (0 =? 0) with true. cbv iota.
    destruct (truthy (currentBedtime (load store)));
      cbn [andb]; rewrite G0; ring.
Qed.

Lemma sliceFrom_all {A} (n : Z) (l : list A) :
  Z.of_nat (List.length l) <= n -> sliceFrom (- n) l = l.
Proof.
  intros H. unfold sliceFrom.
  destruct (Z.ltb_spec (- n) 0).
  - replace (Z.max (Z.of_nat (List.length l) + - n) 0) with 0 by lia.
    reflexivity.
  - assert (n = 0) by lia. subst n.
    assert (L : List.length l = 0%nat) by lia.
    destruct l; [ reflexivity | discriminate L ].
Qed.

Lemma sliceFrom_last {A} (n : Z) (l : list A) :
  0 < n <= Z.of_nat (List.length l) ->
  sliceFrom (- n) l = skipn (List.length l - Z.to_nat n) l.
Proof.
  intros H. unfold sliceFrom.
  destruct (Z.ltb_spec (- n) 0); [ | lia ].
  f_equal. lia.
Qed.

(** X21.  [getAverageDuration] is 0 when there are no records; otherwise
    it is a whole number of tenths within 0.05 of the exact mean of the
    durations it averages.  With [days] absent or 0 it averages all
    records, with [0 < days] the last [days] records, and all of them when
    [days] is at least their number. *)
Theorem getAverageDuration_mean (recs : list SleepRecord)
    (bed alarm : option string) (unlocked : list string) :
  let store l := Some (mkData l bed unlocked alarm) in
  (forall days, getAverageDuration days (store []) == 0)%Q
  /\ getAverageDuration (Some 0) (store recs)
     = getAverageDuration None (store recs)
  /\ (forall n, Z.of_nat (List.length recs) <= n ->
         getAverageDuration (Some n) (store recs)
         = getAverageDuration None (store recs))
  /\ (forall n, 0 < n <= Z.of_nat (List.length recs) ->
         getAverageDuration (Some n) (store recs)
         = getAverageDuration None
             (store (skipn (List.length recs - Z.to_nat n) recs)))
  /\ (recs <> [] ->
      (exists k : Z,
          getAverageDuration None (store recs) = (inject_Z k / 10)%Q)
      /\ (Qabs (getAverageDuration None (store recs) - meanDuration recs)
          <= 0.05)%Q).
Proof.
  cbv zeta. unfold getAverageDuration. cbv zeta. cbn [load records].
  split; [ | split; [ | split; [ | split ] ] ].
  - intros [ n | ]; [ | reflexivity ].
    destruct (n =? 0); [ reflexivity | ].
    unfold sliceFrom. cbn [List.length].
    destruct (- n <? 0); rewrite skipn_nil; reflexivity.
  - reflexivity.
  - intros n Hn. destruct (Z.eqb_spec n 0); [ reflexivity | ].
    rewrite sliceFrom_all by exact Hn. reflexivity.
  - intros n Hn. destruct (Z.eqb_spec n 0); [ lia | ].
    rewrite sliceFrom_last by exact Hn. reflexivity.
  - intros Hne. destruct recs as [ | r rs ]; [ congruence | ].
    cbn [List.length Nat.eqb]. split; [ eexists; reflexivity | ].
    unfold meanDuration.
    set (mean := (fold_left (fun sum r0 => sum + duration r0) (r :: rs) 0
                  / inject_Z (Z.of_nat (List.length (r :: rs))))%Q).
    change (fold_left (fun sum r0 => (sum + duration r0)%Q) (r :: rs) 0%Q
            / inject_Z (Z.of_nat (S (List.length rs))))%Q with mean.
    destruct (round_near (mean * 10)) as [N1 N2].
    clearbody mean. revert N1 N2.
    generalize (inject_Z (JS.round (mean * 10))). intros q N1 N2.
    apply Qabs_Qle_condition. unfold Qdiv.
    change (/ 10)%Q with (1 # 10)%Q. split; lra.
Qed.

End Statistics.

(* ================================================================ *)
(** ** The application: achievements *)

Section Achievements.

Variable recs : list SleepRecord.
Variable streak0 : Z.
Variable unlockedIds : list string.

Lemma checkOne_not_earned (state : LocalStorage * list string)
    (a : Achievement) :
  earned recs streak0 unlockedIds a = false ->
  checkOne recs streak0 unlockedIds state a = state.
Proof.
  unfold earned, checkOne. destruct state as [store toasts].
  destruct (negb (includes unlockedIds (achievementId a)));
    [ | reflexivity ].
  cbn [andb]. intros H. rewrite H. reflexivity.
Qed.

Lemma fold_check_none (l : list Achievement)
    (state : LocalStorage * list string) :
  (forall a, In a l -> earned recs streak0 unlockedIds a = false) ->
  fold_left (checkOne recs streak0 unlockedIds) l state = state.
Proof.
  revert state. induction l as [ | a l IH ]; intros state H;
    [ reflexivity | ].
  cbn [fold_left]. rewrite checkOne_not_earned by (apply H; left; reflexivity).
  apply IH. intros b Hb. apply H. right. exact Hb.
Qed.

Lemma fold_check (l : list Achievement) (store : LocalStorage)
    (toasts : list string) :
  roomy ->
  NoDup (map achievementId l) ->
  (forall a, In a l -> ~ In (achievementId a) toasts) ->
  getAchievements store = unlockedIds ++ toasts ->
  let result :=
    fold_left (checkOne recs streak0 unlockedIds) l (store, toasts) in
  snd result
  = toasts ++ map achievementId (filter (earned recs streak0 unlockedIds) l)
  /\ getAchievements (fst result) = unlockedIds ++ snd result
  /\ records (load (fst result)) = records (load store)
  /\ currentBedtime (load (fst result)) = currentBedtime (load store)
  /\ alarmTime (load (fst result)) = alarmTime (load store).
Proof.
  intros R. revert store toasts.
  induction l as [ | a l IH ]; intros store toasts ND Hfresh Hach; cbv zeta.
  - cbn [fold_left filter map fst snd]. rewrite app_nil_r. auto.
  - cbn [fold_left filter map]. inversion ND as [ | x xs Hnot ND' ]; subst.
    destruct (earned recs streak0 unlockedIds a) eqn:E.
    + unfold earned in E.
      apply andb_true_iff in E. destruct E as [E1 E2].
      assert (Hnew : includes (achievements (load store)) (achievementId a)
                     = false).
      { unfold getAchievements in Hach. rewrite Hach.
        apply not_true_is_false. intros Hin. apply includes_In in Hin.
        apply in_app_or in Hin. destruct Hin as [Hin | Hin].
        - apply includes_In in Hin. rewrite Hin in E1. discriminate E1.
        - apply (Hfresh a); [ left; reflexivity | exact Hin ]. }
      assert (Hstep : checkOne recs streak0 unlockedIds (store, toasts) a
                      = (Some (mkData (records (load store))
                                 (currentBedtime (load store))
                                 (achievements (load store)
                                  ++ [achievementId a])
                                 (alarmTime (load store))),
                         toasts ++ [achievementId a])).
      { unfold checkOne. rewrite E1, E2. unfold unlockAchievement.
        cbv zeta. rewrite Hnew. cbn [negb].
        rewrite save_roomy by exact R. reflexivity. }
      rewrite Hstep.
      destruct (IH (Some (mkData (records (load store))
                            (currentBedtime (load store))
                            (achievements (load store)
                             ++ [achievementId a])
                            (alarmTime (load store))))
                  (toasts ++ [achievementId a]) ND')
        as (I1 & I2 & I3 & I4 & I5).
      * intros b Hb Hin. apply in_app_or in Hin. destruct Hin as [Hin | Hin].
        -- apply (Hfresh b); [ right; exact Hb | exact Hin ].
        -- destruct Hin as [Hin | []]. apply Hnot. rewrite Hin.
           apply in_map. exact Hb.
      * unfold getAchievements in *. cbn [load achievements].
        rewrite Hach. rewrite app_assoc. reflexivity.
      * cbv zeta in I1, I2, I3, I4, I5.
        cbn [load records currentBedtime alarmTime] in I3, I4, I5.
        split; [ etransitivity; [ exact I1 | ];
                 rewrite <- app_assoc; reflexivity | ].
        split; [ exact I2 | ].
        split; [ exact I3 | ]. split; [ exact I4 | exact I5 ].
    + rewrite checkOne_not_earned by exact E.
      apply IH; [ exact ND' | | exact Hach ].
      intros b Hb. apply Hfresh. right. exact Hb.
Qed.

End Achievements.

Lemma achievement_ids_differ : NoDup (map achievementId ACHIEVEMENTS).
Proof.
  cbn [map ACHIEVEMENTS achievementId].
  repeat (constructor;
          [ cbn [In]; intros H;
            repeat (destruct H as [H | H]; [ discriminate H | ]);
            exact H | ]).
  constructor.
Qed.

Lemma getStreak_records_only (today : Z) (store1 store2 : LocalStorage) :
  records (load store1) = records (load store2) ->
  getStreak today store1 = getStreak today store2.
Proof.
  intros E. unfold getStreak. cbv zeta. rewrite E.
  destruct (List.length _ =? 0)%nat; [ reflexivity | ].
  apply streakLoop_records_only. exact E.
Qed.

(** X22.  When the storage accepts the writes, [checkAchievements]
    unlocks exactly the achievements that were not unlocked and whose test
    passes, appends their ids in table order to the unlocked list, and
    shows one toast for each of them; the records are untouched, and
    running it again right away unlocks nothing and shows no toast. *)
Theorem checkAchievements_unlocks (today : Z) (store : LocalStorage) :
  roomy ->
  let store' := fst (checkAchievements today store) in
  let toasts := snd (checkAchievements today store) in
  toasts
  = map achievementId
      (filter (earned (getAllRecords store) (getStreak today store)
                 (getAchievements store)) ACHIEVEMENTS)
  /\ getAchievements store' = getAchievements store ++ toasts
  /\ getAllRecords store' = getAllRecords store
  /\ isSleeping store' = isSleeping store
  /\ checkAchievements today store' = (store', []).
Proof.
  intros R. cbv zeta. unfold checkAchievements at 1 2 3 4 5 6. cbv zeta.
  destruct (fold_check (getAllRecords store) (getStreak today store)
              (getAchievements store) ACHIEVEMENTS store [] R
              achievement_ids_differ)
    as (Ht & Ha & Hr & Hb & _).
  { intros a _ []. }
  { rewrite app_nil_r. reflexivity. }
  set (result := fold_left _ ACHIEVEMENTS (store, [])) in *.
  cbn [app] in Ht.
  split; [ exact Ht | ]. split; [ exact Ha | ].
  split; [ exact Hr | ].
  split; [ unfold isSleeping; rewrite Hb; reflexivity | ].
  unfold checkAchievements. cbv zeta.
  assert (Hrecs : getAllRecords (fst result) = getAllRecords store)
    by exact Hr.
  fold result. rewrite Hrecs, Ha.
  rewrite (getStreak_records_only today (fst result) store Hr).
  apply fold_check_none. intros a Hin.
  unfold earned.
  destruct (includes (getAchievements store) (achievementId a)) eqn:E1.
  - assert (I : includes (getAchievements store ++ snd result)
                  (achievementId a) = true).
    { apply includes_In, in_or_app. left. apply includes_In. exact E1. }
    rewrite I. reflexivity.
  - destruct (check a (getAllRecords store) (getStreak today store)) eqn:E2.
    + assert (I : includes (getAchievements store ++ snd result)
                    (achievementId a) = true).
      { apply includes_In, in_or_app. right. rewrite Ht.
        apply in_map. apply filter_In. split; [ exact Hin | ].
        unfold earned. rewrite E1, E2. reflexivity. }
      rewrite I. reflexivity.
    + apply andb_false_r.
Qed.

Section AchievementsAndArt.
Import PALETTES.

Lemma passes_streak (recs : list SleepRecord) (k : Z) :
  passes "week_warrior" recs k = (7 <=? k)%Z
  /\ passes "two_week_master" recs k = (14 <=? k)%Z
  /\ passes "sleep_champion" recs k = (30 <=? k)%Z.
Proof. repeat split. Qed.

Lemma passes_count (recs : list SleepRecord) (k : Z) :
  passes "first_night" recs k = (1 <=? count recs)%Z
  /\ passes "art_collector" recs k = (10 <=? count recs)%Z
  /\ passes "gallery_master" recs k = (30 <=? count recs)%Z.
Proof. repeat split. Qed.

Lemma passes_bedtime (recs : list SleepRecord) (k : Z) :
  passes "early_bird" recs k
  = existsb (fun r => JS.ge (getHours (bedtime r)) 18
                      && JS.lt (getHours (bedtime r)) 22) recs
  /\ passes "night_owl" recs k
     = existsb (fun r => JS.ge (getHours (bedtime r)) 2
                         && JS.lt (getHours (bedtime r)) 6) recs.
Proof. split; reflexivity. Qed.

(** X23.  The streak thresholds of the achievements are those of the
    streak effects: for the same streak value and from any state of the
    context, the test of [week_warrior] passes exactly when [generate]
    paints the 36 segments of the rainbow ring and the test of
    [two_week_master] exactly when it paints the diamond; and a passing
    [sleep_champion] implies both, as a passing [gallery_master] implies
    [art_collector] and that one [first_night]. *)
Theorem achievements_match_streak_effects (w h : Z) (record : SleepRecord)
    (recs : list SleepRecord) (k : Z) (c : Context) :
  let ops := generated w h record (mkOptions (Some k)) in
  (passes "week_warrior" recs k = true
   <-> countShapes isRainbowSegment c ops = 36%nat)
  /\ (passes "two_week_master" recs k = true
      <-> countShapes isDiamond c ops = 1%nat)
  /\ (passes "sleep_champion" recs k = true ->
      passes "two_week_master" recs k = true
      /\ passes "week_warrior" recs k = true)
  /\ (passes "two_week_master" recs k = true ->
      passes "week_warrior" recs k = true)
  /\ (passes "gallery_master" recs k = true ->
      passes "art_collector" recs k = true)
  /\ (passes "art_collector" recs k = true ->
      passes "first_night" recs k = true).
Proof.
  cbv zeta. unfold generated. cbn [streakOf streak].
  destruct (pipeline_paints (inject_Z w) (inject_Z h) record k)
    as (_ & Hr & Hd).
  rewrite (paints_exactly _ _ _ c _ Hr), (paints_exactly _ _ _ c _ Hd).
  destruct (passes_streak recs k) as (P1 & P2 & P3).
  destruct (passes_count recs k) as (C1 & C2 & C3).
  rewrite P1, P2, P3, C1, C2, C3.
  destruct (Z.leb_spec 7 k), (Z.leb_spec 14 k), (Z.leb_spec 30 k),
    (Z.leb_spec 1 (count recs)), (Z.leb_spec 10 (count recs)),
    (Z.leb_spec 30 (count recs));
    repeat split; intros; try lia; try discriminate; try reflexivity.
Qed.

(** X24.  Bedtime achievements and palettes: a record drawn with the
    serene palette has a bedtime hour that passes the [early_bird] test,
    and a record whose bedtime hour passes the [night_owl] test is drawn
    with the latenight palette. *)
Theorem bedtime_achievements_and_palette (r : SleepRecord)
    (recs : list SleepRecord) (k : Z) :
  In r recs ->
  (selectPalette (bedtime r) = serene -> passes "early_bird" recs k = true)
  /\ (passes "night_owl" [r] k = true ->
      selectPalette (bedtime r) = latenight)
  /\ (passes "night_owl" [r] k = true -> passes "night_owl" recs k = true).
Proof.
  intros Hin.
  destruct (passes_bedtime recs k) as [E1 E2].
  destruct (passes_bedtime [r] k) as [_ E3].
  rewrite E1, E2, E3. cbn [existsb]. rewrite orb_false_r.
  unfold selectPalette, paletteOfHour. cbv zeta.
  destruct (getHours (bedtime r)) as [ hour | ] eqn:Eh; cbn [JS.ge JS.lt].
  - repeat split.
    + intros Hp. apply existsb_exists. exists r. split; [ exact Hin | ].
      rewrite Eh. cbn [JS.ge JS.lt].
      destruct (Z.leb_spec 20 hour), (Z.ltb_spec hour 22),
        (Z.leb_spec 22 hour), (Z.ltb_spec hour 0), (Z.leb_spec 0 hour),
        (Z.ltb_spec hour 2); cbn [andb orb] in Hp; try discriminate Hp;
        destruct (Z.leb_spec 18 hour); try lia; reflexivity.
    + intros Hp.
      destruct (Z.leb_spec 2 hour), (Z.ltb_spec hour 6);
        cbn [andb] in Hp; try discriminate Hp.
      destruct (Z.leb_spec 20 hour), (Z.ltb_spec hour 22),
        (Z.leb_spec 22 hour), (Z.ltb_spec hour 0), (Z.leb_spec 0 hour),
        (Z.ltb_spec hour 2); cbn [andb orb]; try lia; reflexivity.
    + intros Hp. apply existsb_exists. exists r. split; [ exact Hin | ].
      rewrite Eh. exact Hp.
  - cbn [andb orb]. repeat split; intros Hp; discriminate Hp.
Qed.

End AchievementsAndArt.

(* ================================================================ *)
(** ** The application: times shown *)

Section TimesShown.
Local Open Scope Z_scope.

Lemma floor_spec (x : Q) :
  (inject_Z (floor x) <= x)%Q /\ (x < inject_Z (floor x) + 1)%Q.
Proof.
  unfold floor. split; [ apply Qfloor_le | ].
  pose proof (Qlt_floor x) as H. rewrite inject_Z_plus in H. exact H.
Qed.

(** X26.  The duration shown under a picture: the hours are the whole
    hours and the minutes are between 0 and 60, the total being within
    half a minute of the duration.  The minutes can reach 60 (for 1.995 h
    the text is 1 hour 60 minutes), but not for a duration that is a
    whole number of hundredths of an hour, as [endSleep] stores it:
    then they are at most 59. *)
Theorem duration_parts (duration : Q) :
  let '(hours, minutes) := durationParts duration in
  (inject_Z hours <= duration)%Q
  /\ 0 <= minutes <= 60
  /\ (Qabs (inject_Z (hours * 60 + minutes) - duration * 60) <= 0.5)%Q
  /\ ((exists k : Z, duration == inject_Z k / 100)%Q -> minutes <= 59)
  /\ durationParts 1.995 = (1, 60).
Proof.
  unfold durationParts. cbv zeta.
  destruct (floor_spec duration) as [F1 F2].
  set (hours := floor duration) in *.
  destruct (round_near ((duration - inject_Z hours) * 60)) as [N1 N2].
  assert (M : 0 <= JS.round ((duration - inject_Z hours) * 60) <= 60).
  { apply round_between.
    - change (inject_Z 0) with 0%Q. lra.
    - change (inject_Z 60) with 60%Q. lra. }
  split; [ exact F1 | ]. split; [ exact M | ]. split; [ | split ].
  - apply Qabs_Qle_condition.
    rewrite inject_Z_plus, inject_Z_mult. change (inject_Z 60) with 60%Q.
    split; lra.
  - intros [k Hk].
    assert (Hj : 0 <= k - 100 * hours <= 99).
    { assert (inject_Z (100 * hours) <= inject_Z k)%Q.
      { rewrite inject_Z_mult. change (inject_Z 100) with 100%Q.
        rewrite Hk in F1. unfold Qdiv in F1.
        change (/ 100)%Q with (1 # 100)%Q in F1. lra. }
      assert (inject_Z k < inject_Z (100 * hours + 100))%Q.
      { rewrite inject_Z_plus, inject_Z_mult.
        change (inject_Z 100) with 100%Q.
        rewrite Hk in F2. unfold Qdiv in F2.
        change (/ 100)%Q with (1 # 100)%Q in F2. lra. }
      rewrite <- Zle_Qle in *. rewrite <- Zlt_Qlt in *. lia. }
    assert (JS.round ((duration - inject_Z hours) * 60) < 60); [ | lia ].
    rewrite Zlt_Qlt. change (inject_Z 60) with 60%Q.
    assert (inject_Z k <= inject_Z (100 * hours + 99))%Q
      by (rewrite <- Zle_Qle; lia).
    rewrite inject_Z_plus, inject_Z_mult in H.
    change (inject_Z 100) with 100%Q in H.
    change (inject_Z 99) with 99%Q in H.
    unfold Qdiv in Hk. change (/ 100)%Q with (1 # 100)%Q in Hk. lra.
  - reflexivity.
Qed.

End TimesShown.

(* ================================================================ *)
(** ** Date ids and clock texts can be read back *)

Section ReadBack.
Import JS.

Lemma digit_char (d : N) :
  (d < 10)%N -> N_of_ascii (ascii_of_N (48 + d)) = (48 + d)%N.
Proof. intros H. apply N_ascii_embedding. lia. Qed.

Lemma readDigits_digit (v d : N) (s : string) :
  (d < 10)%N ->
  readDigits v (String (ascii_of_N (48 + d)) s) = readDigits (10 * v + d) s.
Proof.
  intros H. cbn [readDigits]. rewrite digit_char by exact H.
  replace ((48 <=? 48 + d)%N && (48 + d <=? 57)%N) with true.
  - f_equal. lia.
  - symmetry. apply andb_true_iff. split; apply N.leb_le; lia.
Qed.

Lemma readDigits_digitsFuel (fuel : nat) (n : N) (acc : string) :
  (n < 2 ^ N.of_nat fuel)%N ->
  readDigits 0 (digitsFuel fuel n acc) = readDigits n acc.
Proof.
  revert n acc. induction fuel as [ | fuel IH ]; intros n acc H.
  - cbn [digitsFuel]. change (2 ^ N.of_nat 0)%N with 1%N in H.
    replace n with 0%N by lia. reflexivity.
  - cbn [digitsFuel].
    assert (Hm : (n mod 10 < 10)%N) by (apply N.mod_lt; lia).
    pose proof (N.div_mod n 10 ltac:(lia)) as Hdm.
    destruct (N.eqb_spec (n / 10) 0) as [E | E].
    + rewrite readDigits_digit by exact Hm. f_equal. lia.
    + rewrite IH.
      * rewrite readDigits_digit by exact Hm. f_equal. lia.
      * rewrite Nat2N.inj_succ, N.pow_succ_r' in H.
        apply N.Div0.div_lt_upper_bound; lia.
Qed.

Lemma digitsFuel_append (fuel : nat) (n : N) (acc rest : string) :
  (digitsFuel fuel n acc ++ rest)%string
  = digitsFuel fuel n (acc ++ rest)%string.
Proof.
  revert n acc. induction fuel as [ | fuel IH ]; intros n acc;
    cbn [digitsFuel]; [ reflexivity | ].
  destruct (N.eqb (n / 10) 0); [ reflexivity | ].
  rewrite IH. reflexivity.
Qed.

Lemma readDigits_showN (n : N) (rest : string) :
  readDigits 0 (showN n ++ rest)%string = readDigits n rest.
Proof.
  unfold showN. rewrite digitsFuel_append. cbn [String.append].
  apply readDigits_digitsFuel.
  rewrite Nat2N.inj_succ, N2Nat.id.
  destruct n as [ | p ]; [ reflexivity | ].
  apply N.log2_spec. reflexivity.
Qed.

Lemma fill_append (k : nat) (c : ascii) (s rest : string) :
  (fill k c s ++ rest)%string = fill k c (s ++ rest)%string.
Proof.
  induction k as [ | k IH ]; cbn [fill String.append];
    [ reflexivity | ].
  rewrite IH. reflexivity.
Qed.

Lemma readDigits_fill (k : nat) (s : string) :
  readDigits 0 (fill k "0" s) = readDigits 0 s.
Proof.
  induction k as [ | k IH ]; cbn [fill]; [ reflexivity | ].
  cbn [readDigits]. exact IH.
Qed.

Lemma String_of_nonneg (n : Z) :
  (0 <= n)%Z -> String_of n = showN (Z.to_N n).
Proof. intros H. destruct n; [ reflexivity | reflexivity | lia ]. Qed.

Lemma readDigits_padded (n : Z) (width : nat) (rest : string) :
  (0 <= n)%Z ->
  readDigits 0 (padStart (String_of n) width "0" ++ rest)%string
  = readDigits (Z.to_N n) rest.
Proof.
  intros H. unfold padStart.
  rewrite fill_append, readDigits_fill, String_of_nonneg by exact H.
  apply readDigits_showN.
Qed.

Lemma readDigits_plain (n : Z) (rest : string) :
  (0 <= n)%Z ->
  readDigits 0 (String_of n ++ rest)%string = readDigits (Z.to_N n) rest.
Proof.
  intros H. rewrite String_of_nonneg by exact H. apply readDigits_showN.
Qed.

Lemma append_empty (s : string) : (s ++ "")%string = s.
Proof. induction s as [ | c s IH ]; cbn; [ | rewrite IH ]; reflexivity. Qed.

Lemma calendarDateId_read (y m d : Z) :
  (0 <= y)%Z -> (0 <= m + 1)%Z -> (0 <= d)%Z ->
  exists text1 text2,
    readDigits 0 (calendarDateId y m d)
    = (Z.to_N y, String "-" text1)
    /\ readDigits 0 text1 = (Z.to_N (m + 1), String "-" text2)
    /\ readDigits 0 text2 = (Z.to_N d, EmptyString).
Proof.
  intros Hy Hm Hd. unfold calendarDateId.
  eexists _, _. split; [ | split ].
  - rewrite readDigits_plain by exact Hy. cbn [String.append readDigits].
    reflexivity.
  - rewrite readDigits_padded by exact Hm. cbn [String.append readDigits].
    reflexivity.
  - rewrite <- (append_empty (padStart (String_of d) 2 "0")).
    rewrite readDigits_padded by exact Hd. reflexivity.
Qed.

Lemma calendarDateId_inj (y m d y' m' d' : Z) :
  (0 <= y)%Z -> (0 <= m + 1)%Z -> (0 <= d)%Z ->
  (0 <= y')%Z -> (0 <= m' + 1)%Z -> (0 <= d')%Z ->
  calendarDateId y m d = calendarDateId y' m' d' ->
  y = y' /\ m = m' /\ d = d'.
Proof.
  intros Hy Hm Hd Hy' Hm' Hd' E.
  destruct (calendarDateId_read y m d Hy Hm Hd)
    as (t1 & t2 & R1 & R2 & R3).
  destruct (calendarDateId_read y' m' d' Hy' Hm' Hd')
    as (t1' & t2' & R1' & R2' & R3').
  rewrite E, R1' in R1. injection R1 as Ey Et1. subst t1'.
  rewrite R2' in R2. injection R2 as Em Et2. subst t2'.
  rewrite R3' in R3. injection R3 as Ed.
  lia.
Qed.

Lemma formatDate_calendar (date y m d : Z) :
  localDate date = (y, m, d) -> formatDate date = calendarDateId y m d.
Proof.
  intros E. unfold formatDate, calendarDateId. rewrite E. reflexivity.
Qed.

(** X27.  The id written for a day can be read back: for years, months
    and days that are not negative, two days get the same id only when
    year, month and day agree, and the id [formatDate] gives a date is
    the id the calendar computes for that date's year, month and day. *)
Theorem date_ids_distinguish_days (date y m d y' m' d' : Z) :
  (0 <= y)%Z -> (0 <= m)%Z -> (0 <= d)%Z ->
  (0 <= y')%Z -> (0 <= m')%Z -> (0 <= d')%Z ->
  (calendarDateId y m d = calendarDateId y' m' d'
   <-> y = y' /\ m = m' /\ d = d')
  /\ (localDate date = (y, m, d) ->
      formatDate date = calendarDateId y m d).
Proof.
  intros Hy Hm Hd Hy' Hm' Hd'. split; [ split | ].
  - apply calendarDateId_inj; lia.
  - intros (E1 & E2 & E3). subst. reflexivity.
  - apply formatDate_calendar.
Qed.

(** X28.  After [endSleep] has stored a record (valid bedtime, writes
    accepted), the calendar cell of the wake day finds that record, and
    the cell of any other day finds what it found before. *)
Theorem calendar_finds_record (time : Z) (random : Q)
    (store : LocalStorage) (text : string) (bedtime0 y m d : Z) :
  roomy ->
  currentBedtime (load store) = Some text ->
  text <> ""%string ->
  parseDate text = Some bedtime0 ->
  localDate time = (y, m, d) ->
  (0 <= y)%Z -> (0 <= m)%Z -> (0 <= d)%Z ->
  exists (record : SleepRecord) (store' : LocalStorage),
    endSleep time random store = Some (store', Some record)
    /\ getRecord (calendarDateId y m d) store' = Some record
    /\ (forall y' m' d',
           (0 <= y')%Z -> (0 <= m')%Z -> (0 <= d')%Z ->
           (y', m', d') <> (y, m, d) ->
           getRecord (calendarDateId y' m' d') store'
           = getRecord (calendarDateId y' m' d') store).
Proof.
  intros R Hbed Hne Hparse Hdate Hy Hm Hd.
  pose proof (formatDate_calendar time y m d Hdate) as Hid.
  unfold endSleep. cbv zeta. rewrite Hbed.
  assert (T : truthy (Some text) = true)
    by (destruct text; [ congruence | reflexivity ]).
  rewrite T. cbn [negb]. rewrite Hparse.
  rewrite findIndex_upsert, save_roomy by exact R.
  eexists _, _. split; [ reflexivity | ].
  unfold getRecord. cbv zeta. cbn [load records]. rewrite Hid. split.
  - apply find_upsert. reflexivity.
  - intros y' m' d' Hy' Hm' Hd' Hdiff.
    apply find_upsert_other; [ reflexivity | ].
    intros E. apply Hdiff.
    apply calendarDateId_inj in E; try lia.
    destruct E as (E1 & E2 & E3). subst. reflexivity.
Qed.

Lemma formatTime_read (hours minutes : Z) :
  (0 <= hours)%Z -> (0 <= minutes)%Z ->
  exists text,
    readDigits 0 (formatTime hours minutes)
    = (Z.to_N hours, String ":" text)
    /\ readDigits 0 text = (Z.to_N minutes, EmptyString).
Proof.
  intros Hh Hm. unfold formatTime. cbv zeta.
  eexists. split.
  - rewrite readDigits_padded by exact Hh. cbn [String.append readDigits].
    reflexivity.
  - rewrite <- (append_empty (padStart (String_of minutes) 2 "0")).
    rewrite readDigits_padded by exact Hm. reflexivity.
Qed.

Lemma formatTime_inj (h m h' m' : Z) :
  (0 <= h)%Z -> (0 <= m)%Z -> (0 <= h')%Z -> (0 <= m')%Z ->
  formatTime h m = formatTime h' m' -> h = h' /\ m = m'.
Proof.
  intros Hh Hm Hh' Hm' E.
  destruct (formatTime_read h m Hh Hm) as (t & R1 & R2).
  destruct (formatTime_read h' m' Hh' Hm') as (t' & R1' & R2').
  rewrite E, R1' in R1. injection R1 as Eh Et. subst t'.
  rewrite R2' in R2. injection R2 as Em. lia.
Qed.

(** X29.  With an alarm set to the clock text of [h':m'], the
    once-a-second check triggers the alarm exactly when the user is
    asleep, the alarm is not ringing yet, the local hour and minute are
    [h'] and [m'], and the seconds are below 2; it never triggers while
    the alarm rings or when nobody is asleep. *)
Theorem alarmDue_exact (ringing : bool) (h m seconds h' m' : Z)
    (store : LocalStorage) :
  (0 <= h)%Z -> (0 <= m)%Z -> (0 <= h')%Z -> (0 <= m')%Z ->
  alarmTime (load store) = Some (formatTime h' m') ->
  (alarmDue ringing h m seconds store = true
   <-> isSleeping store = true /\ ringing = false
       /\ h = h' /\ m = m' /\ (seconds < 2)%Z).
Proof.
  intros Hh Hm Hh' Hm' Halarm.
  assert (Hget : getAlarm store = Some (formatTime h' m')).
  { unfold getAlarm. cbv zeta. rewrite Halarm.
    destruct (formatTime_read h' m' Hh' Hm') as (t & R1 & _).
    destruct (formatTime h' m') as [ | c s ]; [ discriminate R1 | ].
    reflexivity. }
  unfold alarmDue. rewrite Hget.
  change (padStart (String_of h) 2 "0" ++ ":"
          ++ padStart (String_of m) 2 "0")%string with (formatTime h m).
  destruct (isSleeping store), ringing; cbn [negb orb].
  - split; [ discriminate | intros (_ & H & _); discriminate H ].
  - rewrite andb_true_iff, String.eqb_eq, Z.ltb_lt. split.
    + intros [E L]. apply formatTime_inj in E; try assumption.
      destruct E. auto.
    + intros (_ & _ & E1 & E2 & L). subst. auto.
  - split; [ discriminate | intros (H & _); discriminate H ].
  - split; [ discriminate | intros (H & _); discriminate H ].
Qed.

End ReadBack.

End Engine.

(* ================================================================== *)
(** ** Determinism *)

Section Determinism.
Import PALETTES.

(** The built-ins of two hosts that agree on [Math.sin], [Math.PI] and
    the printing of Numbers, and may be in different time zones. *)
Variable sin : Q -> Q.
Variable PI : Q.
Variable show : Q -> string.
Variables getHours1 getHours2 : string -> JS.jsint.

(** The first call of [generate] sets a gradient made of the first two
    entries of the palette. *)
Lemma generated_starts (getHours : string -> JS.jsint) (w h : Z)
    (record : SleepRecord) (options : RenderOptions) :
  exists cx cy radius rest,
    generated sin PI show getHours w h record options
    = SetFillStyle
        (RadialGradient cx cy 0 cx cy radius
           [(0, orElse (at_ (selectPalette getHours (bedtime record)) 1)
                  "#1a1a4e");
            (0.5, orElse (at_ (selectPalette getHours (bedtime record)) 0)
                    "#0a0a2e");
            (1, "#050510"%string)])
      :: rest.
Proof.
  unfold generated, pipeline. cbv zeta.
  rewrite drawnBy_bind. unfold drawBackground.
  rewrite !drawnBy_rand_bind. cbv beta zeta. rewrite drawnBy_ctx_bind.
  cbn [app]. eexists _, _, _, _. reflexivity.
Qed.

Lemma palette_from_first_entries (p1 p2 : Palette) :
  (p1 = serene \/ p1 = twilight \/ p1 = midnight \/ p1 = latenight) ->
  (p2 = serene \/ p2 = twilight \/ p2 = midnight \/ p2 = latenight) ->
  orElse (at_ p1 1) "#1a1a4e" = orElse (at_ p2 1) "#1a1a4e" ->
  p1 = p2.
Proof.
  intros [E1 | [E1 | [E1 | E1]]] [E2 | [E2 | [E2 | E2]]] H; subst p1 p2;
    first [ reflexivity | discriminate H ].
Qed.

Lemma same_calls_same_palette (w1 h1 w2 h2 : Z)
    (record1 record2 : SleepRecord) (options1 options2 : RenderOptions) :
  generated sin PI show getHours1 w1 h1 record1 options1
  = generated sin PI show getHours2 w2 h2 record2 options2 ->
  selectPalette getHours1 (bedtime record1)
  = selectPalette getHours2 (bedtime record2).
Proof.
  intros H.
  destruct (generated_starts getHours1 w1 h1 record1 options1)
    as (cx1 & cy1 & radius1 & rest1 & E1).
  destruct (generated_starts getHours2 w2 h2 record2 options2)
    as (cx2 & cy2 & radius2 & rest2 & E2).
  rewrite E1, E2 in H. injection H. intros.
  apply palette_from_first_entries;
    [ apply selectPalette_cases | apply selectPalette_cases | assumption ].
Qed.

Lemma same_palette_same_calls (w h : Z)
    (record1 record2 : SleepRecord) (options1 options2 : RenderOptions) :
  JS.ToInt32 (artSeed record1) = JS.ToInt32 (artSeed record2) ->
  duration record1 = duration record2 ->
  streakOf options1 = streakOf options2 ->
  selectPalette getHours1 (bedtime record1)
  = selectPalette getHours2 (bedtime record2) ->
  generated sin PI show getHours1 w h record1 options1
  = generated sin PI show getHours2 w h record2 options2.
Proof.
  intros Hseed Hdur Hstreak Hpalette.
  unfold generated, pipeline, Random.createRandom. cbv zeta.
  rewrite !bor_zero, Hseed, Hdur, Hstreak, Hpalette. reflexivity.
Qed.

(** C1 (amended).  The calls [generate] makes are a function of the seed
    (as an int32), the duration, the streak (an absent streak counting as
    0), the size of the canvas and the palette, which is chosen from the
    local hour of the bedtime on the host: two runs that agree on seed,
    duration, streak and size, on hosts with the same [Math.sin] and
    printing of Numbers, make the same calls exactly when they select the
    same palette.  So two runs on the same tuple with the same local
    bedtime hour make the same calls, whatever the other fields of the
    record, and from equal surfaces leave equal surfaces; and two runs on
    the same tuple on hosts whose time zones put the bedtime in different
    palette ranges do not. *)
Theorem generate_deterministic
    (canvas1 canvas2 : Canvas) (record1 record2 : SleepRecord)
    (options1 options2 : RenderOptions) :
  JS.ToInt32 (artSeed record1) = JS.ToInt32 (artSeed record2) ->
  duration record1 = duration record2 ->
  streakOf options1 = streakOf options2 ->
  width canvas1 = width canvas2 ->
  height canvas1 = height canvas2 ->
  let palette1 := selectPalette getHours1 (bedtime record1) in
  let palette2 := selectPalette getHours2 (bedtime record2) in
  let calls1 :=
    generated sin PI show getHours1 (width canvas1) (height canvas1)
      record1 options1 in
  let calls2 :=
    generated sin PI show getHours2 (width canvas2) (height canvas2)
      record2 options2 in
  (calls1 = calls2 <-> palette1 = palette2)
  /\ (bedtime record1 = bedtime record2 ->
      getHours1 (bedtime record1) = getHours2 (bedtime record1) ->
      calls1 = calls2)
  /\ (palette1 = palette2 -> surface canvas1 = surface canvas2 ->
      generate sin PI show getHours1 canvas1 record1 options1
      = generate sin PI show getHours2 canvas2 record2 options2).
Proof.
  intros Hseed Hdur Hstreak Hw Hh. cbv zeta. rewrite <- Hw, <- Hh.
  assert (Same : selectPalette getHours1 (bedtime record1)
                 = selectPalette getHours2 (bedtime record2) ->
                 generated sin PI show getHours1 (width canvas1)
                   (height canvas1) record1 options1
                 = generated sin PI show getHours2 (width canvas1)
                     (height canvas1) record2 options2).
  { apply same_palette_same_calls; assumption. }
  split; [ split; [ apply same_calls_same_palette | exact Same ] | ].
  split.
  - intros Hbed Hhour. apply Same. unfold selectPalette.
    rewrite <- Hbed, Hhour. reflexivity.
  - intros Hpalette Hsurface. unfold generate. cbv zeta.
    rewrite <- Hw, <- Hh, Hsurface, (Same Hpalette). reflexivity.
Qed.

End Determinism.

(* ================================================================== *)
(** ** The engine on concrete inputs *)

Local Open Scope string_scope.

(** The same night stored under two ids, rendered on one host on two
    canvases of the same size, one of them drawn on before. *)
Lemma generate_deterministic_witness :
  generated Host.sin Host.PI Host.show Host.getHours
    (width Sample.blank) (height Sample.blank)
    Sample.record Sample.noOptions
  = generated Host.sin Host.PI Host.show Host.getHours
      (width Sample.painted) (height Sample.painted)
      Sample.sameNight Sample.noStreak.
Proof.
  apply (generate_deterministic Host.sin Host.PI Host.show
           Host.getHours Host.getHours
           Sample.blank Sample.painted Sample.record Sample.sameNight
           Sample.noOptions Sample.noStreak); reflexivity.
Defined.

(** C1 as stated fails: the same tuple on the same canvas gives other
    calls on a host nine hours east, where the bedtime of 21:30 UTC is
    06:30 local time and the palette is no longer the serene one. *)
Lemma generate_depends_on_time_zone :
  selectPalette Host.getHours (bedtime Sample.record) = PALETTES.serene
  /\ selectPalette Host.getHoursEast (bedtime Sample.record)
     = PALETTES.latenight
  /\ generated Host.sin Host.PI Host.show Host.getHours
       (width Sample.blank) (height Sample.blank)
       Sample.record Sample.noOptions
     <> generated Host.sin Host.PI Host.show Host.getHoursEast
          (width Sample.blank) (height Sample.blank)
          Sample.record Sample.noOptions.
Proof.
  split; [ reflexivity | ]. split; [ reflexivity | ].
  intros H. apply same_calls_same_palette in H. discriminate H.
Qed.

Lemma quality_metric_witness : (quality 9 < quality 8)%Q.
Proof.
  destruct quality_metric as (_ & _ & _ & _ & _ & _ & _ & _ & Hstrict).
  apply Hstrict; vm_compute; discriminate.
Defined.

(** C4 as stated fails: 3.500000000000002 and 3.5000000000000018 are two
    Numbers at different distances from 7.5, both within the clamp, and
    the farther one does not have the smaller quality: both have
    quality 0.2000000000000004. *)
Lemma quality_not_strict :
  let d1 := JS.round64 3.500000000000002 in
  let d2 := JS.round64 3.5000000000000018 in
  (Qabs (d1 - 7.5) < Qabs (d2 - 7.5))%Q
  /\ (Qabs (d2 - 7.5) <= 5)%Q
  /\ (quality d2 == quality d1)%Q
  /\ (quality d1 == JS.round64 0.2000000000000004)%Q
  /\ ~ (quality d2 < quality d1)%Q.
Proof.
  cbv zeta.
  repeat split; try (vm_compute; reflexivity); vm_compute; discriminate.
Qed.



Lemma selectPalette_by_hour_witness :
  selectPalette Host.getHours "2024-01-14T21:30:00.000Z" = PALETTES.serene.
Proof.
  destruct (selectPalette_by_hour Host.getHours
              "2024-01-14T21:30:00.000Z" 21 eq_refl ltac:(lia))
    as (_ & _ & _ & _ & H21 & _).
  apply H21. reflexivity.
Defined.

Lemma selectPalette_total_witness :
  selectPalette Host.getHours "yesterday" = PALETTES.latenight.
Proof.
  destruct (selectPalette_total Host.getHours "yesterday") as [_ Hnan].
  apply Hnan. reflexivity.
Defined.

Lemma color_utilities_malformed_witness :
  withAlpha Host.show "#zzzzzz" 0.5 = "rgba(NaN, NaN, NaN, 0.5)"%string.
Proof.
  destruct (color_utilities_malformed Host.show
              "#zzzzzz" "#zzzzzz" "#ffffff" 0.5 0.5)
    as [(r & g & b & E & Hr & Hg & Hb) _].
  rewrite E, Hr, Hg, Hb by reflexivity. reflexivity.
Defined.

(** C3 as stated fails: the channels of [#zzzzzz] do not parse, they are
    NaN and not zero, and both utilities print them as [NaN]. *)
Lemma malformed_channel_is_not_zero :
  channels "#zzzzzz" = (JS.NaN, JS.NaN, JS.NaN)
  /\ withAlpha Host.show "#zzzzzz" 0.5 = "rgba(NaN, NaN, NaN, 0.5)"%string
  /\ withAlpha Host.show "#zzzzzz" 0.5 <> "rgba(0, 0, 0, 0.5)"%string
  /\ lerpColor "#zzzzzz" "#ffffff" 0.5 = "rgb(NaN, NaN, NaN)"%string
  /\ lerpColor "#zzzzzz" "#ffffff" 0.5
     <> lerpColor "#000000" "#ffffff" 0.5.
Proof.
  repeat split; try reflexivity; vm_compute; discriminate.
Qed.

Lemma orb_count_witness :
  Z.of_nat
    (countShapes isOrb Sample.fresh
       (drawnBy
          (drawOrbs Host.PI Host.show 400 400 PALETTES.serene 8 (quality 8))
          12345))
  = 25%Z.
Proof.
  destruct (orb_count Host.PI Host.show 400 400 PALETTES.serene 8
              (quality 8) Sample.fresh 12345) as (_ & Hcount & _).
  rewrite Hcount; [ reflexivity | vm_compute; discriminate ].
Defined.

(** C9 as stated fails for a duration of -4 hours: [5 + floor(-4 * 2.5)]
    is -5 and the loop paints nothing. *)
Lemma orb_count_negative_duration :
  (5 + floor (JS.times (-4) 2.5) = -5)%Z
  /\ drawnBy
       (drawOrbs Host.PI Host.show 400 400 PALETTES.serene (-4)
          (quality (-4)))
       12345
     = []
  /\ Z.of_nat
       (countShapes isOrb Sample.fresh
          (drawnBy
             (drawOrbs Host.PI Host.show 400 400 PALETTES.serene (-4)
                (quality (-4)))
             12345))
     <> (5 + floor (JS.times (-4) 2.5))%Z.
Proof.
  repeat split; try reflexivity. vm_compute. discriminate.
Qed.

(** *** Examples *)

Example increment_is_0x6d2b79f5 : 1831565813%Z = 0x6d2b79f5%Z.
Proof. reflexivity. Qed.

Example first_draw_of_seed_0 :
  Random.draw 0 0 == inject_Z 1144304738 / inject_Z 4294967296.
Proof. reflexivity. Qed.

Example parseInt16_ff : JS.parseInt16 "ff" = Some 255%Z.
Proof. reflexivity. Qed.

Example parseInt16_prefix : JS.parseInt16 "1z" = Some 1%Z.
Proof. reflexivity. Qed.

Example parseInt16_zz : JS.parseInt16 "zz" = JS.NaN.
Proof. reflexivity. Qed.

Example withAlpha_palette_entry :
  withAlpha Host.show "#3f51b5" 0.15 = "rgba(63, 81, 181, 0.15)"%string.
Proof. reflexivity. Qed.

Example lerpColor_midpoint :
  lerpColor "#000000" "#ffffff" 0.5 = "rgb(128, 128, 128)"%string.
Proof. reflexivity. Qed.

(** Products that round up to a whole number: at these durations the
    Number product reaches the integer that the exact product misses, and
    the layers draw one orb, spoke and star more. *)
Example orbs_of_a_rounded_product :
  let d := JS.round64 3.5999999999999996 in
  (floor (d * 2.5) = 8 /\ floor (JS.times d 2.5) = 9)%Z.
Proof. split; vm_compute; reflexivity. Qed.

Example spokes_of_a_rounded_quality :
  let d := JS.round64 3.1249999999999996 in
  (quality d == 0.125)%Q /\ floor (JS.times (quality d) 8) = 1%Z.
Proof. split; vm_compute; reflexivity. Qed.

Example stars_of_a_rounded_product :
  let c := Qmin 1 (JS.over (JS.round64 0.08333333333333333) 10) in
  (floor (c * 120) = 0 /\ floor (JS.times c 120) = 1)%Z.
Proof. split; vm_compute; reflexivity. Qed.

Example streak_20_caps_glows :
  countShapes isGoldGlow Sample.fresh
    (drawnBy (drawStreakEffect Host.PI Host.show 40 40 PALETTES.serene 30)
       12345)
  = 20%nat.
Proof. vm_compute. reflexivity. Qed.

(* ================================================================== *)
(** ** The sleeping clock *)

Section ElapsedClock.
Local Open Scope Z_scope.

(** X25.  For an elapsed time of [e >= 0] milliseconds the sleeping
    clock shows whole hours, minutes below 60 and seconds below 60 that
    add up to the whole seconds elapsed. *)
Theorem elapsed_parts (elapsed : Z) :
  0 <= elapsed ->
  let '(hours, minutes, seconds) := elapsedParts elapsed in
  0 <= hours /\ 0 <= minutes < 60 /\ 0 <= seconds < 60
  /\ hours * 3600 + minutes * 60 + seconds = elapsed / 1000.
Proof.
  intros H. unfold elapsedParts. cbv zeta.
  rewrite !Z.rem_mod_nonneg by lia.
  change (1000 * 60 * 60) with 3600000. change (1000 * 60) with 60000.
  Z.to_euclidean_division_equations. lia.
Qed.

End ElapsedClock.

(* ================================================================== *)
(** ** Storage and application on concrete inputs *)

Lemma roomy_host : roomy Host.fits.
Proof. intros data. reflexivity. Defined.

Lemma random_seed_wraps_witness : Random.createRandom 12345 = 12345%Z.
Proof.
  destruct (random_seed_wraps 12345 0 0) as (_ & Hint32 & _).
  apply Hint32. unfold JS.two31. lia.
Defined.

Lemma aurora_curves_witness :
  (3 <= countOps isClosePath
          (drawnBy (drawAurora Host.sin Host.PI Host.show (inject_Z 400) 400
                      PALETTES.serene (complexity 7.5) (quality 7.5))
             12345) <= 7)%nat.
Proof.
  apply (aurora_curves Host.sin Host.PI Host.show 400 400 PALETTES.serene
           7.5 12345); [ vm_compute; discriminate | lia ].
Defined.

Lemma stars_count_witness :
  (30 <= countShapes isDisc Sample.fresh
           (drawnBy (drawStars Host.PI Host.show 400 400 0.75) 12345)
      <= 150)%nat.
Proof.
  apply (stars_count Host.PI Host.show 400 400 0.75 Sample.fresh 12345).
  split; vm_compute; discriminate.
Defined.

Lemma withAlpha_well_formed_witness :
  exists r g b : Z,
    (0 <= r <= 255 /\ 0 <= g <= 255 /\ 0 <= b <= 255)%Z
    /\ channels "#3f51b5" = (Some r, Some g, Some b)
    /\ withAlpha Host.show "#3f51b5" 0.15
       = "rgba(" ++ JS.showInt (Some r) ++ ", " ++ JS.showInt (Some g)
           ++ ", " ++ JS.showInt (Some b) ++ ", " ++ Host.show 0.15 ++ ")".
Proof.
  destruct (withAlpha_well_formed Host.show "#3f51b5" 0.15 eq_refl)
    as (r & g & b & Hr & Hg & Hb & E & W).
  exists r, g, b. repeat split; try apply Hr; try apply Hg; try apply Hb;
    assumption.
Defined.

Lemma lerpColor_well_formed_witness :
  lerpColor "#1a1a4e" "#b3e5fc" 0 = "rgb(26, 26, 78)"
  /\ lerpColor "#1a1a4e" "#b3e5fc" 1 = "rgb(179, 229, 252)".
Proof.
  destruct (lerpColor_well_formed "#1a1a4e" "#b3e5fc" 0.5 eq_refl eq_refl)
    as (r1 & g1 & b1 & r2 & g2 & b2 & r & g & b & E1 & E2 & _ & _ & _
        & L0 & L1).
  { split; vm_compute; discriminate. }
  injection E1 as <- <- <-. injection E2 as <- <- <-.
  split; [ exact L0 | exact L1 ].
Defined.


Lemma unlockAchievement_once_witness :
  snd (unlockAchievement Host.fits "week_warrior" Sample.stored) = true
  /\ snd (unlockAchievement Host.fits "first_night" Sample.stored) = false.
Proof.
  assert (ND : NoDup (getAchievements Sample.stored)).
  { repeat constructor. intros []. }
  destruct (unlockAchievement_once Host.fits "week_warrior" Sample.stored
              roomy_host ND) as [H1 _].
  destruct (unlockAchievement_once Host.fits "first_night" Sample.stored
              roomy_host ND) as [H2 _].
  split; [ exact H1 | exact H2 ].
Defined.

Lemma endSleep_not_sleeping_witness :
  endSleep Host.fits Host.parseDate Host.toISOString Host.localDate
    Sample.morning 0.5 None
  = Some (None, None).
Proof.
  apply (endSleep_not_sleeping Host.fits Host.parseDate Host.toISOString
           Host.localDate Sample.morning 0.5 None).
  reflexivity.
Defined.

Lemma stored_ids_differ : uniqueIds (load Sample.stored).
Proof.
  unfold uniqueIds. cbn.
  constructor; [ intros [H | []]; discriminate H | ].
  constructor; [ intros [] | constructor ].
Defined.

Lemma endSleep_stores_record_witness :
  exists (record : SleepRecord) (store' : LocalStorage),
    endSleep Host.fits Host.parseDate Host.toISOString Host.localDate
      Sample.morning 0.5 Sample.stored
    = Some (store', Some record)
    /\ id record = "2024-01-17"
    /\ isSleeping store' = false
    /\ getRecord "2024-01-17" store' = Some record
    /\ List.length (getAllRecords store') = 3%nat.
Proof.
  destruct (endSleep_stores_record Host.fits Host.parseDate
              Host.toISOString Host.localDate Sample.morning 0.5
              Sample.stored "2024-01-16T22:05:00.000Z" 1705442700000
              roomy_host eq_refl)
    as (record & store' & E & Hid & _ & _ & Hs & Hget & _ & _ & Hlen & _).
  { discriminate. }
  { reflexivity. }
  { exact stored_ids_differ. }
  exists record, store'. repeat split; assumption.
Defined.

Lemma endSleep_record_fields_witness :
  exists (record : SleepRecord) (store' : LocalStorage),
    endSleep Host.fits Host.parseDate Host.toISOString Host.localDate
      Sample.morning 0.5 Sample.stored
    = Some (store', Some record)
    /\ (0 <= duration record)%Q
    /\ (0 <= artSeed record < 1000000)%Z
    /\ Random.createRandom (artSeed record) = artSeed record.
Proof.
  destruct (endSleep_record_fields Host.fits Host.parseDate
              Host.toISOString Host.localDate Sample.morning 0.5
              Sample.stored "2024-01-16T22:05:00.000Z" 1705442700000
              eq_refl)
    as (record & store' & k & E & _ & _ & Hpos & _ & Hseed & Hstate).
  { discriminate. }
  { reflexivity. }
  { split; vm_compute; [ discriminate | reflexivity ]. }
  exists record, store'. repeat split; try apply Hseed; try assumption.
  apply Hpos. vm_compute. discriminate.
Defined.

Lemma write_refused_witness :
  setAlarm (fun _ => false) "06:30" Sample.stored = Sample.stored
  /\ unlockAchievement (fun _ => false) "week_warrior" Sample.stored
     = (Sample.stored, true)
  /\ exists record,
       endSleep (fun _ => false) Host.parseDate Host.toISOString
         Host.localDate Sample.morning 0.5 Sample.stored
       = Some (Sample.stored, Some record)
       /\ isSleeping Sample.stored = true.
Proof.
  destruct (write_refused (fun _ => false) Host.parseDate Host.toISOString
              Host.localDate Sample.morning 0.5 "06:30" "week_warrior"
              Sample.stored (fun _ => eq_refl))
    as (_ & _ & Ha & _ & Hu & He).
  split; [ exact Ha | ]. split; [ exact Hu | ].
  destruct (He "2024-01-16T22:05:00.000Z" 1705442700000%Z eq_refl)
    as (record & E & _ & Hs).
  { discriminate. }
  { reflexivity. }
  exists record. split; assumption.
Defined.

Lemma sleep_then_wake_witness :
  exists (record : SleepRecord) (store' : LocalStorage),
    endSleep Host.fits Host.parseDate Host.toISOString Host.localDate
      Sample.morning 0.5
      (fst (startSleep Host.fits Host.toISOString 1705442700000 None))
    = Some (store', Some record)
    /\ bedtime record = "2024-01-16T22:05:00.000Z"
    /\ isSleeping store' = false.
Proof.
  destruct (sleep_then_wake Host.fits Host.parseDate Host.toISOString
              Host.localDate 1705442700000 Sample.morning 0.5 None
              roomy_host eq_refl)
    as (_ & _ & record & store' & E & Hb & _ & _ & Hs & _).
  { vm_compute. discriminate. }
  exists record, store'. repeat split; assumption.
Defined.

Lemma getStreak_bounds_witness :
  getStreak Host.localDate Host.setDateBack Sample.morning None = 0%Z.
Proof.
  destruct (getStreak_bounds Host.localDate Host.setDateBack Sample.morning
              None) as (_ & Hempty & _).
  apply Hempty. reflexivity.
Defined.

Lemma getStreak_counts_run_witness :
  getStreak Host.localDate Host.setDateBack Sample.morning Sample.stored
  = 2%Z.
Proof.
  apply (getStreak_counts_run Host.localDate Host.setDateBack
           Sample.morning Sample.stored 2).
  - discriminate.
  - lia.
  - intros j Hj.
    assert (C : j = 1%Z \/ j = 2%Z) by lia.
    destruct C; subst; reflexivity.
  - reflexivity.
Defined.

Lemma getAverageDuration_mean_witness :
  (Qabs (getAverageDuration None
           (Some (mkData [Sample.record; Sample.night2] None [] None))
         - meanDuration [Sample.record; Sample.night2]) <= 0.05)%Q.
Proof.
  destruct (getAverageDuration_mean [Sample.record; Sample.night2]
              None None []) as (_ & _ & _ & _ & Hmean).
  apply Hmean. discriminate.
Defined.

Lemma checkAchievements_unlocks_witness :
  snd (checkAchievements Host.getHours Host.fits Host.localDate
         Host.setDateBack Sample.morning Sample.stored)
  = ["early_bird"; "perfect_sleep"].
Proof.
  destruct (checkAchievements_unlocks Host.getHours Host.fits
              Host.localDate Host.setDateBack Sample.morning Sample.stored
              roomy_host) as [Htoasts _].
  rewrite Htoasts. reflexivity.
Defined.

Lemma achievements_match_streak_effects_witness :
  passes Host.getHours "two_week_master" [] 30 = true
  /\ passes Host.getHours "week_warrior" [] 30 = true.
Proof.
  destruct (achievements_match_streak_effects Host.sin Host.PI Host.show
              Host.getHours 80 80 Sample.record [] 30 Sample.fresh)
    as (_ & _ & Hchampion & _).
  apply Hchampion. reflexivity.
Defined.

Lemma bedtime_achievements_and_palette_witness :
  passes Host.getHours "early_bird" [Sample.record; Sample.night2] 0 = true.
Proof.
  destruct (bedtime_achievements_and_palette Host.getHours Sample.record
              [Sample.record; Sample.night2] 0) as [Hserene _].
  { left. reflexivity. }
  apply Hserene. reflexivity.
Defined.

Lemma elapsed_parts_witness :
  let '(hours, minutes, seconds) := elapsedParts 3723000 in
  (0 <= hours /\ 0 <= minutes < 60 /\ 0 <= seconds < 60
   /\ hours * 3600 + minutes * 60 + seconds = 3723000 / 1000)%Z.
Proof. apply (elapsed_parts 3723000). lia. Defined.

Lemma duration_parts_witness : (snd (durationParts 9.92) <= 59)%Z.
Proof.
  pose proof (duration_parts 9.92) as H. cbv beta iota zeta in H.
  destruct (durationParts 9.92) as [hours minutes] eqn:E.
  destruct H as (_ & _ & _ & Hhundredths & _).
  apply Hhundredths. exists 992%Z. reflexivity.
Defined.

Lemma date_ids_distinguish_days_witness :
  formatDate Host.localDate Sample.morning = calendarDateId 2024 0 17.
Proof.
  destruct (date_ids_distinguish_days Host.localDate Sample.morning
              2024 0 17 2024 0 16) as [_ Hformat]; try lia.
  apply Hformat. reflexivity.
Defined.

Lemma calendar_finds_record_witness :
  exists (record : SleepRecord) (store' : LocalStorage),
    endSleep Host.fits Host.parseDate Host.toISOString Host.localDate
      Sample.morning 0.5 Sample.stored
    = Some (store', Some record)
    /\ getRecord (calendarDateId 2024 0 17) store' = Some record
    /\ getRecord (calendarDateId 2024 0 16) store'
       = getRecord (calendarDateId 2024 0 16) Sample.stored.
Proof.
  destruct (calendar_finds_record Host.fits Host.parseDate
              Host.toISOString Host.localDate Sample.morning 0.5
              Sample.stored "2024-01-16T22:05:00.000Z" 1705442700000
              2024 0 17 roomy_host eq_refl)
    as (record & store' & E & Hget & Hother); try lia.
  { discriminate. }
  { reflexivity. }
  { reflexivity. }
  exists record, store'. split; [ exact E | ]. split; [ exact Hget | ].
  apply Hother; try lia. intros C. discriminate C.
Defined.

Lemma alarmDue_exact_witness :
  alarmDue false 7 0 1 Sample.stored = true.
Proof.
  apply (alarmDue_exact false 7 0 1 7 0 Sample.stored); try lia.
  - reflexivity.
  - repeat split; lia.
Defined.
